(** * SmartQuizzer (adaptive-learner-app): quiz session, attempt store,
    question generator and performance statistics

  A shallow embedding of the application logic of the repository:

  - [JsNumber]: the IEEE-754 binary64 arithmetic of JavaScript numbers
    ([/], [*], [+], [Math.round], [Math.max]) on the Standard Library's
    [spec_float];
  - [Store]: the relational store of the migration (tables
    [quiz_attempts] and [quiz_questions], their constraints, the row
    level policies and the [ON DELETE CASCADE] foreign key);
  - [Quiz]: the quiz page ([generateQuiz], [handleAnswer], [handleNext],
    [handlePrevious], [handleSubmit]);
  - [Performance] and [Results]: [fetchAttempts], [clearHistory],
    [calculateStats], [fetchResults];
  - [GenerateQuiz]: the [generate-quiz] edge function. *)

From Stdlib Require Import ZArith Ascii String Floats.SpecFloat.
From stdpp Require Import base option list gmap strings pretty.

(** ** JavaScript numbers *)

Module JsNumber.
Local Open Scope Z_scope.

Definition prec : Z := 53.
Definition emax : Z := 1024.

(** A JavaScript number is a binary64 value. *)
Definition number : Type := spec_float.

Definition NaN : number := S754_nan.
Definition neg_infinity : number := S754_infinity true.

(** The double nearest to an integer (exact below 2^53): how an
    integer literal, an array length or an integer column read from
    JSON becomes a number. *)
Definition of_Z (z : Z) : number := binary_normalize prec emax z 0 false.

Definition add (x y : number) : number := SFadd prec emax x y.
Definition mul (x y : number) : number := SFmul prec emax x y.
Definition div (x y : number) : number := SFdiv prec emax x y.

Definition is_nan (x : number) : bool :=
  match x with S754_nan => true | _ => false end.

(** [x > y] on numbers; false when either is NaN. *)
Definition gt (x y : number) : bool :=
  match SFcompare x y with Some Gt => true | _ => false end.

(** [Math.round]: the integer nearest to [x], ties towards +infinity;
    NaN, the infinities and the zeros are returned unchanged, and a
    value in [-0.5, 0) gives -0. *)
Definition Math_round (x : number) : number :=
  match x with
  | S754_finite s m e =>
      if 0 <=? e then x
      else
        let v := if s then Z.neg m else Z.pos m in
        let n := (2 * v + 2 ^ (- e)) / 2 ^ (- e + 1) in
        if n =? 0 then S754_zero s else of_Z n
  | _ => x
  end.

(** [Math.max(...xs)]: starts from -infinity; NaN as soon as one
    argument is NaN; +0 is larger than -0. *)
Fixpoint Math_max_from (highest : number) (xs : list number) : number :=
  match xs with
  | [] => highest
  | x :: xs' =>
      if is_nan x then NaN
      else
        let highest1 :=
          match x, highest with
          | S754_zero false, S754_zero true => x
          | _, _ => highest
          end in
        Math_max_from (if gt x highest1 then x else highest1) xs'
  end.

Definition Math_max (xs : list number) : number :=
  Math_max_from neg_infinity xs.

End JsNumber.

(** ** Rounding to binary64 *)

Module Rounding.
Local Open Scope Z_scope.

(** The record [mrs] of a right shift locates the rational
    [num / den]: its mantissa is the integer part, its round bit says
    whether the rest is at least a half, its sticky bit whether
    anything is left beyond that. *)
Definition located (num den : Z) (mrs : shr_record) : Prop :=
  match shr_r mrs, shr_s mrs with
  | false, false => num = shr_m mrs * den
  | false, true => shr_m mrs * den < num ∧ 2 * num < (2 * shr_m mrs + 1) * den
  | true, false => 2 * num = (2 * shr_m mrs + 1) * den
  | true, true => (2 * shr_m mrs + 1) * den < 2 * num ∧ num < (shr_m mrs + 1) * den
  end.

(** The number of binary digits of a positive integer. *)
Definition digits (p : positive) : Z := Z.pos (digits2_pos p).

End Rounding.

(** ** The attempt store *)

Module Store.

Definition UserId : Type := nat.
Definition AttemptId : Type := nat.

(** The error object of a failed request or a thrown exception; only
    its [message] is read by the pages. *)
Record Err : Type := mkErr { message : string }.

(** Sequencing of steps that may end in an error. *)
#[global] Instance err_bind : MBind (sum Err) :=
  λ X Y k m, match m with inl e => inl e | inr x => k x end.

(** A row of [public.quiz_attempts]; the primary key [id] is the key
    under which the row is stored. *)
Record AttemptRow : Type := mkAttemptRow {
  user_id : UserId;
  skill_level : string;
  subjects : list string;
  question_count : Z;
  score : Z;
  total_questions : Z;
  created_at : nat
}.

(** The [options] object of a question: one text per label. *)
Record Options : Type := mkOptions {
  A : string; B : string; C : string; D : string
}.

(** What a property of a parsed question holds. The interface of the
    quiz page declares strings, but the questions are what
    [JSON.parse] made of the generated text and nothing checks them:
    the property may be missing (it then reads as [undefined]) or
    [null]. Other JSON values are not modelled. *)
Inductive Field : Type :=
| Undefined
| Null
| Text (s : string).

(** The text a [TEXT] column gets: [undefined] is left out of the
    request body, so that the column takes its default, which is
    NULL as it is for [null]. *)
Definition column_text (f : Field) : option string :=
  match f with
  | Text s => Some s
  | _ => None
  end.

(** A row of [public.quiz_questions]. *)
Record QuestionRow : Type := mkQuestionRow {
  attempt_id : AttemptId;
  question_text : string;
  q_options : Options;
  q_correct_answer : string;
  user_answer : option string;
  q_explanation : option string;
  q_created_at : nat
}.

(** Row level security is enabled on both tables. The migration
    declares SELECT and INSERT policies on [quiz_attempts] and SELECT,
    INSERT and UPDATE policies on [quiz_questions]; it declares no
    UPDATE and no DELETE policy on [quiz_attempts]. Whether the
    deployed schema grants the owner these two commands is a parameter
    of the store: [false] is the migration on its own (the command
    then silently matches no row), [true] is a policy
    [USING (auth.uid() = user_id)] like the declared ones. *)
Record Policies : Type := mkPolicies {
  attempts_update_own : bool;
  attempts_delete_own : bool
}.

Definition migration_policies : Policies := mkPolicies false false.

(** The database: the policies in force, the ids of [public.profiles],
    the two tables, and the value of [NOW()], which every insert
    advances. Question rows are kept in the order of their insertion;
    their own [id] is never read. *)
Record DB : Type := mkDB {
  policies : Policies;
  profiles : gset UserId;
  quiz_attempts : gmap AttemptId AttemptRow;
  quiz_questions : list QuestionRow;
  clock : nat
}.

Definition set_attempts (m : gmap AttemptId AttemptRow) (db : DB) : DB :=
  mkDB (policies db) (profiles db) m (quiz_questions db) (clock db).
Definition set_questions (qs : list QuestionRow) (db : DB) : DB :=
  mkDB (policies db) (profiles db) (quiz_attempts db) qs (clock db).
Definition tick (db : DB) : DB :=
  mkDB (policies db) (profiles db) (quiz_attempts db) (quiz_questions db)
       (S (clock db)).

Definition set_score (s : Z) (r : AttemptRow) : AttemptRow :=
  mkAttemptRow (user_id r) (skill_level r) (subjects r) (question_count r)
               s (total_questions r) (created_at r).

(** [auth.uid() = user_id]; never true for an anonymous request. *)
Definition owns (uid : option UserId) (r : AttemptRow) : bool :=
  match uid with
  | Some u => bool_decide (u = user_id r)
  | None => false
  end.

(** The [EXISTS (SELECT 1 FROM quiz_attempts ...)] of the policies on
    [quiz_questions]. *)
Definition owns_attempt (db : DB) (uid : option UserId) (q : QuestionRow) : bool :=
  match quiz_attempts db !! attempt_id q with
  | Some r => owns uid r
  | None => false
  end.

(** [CHECK (skill_level IN ('Beginner', 'Intermediate', 'Advanced'))]. *)
Definition skill_level_ok (s : string) : bool :=
  bool_decide (s ∈ ["Beginner"; "Intermediate"; "Advanced"]).

(** The range of an [INTEGER] column. *)
Definition int4_ok (z : Z) : bool :=
  ((- 2 ^ 31 <=? z) && (z <? 2 ^ 31))%Z.

Definition rls_violation : Err :=
  mkErr "new row violates row-level security policy".
Definition check_violation : Err :=
  mkErr "new row violates check constraint quiz_attempts_skill_level_check".
Definition fk_violation : Err :=
  mkErr "insert or update violates foreign key constraint".
Definition out_of_range : Err := mkErr "integer out of range".
Definition invalid_uuid : Err :=
  mkErr "invalid input syntax for type uuid".
Definition not_null_violation : Err :=
  mkErr "null value in column violates not-null constraint".

(** The values the quiz page supplies for a new attempt; [score] and
    [created_at] take their column defaults. *)
Record NewAttempt : Type := mkNewAttempt {
  na_user_id : UserId;
  na_skill_level : string;
  na_subjects : list string;
  na_question_count : Z;
  na_total_questions : Z
}.

(** [from("quiz_attempts").insert(...).select().single()]: the values
    must fit their columns, pass the INSERT policy
    ([auth.uid() = user_id]), the check on [skill_level] and the
    foreign key to [profiles]; [gen_random_uuid()] is an id not yet in
    the table. The inserted row is returned. *)
Definition insert_attempt (n : NewAttempt) (uid : option UserId) (db : DB)
  : (Err + (AttemptId * AttemptRow)) * DB :=
  let row := mkAttemptRow (na_user_id n) (na_skill_level n) (na_subjects n)
                          (na_question_count n) 0 (na_total_questions n)
                          (clock db) in
  if negb (int4_ok (na_question_count n) && int4_ok (na_total_questions n))
  then (inl out_of_range, db)
  else if negb (owns uid row) then (inl rls_violation, db)
  else if negb (skill_level_ok (na_skill_level n)) then (inl check_violation, db)
  else if negb (bool_decide (na_user_id n ∈ profiles db))
  then (inl fk_violation, db)
  else
    let id := fresh (dom (quiz_attempts db)) in
    (inr (id, row), tick (set_attempts (<[id := row]> (quiz_attempts db)) db)).

(** The values the quiz page supplies for a question row. The attempt
    is named by the page's [attemptId] string: [None] is a string
    that is not a uuid (the initial empty string). The texts and the
    options are what the question holds; [None] for the options is a
    missing or [null] property. *)
Record NewQuestion : Type := mkNewQuestion {
  nq_attempt_id : option AttemptId;
  nq_question_text : Field;
  nq_options : option Options;
  nq_correct_answer : Field;
  nq_user_answer : option string;
  nq_explanation : Field
}.

(** [from("quiz_questions").insert(...)]: the INSERT policy asks for
    an attempt of the caller with that id (which the foreign key asks
    for as well); [question_text], [options] and [correct_answer] are
    [NOT NULL], [explanation] is not. *)
Definition insert_question (n : NewQuestion) (uid : option UserId) (db : DB)
  : (Err + unit) * DB :=
  match nq_attempt_id n with
  | None => (inl invalid_uuid, db)
  | Some a =>
      if negb (match quiz_attempts db !! a with
               | Some r => owns uid r
               | None => false
               end)
      then (inl rls_violation, db)
      else
        match column_text (nq_question_text n), nq_options n,
              column_text (nq_correct_answer n) with
        | Some text, Some opts, Some correct =>
            let row := mkQuestionRow a text opts correct (nq_user_answer n)
                                     (column_text (nq_explanation n))
                                     (clock db) in
            (inr (), tick (set_questions (quiz_questions db ++ [row]) db))
        | _, _, _ => (inl not_null_violation, db)
        end
  end.

(** [from("quiz_attempts").update({ score }).eq("id", attemptId)]:
    the rows the caller may see and update get the new score; rows
    hidden by the policies are skipped without an error. *)
Definition update_score (attemptId : option AttemptId) (s : Z)
           (uid : option UserId) (db : DB) : (Err + unit) * DB :=
  match attemptId with
  | None => (inl invalid_uuid, db)
  | Some a =>
      match quiz_attempts db !! a with
      | Some r =>
          if owns uid r && attempts_update_own (policies db)
          then if int4_ok s
               then (inr (), set_attempts (<[a := set_score s r]> (quiz_attempts db)) db)
               else (inl out_of_range, db)
          else (inr (), db)
      | None => (inr (), db)
      end
  end.

(** Insertion sort on a numeric key, used for [.order("created_at")]. *)
Fixpoint insert_by {X : Type} (le : X → X → bool) (x : X) (l : list X) : list X :=
  match l with
  | [] => [x]
  | y :: l' => if le x y then x :: l else y :: insert_by le x l'
  end.

Definition order_by {X : Type} (le : X → X → bool) (l : list X) : list X :=
  foldr (insert_by le) [] l.

(** [from("quiz_attempts").select("*").order("created_at",
    { ascending: false })]: the caller's own rows, newest first. *)
Definition select_attempts (uid : option UserId) (db : DB)
  : (Err + list (AttemptId * AttemptRow)) * DB :=
  (inr (order_by (λ x y, created_at y.2 <=? created_at x.2)
                 (filter (λ x, owns uid x.2 = true)
                         (map_to_list (quiz_attempts db)))), db).

(** [from("quiz_questions").select("*").eq("attempt_id", attemptId)
    .order("created_at")]. *)
Definition select_questions (attemptId : option AttemptId)
           (uid : option UserId) (db : DB) : (Err + list QuestionRow) * DB :=
  match attemptId with
  | None => (inl invalid_uuid, db)
  | Some a =>
      (inr (order_by (λ x y, q_created_at x <=? q_created_at y)
                     (filter (λ q, owns_attempt db uid q = true ∧ attempt_id q = a)
                             (quiz_questions db))), db)
  end.

(** The rows a [DELETE ... WHERE user_id = u] issued by [uid] removes. *)
Definition deleted_by (u : UserId) (uid : option UserId) (db : DB)
           (r : AttemptRow) : bool :=
  bool_decide (user_id r = u) && owns uid r && attempts_delete_own (policies db).

(** [from("quiz_attempts").delete().eq("user_id", u)]; the foreign key
    of [quiz_questions.attempt_id] is [ON DELETE CASCADE], so the
    question rows of every removed attempt go with it. *)
Definition delete_attempts (u : UserId) (uid : option UserId) (db : DB)
  : (Err + unit) * DB :=
  let removed := filter (λ x, deleted_by u uid db x.2 = true) (quiz_attempts db) in
  let kept := filter (λ x, deleted_by u uid db x.2 = false) (quiz_attempts db) in
  (inr (),
   set_questions
     (filter (λ q, removed !! attempt_id q = None) (quiz_questions db))
     (set_attempts kept db)).

End Store.

(** ** The client: requests, session, toasts, navigation *)

Module Client.
Import Store.

(** A question as the quiz page holds it. [interface Question]
    declares four properties, but the page holds what the function
    returned, unchecked: each property may be missing or [null]
    ([None] for the options). The questions themselves are taken to
    be objects. *)
Record Question : Type := mkQuestion {
  question : Field;
  options : option Options;
  correct_answer : Field;
  explanation : Field
}.

(** The body sent to the [generate-quiz] function and what
    [supabase.functions.invoke] gives back: an object with [data] and
    [error], or a rejected promise. In [data], [questions] may be
    missing. *)
Record InvokeBody : Type := mkInvokeBody {
  subject : string;
  b_skillLevel : string;
  b_questionCount : Z
}.

Record InvokeData : Type := mkInvokeData {
  questions : option (list Question)
}.

Inductive InvokeOutcome : Type :=
| Resolved (data : option InvokeData) (error : option Err)
| Rejected (e : Err).

Inductive Route : Type :=
| Dashboard
| Auth
| ResultsPage (attemptId : option AttemptId) (score : Z) (total : nat).

Inductive Toast : Type :=
| ToastError (msg : string)
| ToastSuccess (msg : string).

(** Everything outside the page: the database, the signed-in user,
    the transport failures of the coming store requests (one entry is
    consumed per request; [Some e] makes the request answer with the
    error [e] without reaching the database), the [generate-quiz]
    function, and what the user got to see: the toasts, the lines of
    the console (an error is logged by the label that precedes it) and
    the navigations. *)
Record World : Type := mkWorld {
  db : DB;
  session : option UserId;
  faults : list (option Err);
  generate_quiz : InvokeBody → InvokeOutcome;
  toasts : list Toast;
  console : list string;
  navigations : list Route
}.

Definition set_db (d : DB) (w : World) : World :=
  mkWorld d (session w) (faults w) (generate_quiz w) (toasts w) (console w)
          (navigations w).
Definition set_faults (f : list (option Err)) (w : World) : World :=
  mkWorld (db w) (session w) f (generate_quiz w) (toasts w) (console w)
          (navigations w).
Definition add_toast (t : Toast) (w : World) : World :=
  mkWorld (db w) (session w) (faults w) (generate_quiz w) (toasts w ++ [t])
          (console w) (navigations w).
Definition add_console (l : string) (w : World) : World :=
  mkWorld (db w) (session w) (faults w) (generate_quiz w) (toasts w)
          (console w ++ [l]) (navigations w).
Definition add_navigation (r : Route) (w : World) : World :=
  mkWorld (db w) (session w) (faults w) (generate_quiz w) (toasts w)
          (console w) (navigations w ++ [r]).

(** How a statement ends: normally with a value, or by throwing. *)
Inductive Completion (X : Type) : Type :=
| Normal (x : X)
| Throw (e : Err).
Arguments Normal {X} x.
Arguments Throw {X} e.

(** An action of a page with state [P]. *)
Definition Eff (P X : Type) : Type := World * P → Completion X * (World * P).

Section Eff.
Context {P : Type}.

Definition ret {X} (x : X) : Eff P X := λ s, (Normal x, s).

Definition bind {X Y} (m : Eff P X) (k : X → Eff P Y) : Eff P Y :=
  λ s, match m s with
       | (Normal x, s') => k x s'
       | (Throw e, s') => (Throw e, s')
       end.

Definition throw {X} (e : Err) : Eff P X := λ s, (Throw e, s).

(** [try { m } catch (e) { h e }]. *)
Definition try_catch {X} (m : Eff P X) (h : Err → Eff P X) : Eff P X :=
  λ s, match m s with
       | (Normal x, s') => (Normal x, s')
       | (Throw e, s') => h e s'
       end.

(** [try { m } finally { f }]. *)
Definition finally {X} (m : Eff P X) (f : Eff P unit) : Eff P X :=
  λ s, match m s with
       | (r, s') =>
           match f s' with
           | (Normal _, s'') => (r, s'')
           | (Throw e, s'') => (Throw e, s'')
           end
       end.

(** The page state as the running handler sees it. *)
Definition get_page : Eff P P := λ s, (Normal s.2, s).
Definition modify_page (f : P → P) : Eff P unit :=
  λ s, (Normal (), (s.1, f s.2)).
Definition modify_world (f : World → World) : Eff P unit :=
  λ s, (Normal (), (f s.1, s.2)).

Definition toast_error (msg : string) : Eff P unit :=
  modify_world (add_toast (ToastError msg)).
Definition toast_success (msg : string) : Eff P unit :=
  modify_world (add_toast (ToastSuccess msg)).
Definition console_log (l : string) : Eff P unit :=
  modify_world (add_console l).
Definition navigate (r : Route) : Eff P unit :=
  modify_world (add_navigation r).

(** [supabase.auth.getSession()]. *)
Definition getSession : Eff P (option UserId) :=
  λ s, (Normal (session s.1), s).

(** A store request: it resolves with an error or a result and never
    throws. *)
Definition request {X} (op : option UserId → DB → (Err + X) * DB)
  : Eff P (Err + X) :=
  λ s,
    let w := s.1 in
    match faults w with
    | Some e :: fs => (Normal (inl e), (set_faults fs w, s.2))
    | flts =>
        let '(r, d) := op (session w) (db w) in
        (Normal r, (set_db d (set_faults (tail flts) w), s.2))
    end.

(** [supabase.functions.invoke("generate-quiz", { body })]. *)
Definition functions_invoke (body : InvokeBody)
  : Eff P (option InvokeData * option Err) :=
  λ s, match generate_quiz s.1 body with
       | Resolved data error => (Normal (data, error), s)
       | Rejected e => (Throw e, s)
       end.
End Eff.

(** The transport failure waiting for the next store request. *)
Definition next_fault (w : World) : option Err :=
  match faults w with
  | Some e :: _ => Some e
  | _ => None
  end.

(** Two worlds in which the user has seen the same things. *)
Definition same_screen (w w' : World) : Prop :=
  session w' = session w ∧ generate_quiz w' = generate_quiz w
  ∧ toasts w' = toasts w ∧ console w' = console w
  ∧ navigations w' = navigations w.

Declare Scope eff_scope.
Delimit Scope eff_scope with eff.
Notation "'let*' x ':=' m 'in' k" := (bind m (λ x, k))
  (at level 10, x pattern, m at level 100, k at level 200) : eff_scope.
Notation "m ';;' k" := (bind m (λ _, k))
  (at level 100, k at level 200, right associativity) : eff_scope.

(** [e.message || fallback]. *)
Definition message_or (e : Err) (fallback : string) : string :=
  if bool_decide (message e = "") then fallback else message e.

End Client.

(** ** The quiz page *)

Module Quiz.
Import Store Client.
Local Open Scope eff_scope.

(** The state hooks of the page. [attemptId] starts as the empty
    string, which is [None] here. *)
Record State : Type := mkState {
  questions : list Question;
  loading : bool;
  currentQuestion : nat;
  answers : gmap nat string;
  attemptId : option AttemptId
}.

Definition initial : State := mkState [] true 0 ∅ None.

Definition setQuestions (qs : list Question) : Eff State unit :=
  modify_page (λ p, mkState qs (loading p) (currentQuestion p) (answers p)
                            (attemptId p)).
Definition setLoading (b : bool) : Eff State unit :=
  modify_page (λ p, mkState (questions p) b (currentQuestion p) (answers p)
                            (attemptId p)).
Definition setCurrentQuestion (i : nat) : Eff State unit :=
  modify_page (λ p, mkState (questions p) (loading p) i (answers p)
                            (attemptId p)).
Definition setAnswers (a : gmap nat string) : Eff State unit :=
  modify_page (λ p, mkState (questions p) (loading p) (currentQuestion p) a
                            (attemptId p)).
Definition setAttemptId (a : option AttemptId) : Eff State unit :=
  modify_page (λ p, mkState (questions p) (loading p) (currentQuestion p)
                            (answers p) a).

(** [subjects.length === 1 ? subjects[0] : subjects.join(", ")]. *)
Definition subject_of (subjects : list string) : string :=
  match subjects with
  | [s] => s
  | _ => String.concat ", " subjects
  end.

Definition generateQuiz (skillLevel : string) (subjects : list string)
           (questionCount : Z) : Eff State unit :=
  finally
    (try_catch
       (setLoading true ;;
        let subject := subject_of subjects in
        let* (data, error) :=
          functions_invoke (mkInvokeBody subject skillLevel questionCount) in
        match error with
        | Some e => throw e
        | None =>
            match data with
            | Some (mkInvokeData (Some qs)) =>
                setQuestions qs ;;
                let* user := getSession in
                match user with
                | Some uid =>
                    let* r :=
                      request (insert_attempt
                                 (mkNewAttempt uid skillLevel subjects
                                               questionCount
                                               (Z.of_nat (length qs)))) in
                    match r with
                    | inl attemptError => throw attemptError
                    | inr (id, _) => setAttemptId (Some id)
                    end
                | None => ret ()
                end
            | _ => ret ()
            end
        end)
       (λ error,
          console_log "Error generating quiz:" ;;
          toast_error
            (message_or error "Failed to generate quiz. Please try again.") ;;
          navigate Dashboard))
    (setLoading false).

(** The world after a failed generation: the error is logged and
    shown, and the user is sent to the dashboard. *)
Definition failed_world (e : Err) (w : World) : World :=
  add_navigation Dashboard
    (add_toast (ToastError (message_or e "Failed to generate quiz. Please try again."))
       (add_console "Error generating quiz:" w)).

(** The effect run when the page is shown: without the three
    selections it goes back to the dashboard. *)
Definition mount (skillLevel : option string) (subjects : option (list string))
           (questionCount : option Z) : Eff State unit :=
  match skillLevel, subjects, questionCount with
  | Some sl, Some subs, Some qc =>
      if bool_decide (sl = "") || bool_decide (qc = 0%Z)
      then navigate Dashboard
      else generateQuiz sl subs qc
  | _, _, _ => navigate Dashboard
  end.

Definition handleAnswer (value : string) : Eff State unit :=
  let* p := get_page in
  setAnswers (<[currentQuestion p := value]> (answers p)).

Definition handleNext : Eff State unit :=
  let* p := get_page in
  if (Z.of_nat (currentQuestion p) <? Z.of_nat (length (questions p)) - 1)%Z
  then setCurrentQuestion (currentQuestion p + 1)
  else ret ().

Definition handlePrevious : Eff State unit :=
  let* p := get_page in
  if (0 <? Z.of_nat (currentQuestion p))%Z
  then setCurrentQuestion (currentQuestion p - 1)
  else ret ().

(** [userAnswer || null]. *)
Definition or_null (a : option string) : option string :=
  match a with
  | Some s => if bool_decide (s = "") then None else Some s
  | None => None
  end.

(** [userAnswer === correctAnswer]: the recorded answer is a string, or
    [undefined] when the position has none. *)
Definition strict_equal (userAnswer : option string) (correctAnswer : Field)
  : bool :=
  match userAnswer, correctAnswer with
  | Some u, Text c => bool_decide (u = c)
  | None, Undefined => true
  | _, _ => false
  end.

(** The [for] loop of [handleSubmit] over the indices still to visit:
    compare, count, insert the question row (the outcome of the insert
    is not looked at). *)
Fixpoint submit_loop (p : State) (indices : list nat) (score : Z)
  : Eff State Z :=
  match indices with
  | [] => ret score
  | i :: rest =>
      let userAnswer := answers p !! i in
      match questions p !! i with
      | None => throw (mkErr "Cannot read properties of undefined")
      | Some q =>
          let correctAnswer := correct_answer q in
          let score' :=
            if strict_equal userAnswer correctAnswer
            then (score + 1)%Z else score in
          request (insert_question
                     (mkNewQuestion (attemptId p) (question q) (options q)
                                    correctAnswer (or_null userAnswer)
                                    (explanation q))) ;;
          submit_loop p rest score'
      end
  end.

Definition handleSubmit : Eff State unit :=
  let* p := get_page in
  try_catch
    (let* score := submit_loop p (seq 0 (length (questions p))) 0%Z in
     let* r := request (update_score (attemptId p) score) in
     match r with
     | inl updateError =>
         console_log "Error updating quiz score:" ;;
         toast_error "Failed to save score. Please try again."
     | inr _ =>
         console_log ("Quiz completed! Score: " +:+ pretty score +:+ "/"
                        +:+ pretty (length (questions p))) ;;
         navigate (ResultsPage (attemptId p) score (length (questions p)))
     end)
    (λ error,
       console_log "Error submitting quiz:" ;;
       toast_error "Failed to submit quiz. Please try again.").

(** The positions at which the recorded answer is strictly equal to
    the question's [correct_answer], and the positions with a recorded
    answer. *)
Definition is_match (qs : list Question) (a : gmap nat string) (i : nat) : bool :=
  match qs !! i with
  | Some q => strict_equal (a !! i) (correct_answer q)
  | None => false
  end.

Definition correct_count (qs : list Question) (a : gmap nat string) : nat :=
  length (filter (λ i, is_match qs a i = true) (seq 0 (length qs))).

Definition answered_count (qs : list Question) (a : gmap nat string) : nat :=
  length (filter (λ i, is_Some (a !! i)) (seq 0 (length qs))).

(** Every attempt has its score between 0 and its number of
    questions. *)
Definition score_bounded (d : DB) : Prop :=
  map_Forall (λ _ r, (0 ≤ score r ≤ total_questions r)%Z) (quiz_attempts d).

(** The attempt of the page, if it has one, was created for the
    questions the page holds. *)
Definition coherent (s : World * State) : Prop :=
  ∀ a r, attemptId s.2 = Some a → quiz_attempts (db s.1) !! a = Some r →
         total_questions r = Z.of_nat (length (questions s.2)).

(** What the user can do on the page once it is shown. *)
Inductive Event : Type :=
| Answer (value : string)
| Next
| Previous
| Submit.

Definition handle (e : Event) : Eff State unit :=
  match e with
  | Answer v => handleAnswer v
  | Next => handleNext
  | Previous => handlePrevious
  | Submit => handleSubmit
  end.

(** The page after a sequence of events. *)
Definition run (es : list Event) (s : World * State) : World * State :=
  fold_left (λ s e, (handle e s).2) es s.

End Quiz.

(** ** The performance page *)

Module Performance.
Import JsNumber Store Client.
Local Open Scope eff_scope.

(** The state hooks of the page; an attempt is held with its [id]. *)
Record State : Type := mkState {
  attempts : list (AttemptId * AttemptRow);
  loading : bool;
  error : option string
}.

Definition initial : State := mkState [] true None.

Definition setAttempts (a : list (AttemptId * AttemptRow)) : Eff State unit :=
  modify_page (λ p, mkState a (loading p) (error p)).
Definition setLoading (b : bool) : Eff State unit :=
  modify_page (λ p, mkState (attempts p) b (error p)).
Definition setError (e : option string) : Eff State unit :=
  modify_page (λ p, mkState (attempts p) (loading p) e).

Definition fetchAttempts : Eff State unit :=
  finally
    (try_catch
       (setError None ;;
        let* r := request select_attempts in
        match r with
        | inl e => console_log "Supabase error:" ;; throw e
        | inr data => setAttempts data
        end)
       (λ err,
          console_log "Error fetching attempts:" ;;
          setError (Some (message_or err "Failed to load quiz history"))))
    (setLoading false).

Definition checkAuthAndFetch : Eff State unit :=
  try_catch
    (let* s := getSession in
     match s with
     | None => navigate Auth
     | Some _ => fetchAttempts
     end)
    (λ err,
       console_log "Auth error:" ;;
       setError (Some "Failed to authenticate") ;;
       setLoading false).

Definition clearHistory : Eff State unit :=
  try_catch
    (let* s := getSession in
     match s with
     | None => toast_error "You must be logged in to clear history"
     | Some uid =>
         let* r := request (delete_attempts uid) in
         match r with
         | inl e =>
             console_log "Error clearing history:" ;;
             toast_error "Failed to clear history"
         | inr _ =>
             toast_success "Performance history cleared successfully" ;;
             setAttempts []
         end
     end)
    (λ err,
       console_log "Error clearing history:" ;;
       toast_error "Failed to clear history").

Record Stats : Type := mkStats {
  total : nat;
  avgScore : number;
  bestScore : number
}.

(** [(a.score / a.total_questions) * 100], rounded. *)
Definition percentage (score total_questions : number) : number :=
  Math_round (mul (div score total_questions) (of_Z 100)).

(** [calculateStats], over the attempts held by the page. *)
Definition calculateStats (attempts : list (AttemptId * AttemptRow)) : Stats :=
  if length attempts =? 0
  then {| total := 0; avgScore := of_Z 0; bestScore := of_Z 0 |}
  else
    let totalQuizzes := length attempts in
    let totalScore :=
      fold_left (λ sum a, add sum (of_Z (score a.2))) attempts (of_Z 0) in
    let totalQuestions :=
      fold_left (λ sum a, add sum (of_Z (total_questions a.2))) attempts
                (of_Z 0) in
    let avgScore := percentage totalScore totalQuestions in
    let bestScore :=
      Math_max
        (map (λ a, percentage (of_Z (score a.2)) (of_Z (total_questions a.2)))
             attempts) in
    {| total := totalQuizzes; avgScore := avgScore; bestScore := bestScore |}.

End Performance.

(** ** The results page *)

Module Results.
Import JsNumber Store Client.
Local Open Scope eff_scope.

Record State : Type := mkState {
  questions : list QuestionRow;
  loading : bool
}.

Definition initial : State := mkState [] true.

Definition setQuestions (qs : list QuestionRow) : Eff State unit :=
  modify_page (λ p, mkState qs (loading p)).
Definition setLoading (b : bool) : Eff State unit :=
  modify_page (λ p, mkState (questions p) b).

(** [fetchResults] for the attempt handed over by the quiz page. *)
Definition fetchResults (attemptId : option AttemptId) : Eff State unit :=
  finally
    (try_catch
       (let* r := request (select_questions attemptId) in
        match r with
        | inl e => throw e
        | inr data => setQuestions data
        end)
       (λ err, console_log "Error fetching results:"))
    (setLoading false).

End Results.

(** ** JSON values and [JSON.parse] *)

Module Json.
Import Store.

(** A JSON value. A number keeps its literal text: no number is ever
    inspected by the code below. The members of an object are in
    source order; the last member with a given name is the one a
    property read sees. *)
Local Unset Elimination Schemes.
Inductive Json : Type :=
| JNull
| JBool (b : bool)
| JNumber (literal : string)
| JString (s : string)
| JArray (elements : list Json)
| JObject (members : list (string * Json)).
Local Set Elimination Schemes.

Definition dquote : ascii := "034"%char.
Definition backslash : ascii := "092"%char.
Definition newline : ascii := "010"%char.

Definition is_digit (c : ascii) : bool :=
  (48 <=? nat_of_ascii c) && (nat_of_ascii c <=? 57).

Definition json_ws (c : ascii) : bool :=
  bool_decide (nat_of_ascii c ∈ [32; 9; 10; 13]).

Fixpoint skip_ws (s : string) : string :=
  match s with
  | String c r => if json_ws c then skip_ws r else s
  | EmptyString => s
  end.

Definition hex_value (c : ascii) : option nat :=
  let n := nat_of_ascii c in
  if (48 <=? n) && (n <=? 57) then Some (n - 48)
  else if (65 <=? n) && (n <=? 70) then Some (n - 55)
  else if (97 <=? n) && (n <=? 102) then Some (n - 87)
  else None.

(** The single-character escapes of a JSON string. *)
Definition simple_escape (c : ascii) : option ascii :=
  let n := nat_of_ascii c in
  if n =? 34 then Some dquote
  else if n =? 92 then Some backslash
  else if n =? 47 then Some "/"%char
  else if n =? 98 then Some "008"%char
  else if n =? 102 then Some "012"%char
  else if n =? 110 then Some "010"%char
  else if n =? 114 then Some "013"%char
  else if n =? 116 then Some "009"%char
  else None.

(** The characters of a string literal after its opening quote, and
    what follows the closing quote. Strings are over the code units
    below 256: a [\u] escape above that is not read. *)
Fixpoint parse_chars (s : string) : option (string * string) :=
  match s with
  | EmptyString => None
  | String c r =>
      if Ascii.eqb c dquote then Some (EmptyString, r)
      else if Ascii.eqb c backslash then
        match r with
        | String e r1 =>
            if Ascii.eqb e "u"%char then
              match r1 with
              | String h1 (String h2 (String h3 (String h4 r2))) =>
                  match hex_value h1, hex_value h2, hex_value h3, hex_value h4 with
                  | Some 0, Some 0, Some a, Some b =>
                      '(t, rest) ← parse_chars r2;
                      Some (String (ascii_of_nat (16 * a + b)) t, rest)
                  | _, _, _, _ => None
                  end
              | _ => None
              end
            else
              x ← simple_escape e;
              '(t, rest) ← parse_chars r1;
              Some (String x t, rest)
        | EmptyString => None
        end
      else if nat_of_ascii c <? 32 then None
      else
        '(t, rest) ← parse_chars r;
        Some (String c t, rest)
  end.

(** The longest prefix of digits, and the rest. *)
Fixpoint take_digits (s : string) : string * string :=
  match s with
  | String c r =>
      if is_digit c
      then let '(d, rest) := take_digits r in (String c d, rest)
      else (EmptyString, s)
  | EmptyString => (EmptyString, s)
  end.

(** A number literal: an optional minus sign; the integer part, a
    single 0 or digits not starting with 0; an optional fraction, a
    dot and digits; an optional exponent, e or E, an optional sign and
    digits. *)
Definition parse_number (s : string) : option (string * string) :=
  let '(sign, s1) :=
    match s with
    | String "-" r => ("-", r)
    | _ => ("", s)
    end in
  let '(int, s2) := take_digits s1 in
  if bool_decide (int = "") then None
  else if String.prefix "0" int && negb (bool_decide (int = "0")) then None
  else
    frac ← match s2 with
           | String "." r =>
               let '(d, rest) := take_digits r in
               if bool_decide (d = "") then None
               else Some (String "." d, rest)
           | _ => Some ("", s2)
           end;
    let '(f, s3) := frac in
    exp ← match s3 with
          | String e r =>
              if bool_decide (e = "e"%char ∨ e = "E"%char) then
                let '(sg, r1) :=
                  match r with
                  | String "+" r' => ("+", r')
                  | String "-" r' => ("-", r')
                  | _ => ("", r)
                  end in
                let '(d, rest) := take_digits r1 in
                if bool_decide (d = "") then None
                else Some (String e (sg +:+ d), rest)
              else Some ("", s3)
          | EmptyString => Some ("", s3)
          end;
    let '(x, s4) := exp in
    Some (sign +:+ int +:+ f +:+ x, s4).

(** Recursive descent over values, array elements and object
    members; [fuel] bounds the number of nested calls. *)
Fixpoint parse_value (fuel : nat) (s : string) : option (Json * string) :=
  match fuel with
  | 0 => None
  | S fuel' =>
      match skip_ws s with
      | String "n" (String "u" (String "l" (String "l" r))) => Some (JNull, r)
      | String "t" (String "r" (String "u" (String "e" r))) =>
          Some (JBool true, r)
      | String "f" (String "a" (String "l" (String "s" (String "e" r)))) =>
          Some (JBool false, r)
      | String "[" r =>
          match skip_ws r with
          | String "]" r' => Some (JArray [], r')
          | r' => '(l, rest) ← parse_elements fuel' r'; Some (JArray l, rest)
          end
      | String "{" r =>
          match skip_ws r with
          | String "}" r' => Some (JObject [], r')
          | r' => '(l, rest) ← parse_members fuel' r'; Some (JObject l, rest)
          end
      | String c r =>
          if Ascii.eqb c dquote
          then '(t, rest) ← parse_chars r; Some (JString t, rest)
          else '(n, rest) ← parse_number (String c r); Some (JNumber n, rest)
      | EmptyString => None
      end
  end
with parse_elements (fuel : nat) (s : string) : option (list Json * string) :=
  match fuel with
  | 0 => None
  | S fuel' =>
      '(v, r) ← parse_value fuel' s;
      match skip_ws r with
      | String "," r' =>
          '(l, rest) ← parse_elements fuel' r'; Some (v :: l, rest)
      | String "]" r' => Some ([v], r')
      | _ => None
      end
  end
with parse_members (fuel : nat) (s : string)
  : option (list (string * Json) * string) :=
  match fuel with
  | 0 => None
  | S fuel' =>
      match skip_ws s with
      | String q r =>
          if Ascii.eqb q dquote then
            '(k, r1) ← parse_chars r;
            match skip_ws r1 with
            | String ":" r2 =>
                '(v, r3) ← parse_value fuel' r2;
                match skip_ws r3 with
                | String "," r' =>
                    '(l, rest) ← parse_members fuel' r'; Some ((k, v) :: l, rest)
                | String "}" r' => Some ([(k, v)], r')
                | _ => None
                end
            | _ => None
            end
          else None
      | EmptyString => None
      end
  end.

Definition syntax_error : Err := mkErr "Unexpected token in JSON".

(** A reference [JSON.parse] for texts over the code units below 256:
    one value, surrounded by white space only. *)
Definition parse_json (text : string) : Err + Json :=
  match parse_value (2 * String.length text + 2) text with
  | Some (v, rest) =>
      if bool_decide (skip_ws rest = "") then inr v else inl syntax_error
  | None => inl syntax_error
  end.

(** [v[name]] for an object: the last member named [name]. *)
Fixpoint lookup_member (name : string) (ms : list (string * Json))
  : option Json :=
  match ms with
  | [] => None
  | (k, v) :: ms' =>
      match lookup_member name ms' with
      | Some v' => Some v'
      | None => if bool_decide (k = name) then Some v else None
      end
  end.

End Json.

(** ** The [generate-quiz] function *)

Module GenerateQuiz.
Import Store Client Json.

(** The request as the handler reads it: the HTTP method and the JSON
    body; [None] is a body that [req.json()] cannot read. *)
Record Request : Type := mkRequest {
  method : string;
  body : option InvokeBody
}.

(** The response: status and JSON payload ([None] is the empty body of
    the answer to OPTIONS). *)
Record Response : Type := mkResponse {
  status : Z;
  payload : option Json
}.

Record Message : Type := mkMessage { role : string; content : string }.

(** The call to the gateway. *)
Record FetchRequest : Type := mkFetchRequest {
  url : string;
  authorization : string;
  model : string;
  messages : list Message
}.

(** What [fetch] gives: a network failure, or a response with its
    status and what [response.json()] makes of its body. *)
Inductive FetchOutcome : Type :=
| NetworkError (e : Err)
| HttpResponse (status : Z) (json : Err + Json).

(** [response.ok]. *)
Definition ok (status : Z) : bool := ((200 <=? status) && (status <=? 299))%Z.

Definition quoted (s : string) : string :=
  String dquote s +:+ String dquote "".

Definition nl : string := String newline "".

Definition systemPrompt (b : InvokeBody) : string :=
  String.concat nl
    [ "You are an expert quiz generator. Generate "
        +:+ pretty (b_questionCount b)
        +:+ " multiple-choice questions for the subject "
        +:+ quoted (subject b) +:+ " at " +:+ b_skillLevel b +:+ " level.";
      "";
      "Each question should have:";
      "- A clear, well-written question";
      "- Four answer options (A, B, C, D)";
      "- One correct answer";
      "- A brief explanation of why the answer is correct";
      "";
      "Return ONLY a valid JSON array with this exact structure:";
      "[";
      "  {";
      "    " +:+ quoted "question" +:+ ": " +:+ quoted "Question text here?" +:+ ",";
      "    " +:+ quoted "options" +:+ ": {";
      "      " +:+ quoted "A" +:+ ": " +:+ quoted "First option" +:+ ",";
      "      " +:+ quoted "B" +:+ ": " +:+ quoted "Second option" +:+ ",";
      "      " +:+ quoted "C" +:+ ": " +:+ quoted "Third option" +:+ ",";
      "      " +:+ quoted "D" +:+ ": " +:+ quoted "Fourth option";
      "    },";
      "    " +:+ quoted "correct_answer" +:+ ": " +:+ quoted "A" +:+ ",";
      "    " +:+ quoted "explanation" +:+ ": "
        +:+ quoted "Explanation of why this answer is correct.";
      "  }";
      "]" ].

Definition userPrompt (b : InvokeBody) : string :=
  "Generate " +:+ pretty (b_questionCount b) +:+ " " +:+ b_skillLevel b
    +:+ " level questions about " +:+ subject b +:+ ".".

Definition gateway_request (key : string) (b : InvokeBody) : FetchRequest :=
  mkFetchRequest "https://ai.gateway.lovable.dev/v1/chat/completions"
                 ("Bearer " +:+ key) "google/gemini-2.5-flash"
                 [ mkMessage "system" (systemPrompt b);
                   mkMessage "user" (userPrompt b) ].

Definition type_error : Err := mkErr "Cannot read properties of undefined".
Definition not_a_function : Err := mkErr "generatedText.replace is not a function".

(** A property read [v.name] or [v[i]] on a parsed value ([None] is
    [undefined]), for the reads the handler makes: the names
    [choices], [message] and [content] and the index [0]. *)
Inductive Key : Type := Name (n : string) | Index (i : nat).

Definition read (v : option Json) (k : Key) : Err + option Json :=
  match v with
  | None | Some JNull => inl type_error
  | Some (JObject ms) =>
      inr (lookup_member (match k with Name n => n | Index i => pretty i end) ms)
  | Some (JArray l) =>
      match k with
      | Index i => inr (l !! i)
      | Name _ => inr None
      end
  | Some (JString s) =>
      match k with
      | Index i => inr ((λ c, JString (String c "")) <$> String.get i s)
      | Name _ => inr None
      end
  | Some _ => inr None
  end.

(** [data.choices[0].message.content], which must be a string for
    [replace] to exist. *)
Definition generated_text (data : Json) : Err + string :=
  choices ← read (Some data) (Name "choices");
  first ← read choices (Index 0);
  message ← read first (Name "message");
  content ← read message (Name "content");
  match content with
  | Some (JString t) => inr t
  | None | Some JNull => inl type_error
  | Some _ => inl not_a_function
  end.

(** [s.replace(/fence\n?/g, '')] for a non-empty [fence]: scanning
    from the left, every occurrence of [fence] is removed, with the
    line break after it if there is one. [skip] counts the characters
    of a found occurrence still to drop; [after] says that an
    occurrence has just ended, so that a line break is dropped too. *)
Fixpoint remove_fences (fence : string) (skip : nat) (after : bool)
         (s : string) : string :=
  match s with
  | EmptyString => EmptyString
  | String c r =>
      match skip with
      | S k => remove_fences fence k true r
      | 0 =>
          if after && Ascii.eqb c newline then remove_fences fence 0 false r
          else if String.prefix fence s
               then remove_fences fence (String.length fence - 1) true r
               else String c (remove_fences fence 0 false r)
      end
  end.

(** White space and line terminators among the code units below 256. *)
Definition js_space (c : ascii) : bool :=
  bool_decide (nat_of_ascii c ∈ [9; 10; 11; 12; 13; 32; 160]).

Fixpoint trim_start (s : string) : string :=
  match s with
  | String c r => if js_space c then trim_start r else s
  | EmptyString => s
  end.

Fixpoint trim_end (s : string) : string :=
  match s with
  | String c r =>
      match trim_end r with
      | EmptyString => if js_space c then EmptyString else String c EmptyString
      | r' => String c r'
      end
  | EmptyString => s
  end.

Definition trim (s : string) : string := trim_end (trim_start s).

Definition fence : string := "```".

(** The clean-up of the generated text before it is parsed. *)
Definition clean (generatedText : string) : string :=
  trim (remove_fences fence 0 false
          (remove_fences (fence +:+ "json") 0 false generatedText)).

Definition error_response (status : Z) (msg : string) : Response :=
  mkResponse status (Some (JObject [("error", JString msg)])).

Section Serve.
(** [JSON.parse], the configured key ([Deno.env.get]) and the
    gateway behind [fetch]. *)
Variable JSON_parse : string → Err + Json.
Variable LOVABLE_API_KEY : option string.
Variable fetch : FetchRequest → FetchOutcome.

(** The body of the [try] block: the response or the exception, and
    the calls made to the gateway. *)
Definition generate (req : Request) : (Err + Response) * list FetchRequest :=
  match body req with
  | None => (inl syntax_error, [])
  | Some b =>
      match LOVABLE_API_KEY with
      | None | Some EmptyString =>
          (inl (mkErr "LOVABLE_API_KEY is not configured"), [])
      | Some key =>
          let call := gateway_request key b in
          (match fetch call with
           | NetworkError e => inl e
           | HttpResponse st json =>
               if negb (ok st) then
                 if bool_decide (st = 429%Z) then
                   inr (error_response 429
                          "Rate limit exceeded. Please try again later.")
                 else if bool_decide (st = 402%Z) then
                   inr (error_response 402
                          "Payment required. Please add credits to your workspace.")
                 else inl (mkErr ("AI Gateway error: " +:+ pretty st))
               else
                 data ← json;
                 generatedText ← generated_text data;
                 questions ← JSON_parse (clean generatedText);
                 inr (mkResponse 200 (Some (JObject [("questions", questions)])))
           end, [call])
      end
  end.

(** The handler passed to [serve]. *)
Definition serve (req : Request) : Response * list FetchRequest :=
  if bool_decide (method req = "OPTIONS") then (mkResponse 200 None, [])
  else
    match generate req with
    | (inr response, calls) => (response, calls)
    | (inl error, calls) => (error_response 500 (message error), calls)
    end.
End Serve.

(** The questions the specification asks the generator to deliver:
    an object with a non-empty [question] text, [options] with
    exactly the labels A, B, C and D, and a [correct_answer] that is
    one of them. *)
Definition labels : list string := ["A"; "B"; "C"; "D"].

Definition valid_question (q : Json) : bool :=
  match q with
  | JObject ms =>
      match lookup_member "question" ms, lookup_member "options" ms,
            lookup_member "correct_answer" ms with
      | Some (JString text), Some (JObject opts), Some (JString c) =>
          negb (bool_decide (text = ""))
          && forallb (λ l, bool_decide (is_Some (lookup_member l opts))) labels
          && forallb (λ o, bool_decide (o.1 ∈ labels)) opts
          && bool_decide (c ∈ labels)
      | _, _, _ => false
      end
  | _ => false
  end.

(** The inputs the specification calls valid. *)
Definition valid_input (b : InvokeBody) : Prop :=
  subject b ≠ "" ∧ skill_level_ok (b_skillLevel b) = true
  ∧ (0 < b_questionCount b)%Z.

(** A gateway that answers every call with one chat completion whose
    message content is [text]. *)
Definition completion (text : string) : Json :=
  JObject [("choices",
            JArray [JObject [("message",
                              JObject [("role", JString "assistant");
                                       ("content", JString text)])]])].

Definition answering (st : Z) (text : string) : FetchRequest → FetchOutcome :=
  λ _, HttpResponse st (inr (completion text)).

(** A fenced answer with a single question that has an empty text,
    one option and a correct answer that is no label. *)
Definition malformed_answer : string :=
  fence +:+ "json" +:+ nl
    +:+ "[{" +:+ quoted "question" +:+ ": " +:+ quoted "" +:+ ", "
    +:+ quoted "options" +:+ ": {" +:+ quoted "A" +:+ ": " +:+ quoted "x" +:+ "}, "
    +:+ quoted "correct_answer" +:+ ": " +:+ quoted "Z" +:+ "}]"
    +:+ nl +:+ fence.

Definition malformed_question : Json :=
  JObject [("question", JString "");
           ("options", JObject [("A", JString "x")]);
           ("correct_answer", JString "Z")].

Definition five_questions : InvokeBody :=
  mkInvokeBody "Mathematics" "Intermediate" 5.

End GenerateQuiz.

(** ** The vocabulary of the specification *)

(** The performance summary in the words of the specification, over
  exact integers: [round] is the nearest integer, a tie going up. *)
Module Summary.
Import JsNumber Store Performance.
Local Open Scope Z_scope.

(** [round(n / d)] for [d > 0]. *)
Definition round_ratio (n d : Z) : Z := (2 * n + d) / (2 * d).

Definition sum_scores (attempts : list (AttemptId * AttemptRow)) : Z :=
  foldr (λ a acc, score a.2 + acc) 0 attempts.

Definition sum_totals (attempts : list (AttemptId * AttemptRow)) : Z :=
  foldr (λ a acc, total_questions a.2 + acc) 0 attempts.

Definition max_list (l : list Z) : Z :=
  match l with
  | [] => 0
  | x :: l' => fold_left Z.max l' x
  end.

Record Summary : Type := mkSummary {
  count : nat;
  averagePercentage : Z;
  bestPercentage : Z
}.

Definition summarize (attempts : list (AttemptId * AttemptRow)) : Summary :=
  match attempts with
  | [] => mkSummary 0 0 0
  | _ =>
      mkSummary (length attempts)
                (round_ratio (100 * sum_scores attempts) (sum_totals attempts))
                (max_list (map (λ a, round_ratio (100 * score a.2)
                                                 (total_questions a.2))
                               attempts))
  end.

(** The summary as the page would show it. *)
Definition stats_of (s : Summary) : Stats :=
  mkStats (count s) (of_Z (averagePercentage s)) (of_Z (bestPercentage s)).

(** [r] is an integer nearest to [n / d] (for [d > 0]); at an exact
    tie both neighbours are. *)
Definition nearest (r n d : Z) : Prop := Z.abs (2 * d * r - 2 * n) ≤ d.

(** The integer a number is, when it is one. *)
Definition to_Z (x : number) : option Z :=
  match x with
  | S754_zero _ => Some 0
  | S754_finite s m e =>
      let v := if s then Z.neg m else Z.pos m in
      if 0 <=? e then Some (v * 2 ^ e)
      else if v mod 2 ^ (- e) =? 0 then Some (v / 2 ^ (- e)) else None
  | _ => None
  end.

(** The percentage the page computes for [s] out of [t], as an
    integer. *)
Definition percent_of (s t : Z) : Z :=
  default 0 (to_Z (percentage (of_Z s) (of_Z t))).

(** [n / d] lies half way between two integers (for [d > 0]). *)
Definition tie (n d : Z) : Prop := (2 * n) mod (2 * d) = d.

(** The number of questions up to which the percentages are followed
    through the double arithmetic; a little beyond it they are no
    longer always nearest. *)
Definition limit : Z := 2 ^ 45.

(** The quizzes the statements on the review range over: at most
    [bound] questions. *)
Definition bound : Z := 300.

Definition upto (n : Z) : list Z := map Z.of_nat (seq 0 (Z.to_nat n + 1)).

(** Decision procedures run once over the finite ranges. *)
Definition same_number (x y : number) : bool :=
  match x, y with
  | S754_zero a, S754_zero b => bool_decide (a = b)
  | S754_finite a m e, S754_finite b m' e' =>
      bool_decide (a = b) && (m =? m')%positive && (e =? e')
  | _, _ => false
  end.

Definition percentage_row (t : Z) : bool :=
  forallb (λ s, percent_of s t =? round_ratio (100 * s) t) (upto t).

Definition max_row (a : Z) : bool :=
  negb (is_nan (of_Z a))
  && same_number (Math_max_from neg_infinity [of_Z a]) (of_Z a)
  && forallb (λ b, same_number (Math_max_from (of_Z a) [of_Z b])
                               (of_Z (Z.max a b)))
             (upto 100).

End Summary.

(** ** Scenarios *)

(** Concrete users, stores and pages for the examples. *)
Module Scenario.
Import Store Client.

Definition q1 : Question :=
  mkQuestion (Text "What is 2 + 2?") (Some (mkOptions "3" "4" "5" "6"))
             (Text "B") (Text "2 + 2 = 4.").
Definition q2 : Question :=
  mkQuestion (Text "What is 3 * 3?") (Some (mkOptions "9" "6" "12" "3"))
             (Text "A") (Text "3 * 3 = 9.").

Definition q3 : Question :=
  mkQuestion (Text "What is 10 / 2?") (Some (mkOptions "2" "4" "5" "20"))
             (Text "C") (Text "10 / 2 = 5.").
Definition q4 : Question :=
  mkQuestion (Text "What is 7 - 4?") (Some (mkOptions "1" "2" "4" "3"))
             (Text "D") (Text "7 - 4 = 3.").
Definition q5 : Question :=
  mkQuestion (Text "What is 6 + 1?") (Some (mkOptions "7" "8" "5" "6"))
             (Text "A") (Text "6 + 1 = 7.").

Definition alice : UserId := 1.
Definition bob : UserId := 2.

Definition owner_policies : Policies := mkPolicies true true.

Definition attempt_of (u : UserId) (s t : Z) (at_time : nat) : AttemptRow :=
  mkAttemptRow u "Beginner" ["Science"] t s t at_time.

Definition question_of (a : AttemptId) (at_time : nat) : QuestionRow :=
  mkQuestionRow a "What is 2 + 2?" (mkOptions "3" "4" "5" "6") "B" (Some "B")
                (Some "2 + 2 = 4.") at_time.

Definition empty_db : DB := mkDB owner_policies {[alice; bob]} ∅ [] 0.

(** Alice has four attempts, Bob one; every attempt has a question. *)
Definition history_db : DB :=
  mkDB owner_policies {[alice; bob]}
       (<[0 := attempt_of alice 3 5 0]>
          (<[1 := attempt_of alice 5 5 2]>
             (<[2 := attempt_of bob 1 5 4]>
                (<[3 := attempt_of alice 0 5 6]>
                   (<[4 := attempt_of alice 2 5 8]> ∅)))))
       [question_of 0 1; question_of 1 3; question_of 2 5; question_of 3 7;
        question_of 4 9]
       10.

(** The same rows in the store as the migration declares it: no
    UPDATE and no DELETE policy on [quiz_attempts]. *)
Definition declared_history_db : DB :=
  mkDB migration_policies (profiles history_db) (quiz_attempts history_db)
       (quiz_questions history_db) (clock history_db).

Definition no_generator : InvokeBody → InvokeOutcome :=
  λ _, Rejected (mkErr "Failed to send a request to the Edge Function").

Definition world_of (d : DB) (u : option UserId) (f : list (option Err))
           (g : InvokeBody → InvokeOutcome) : World :=
  mkWorld d u f g [] [] [].

Definition two_questions : InvokeBody → InvokeOutcome :=
  λ _, Resolved (Some (mkInvokeData (Some [q1; q2]))) None.

Definition five_generated : InvokeBody → InvokeOutcome :=
  λ _, Resolved (Some (mkInvokeData (Some [q1; q2; q3; q4; q5]))) None.

Definition no_questions : InvokeBody → InvokeOutcome :=
  λ _, Resolved (Some (mkInvokeData (Some []))) None.

Definition rate_limited : InvokeBody → InvokeOutcome :=
  λ _, Resolved None
         (Some (mkErr "Edge Function returned a non-2xx status code")).

(** The quiz page on its last question, both questions answered, the
    first one correctly. *)
Definition answering_page : Quiz.State :=
  Quiz.mkState [q1; q2] false 1 (<[0 := "B"]> (<[1 := "C"]> ∅)) (Some 0).

(** A store with the attempt of that page. *)
Definition session_db : DB :=
  mkDB owner_policies {[alice]} (<[0 := attempt_of alice 0 2 0]> ∅) [] 1.

(** A question that came without [correct_answer], the page that
    holds it with no answer recorded, and a store with the attempt of
    that page. *)
Definition unkeyed_question : Question :=
  mkQuestion (Text "What is 2 + 2?") (Some (mkOptions "3" "4" "5" "6"))
             Undefined (Text "2 + 2 = 4.").

Definition unanswered_page : Quiz.State :=
  Quiz.mkState [unkeyed_question] false 0 ∅ (Some 0).

Definition single_db : DB :=
  mkDB owner_policies {[alice]} (<[0 := attempt_of alice 0 1 0]> ∅) [] 1.

(** The two attempts of the specification's example, and two attempts
    of twenty questions with 12 and 11 right answers. *)
Definition example_attempts : list (AttemptId * AttemptRow) :=
  [(0, attempt_of alice 8 10 0); (1, attempt_of alice 5 10 1)].

Definition twenty_attempts : list (AttemptId * AttemptRow) :=
  [(0, attempt_of alice 12 20 0); (1, attempt_of alice 11 20 1)].

(** Three attempts of five questions with 3, 5 and 2 right answers. *)
Definition three_attempts : list (AttemptId * AttemptRow) :=
  [(0, attempt_of alice 3 5 0); (1, attempt_of alice 5 5 1);
   (2, attempt_of alice 2 5 2)].

(** A history with an attempt that has no question. *)
Definition empty_attempt_history : list (AttemptId * AttemptRow) :=
  [(0, attempt_of alice 5 10 0); (1, attempt_of alice 0 0 1)].
End Scenario.

(** ** The dashboard *)

Module Dashboard.
Import Store Client.
Local Open Scope eff_scope.

Definition subjects : list string :=
  ["Mathematics"; "Science"; "Computer Networks"; "Operating Systems";
   "Data Structures"; "DBMS"; "Java"].

Definition skillLevels : list string := ["Beginner"; "Intermediate"; "Advanced"].

Definition questionCounts : list Z := [5; 10; 20; 30]%Z.

(** The state hooks of the page. *)
Record State : Type := mkState {
  selectedSkill : string;
  selectedSubjects : list string;
  selectedCount : Z
}.

Definition initial : State := mkState "" [] 0.

Definition setSelectedSkill (level : string) : Eff State unit :=
  modify_page (λ p, mkState level (selectedSubjects p) (selectedCount p)).
Definition setSelectedCount (count : Z) : Eff State unit :=
  modify_page (λ p, mkState (selectedSkill p) (selectedSubjects p) count).

(** [prev.includes(subject) ? prev.filter(s => s !== subject)
     : [...prev, subject]]. *)
Definition toggle (subject : string) (prev : list string) : list string :=
  if bool_decide (subject ∈ prev)
  then filter (λ s, s ≠ subject) prev
  else prev ++ [subject].

Definition handleSubjectToggle (subject : string) : Eff State unit :=
  modify_page (λ p, mkState (selectedSkill p) (toggle subject (selectedSubjects p))
                            (selectedCount p)).

(** The state handed to the quiz page by [navigate("/quiz", { state })]. *)
Record QuizSelection : Type := mkQuizSelection {
  skillLevel : string;
  qs_subjects : list string;
  questionCount : Z
}.

(** [handleStartQuiz]: an error toast for the first selection that is
    missing, or the navigation to the quiz page, which is the value
    returned ([None] when the page stays). *)
Definition handleStartQuiz : Eff State (option QuizSelection) :=
  let* p := get_page in
  if bool_decide (selectedSkill p = "")
  then toast_error "Please select a skill level" ;; ret None
  else if length (selectedSubjects p) =? 0
  then toast_error "Please select at least one subject" ;; ret None
  else if bool_decide (selectedCount p = 0%Z)
  then toast_error "Please select number of questions" ;; ret None
  else ret (Some (mkQuizSelection (selectedSkill p) (selectedSubjects p)
                                  (selectedCount p))).

(** The buttons of the page: one per skill level, subject and count of
    the three lists. *)
Inductive Event : Type :=
| SelectSkill (level : string)
| ToggleSubject (subject : string)
| SelectCount (count : Z).

Definition offered (e : Event) : Prop :=
  match e with
  | SelectSkill level => level ∈ skillLevels
  | ToggleSubject subject => subject ∈ subjects
  | SelectCount count => count ∈ questionCounts
  end.

Definition handle (e : Event) : Eff State unit :=
  match e with
  | SelectSkill level => setSelectedSkill level
  | ToggleSubject subject => handleSubjectToggle subject
  | SelectCount count => setSelectedCount count
  end.

Definition run (es : list Event) (s : World * State) : World * State :=
  fold_left (λ s e, (handle e s).2) es s.

End Dashboard.

(** ** What the quiz page shows *)

Module QuizView.
Import Store Client Quiz.

(** The page shows a spinner while loading, nothing without questions,
    and otherwise the current question with the Previous button
    (disabled on the first question), and the Submit button on the
    last question or the Next button on any other. [answered] is
    [Object.keys(answers).length]. *)
Inductive View : Type :=
| Spinner
| Blank
| QuestionView (number : nat) (answered : nat) (previous_disabled : bool)
               (submit_shown : bool).

Definition view (p : State) : View :=
  if loading p then Spinner
  else if length (questions p) =? 0 then Blank
  else QuestionView (currentQuestion p + 1) (size (answers p))
                    (currentQuestion p =? 0)
                    (Z.of_nat (currentQuestion p)
                     =? Z.of_nat (length (questions p)) - 1)%Z.

#[global] Instance event_eq_dec : EqDecision Event.
Proof. solve_decision. Defined.

(** The option keys of a question: [Object.entries(options)]. *)
Definition option_keys : list string := ["A"; "B"; "C"; "D"].

(** The events the page offers in state [p]: an answer for one of the
    option keys, and the buttons that are shown and enabled. *)
Definition offered (p : State) (e : Event) : Prop :=
  match view p with
  | QuestionView _ _ previous_disabled submit_shown =>
      match e with
      | Answer value => value ∈ option_keys
      | Next => submit_shown = false
      | Previous => previous_disabled = false
      | Submit => submit_shown = true
      end
  | _ => False
  end.

(** The cursor is on a question and every recorded answer is an option
    key recorded for a question. *)
Definition in_progress (p : State) : Prop :=
  currentQuestion p < length (questions p)
  ∧ map_Forall (λ i v, i < length (questions p) ∧ v ∈ option_keys) (answers p).

(** A sequence of events, each offered in the state it meets. *)
Fixpoint offered_run (es : list Event) (s : World * State) : Prop :=
  match es with
  | [] => True
  | e :: es' => offered s.2 e ∧ offered_run es' (handle e s).2
  end.

End QuizView.

(** ** What the results and performance pages show *)

Module Review.
Import JsNumber Store Client.

(** [x >= y] on numbers; false when either is NaN. *)
Definition ge (x y : number) : bool :=
  match SFcompare x y with
  | Some Gt | Some Eq => true
  | _ => false
  end.

(** [Math.round((score / total) * 100)] of the results page. *)
Definition percentage (score total : number) : number :=
  Math_round (mul (div score total) (of_Z 100)).

Definition getPerformanceColor (percentage : number) : string :=
  if ge percentage (of_Z 80) then "text-green-600"
  else if ge percentage (of_Z 60) then "text-blue-600"
  else if ge percentage (of_Z 40) then "text-yellow-600"
  else "text-red-600".

Definition getPerformanceMessage (percentage : number) : string :=
  if ge percentage (of_Z 80) then "Excellent work!"
  else if ge percentage (of_Z 60) then "Good job!"
  else if ge percentage (of_Z 40) then "Keep practicing!"
  else "Don't give up!".

(** The colour of an attempt in the history of the performance page. *)
Definition performanceColor (percentage : number) : string :=
  if ge percentage (of_Z 80) then "bg-green-500"
  else if ge percentage (of_Z 60) then "bg-blue-500"
  else if ge percentage (of_Z 40) then "bg-yellow-500"
  else "bg-red-500".

(** The comparisons with the three thresholds, on the integer [r],
    checked once for the percentages from 0 to 100. *)
Definition band_ok (r : Z) : bool :=
  bool_decide (ge (of_Z r) (of_Z 80) = (80 <=? r)%Z)
  && bool_decide (ge (of_Z r) (of_Z 60) = (60 <=? r)%Z)
  && bool_decide (ge (of_Z r) (of_Z 40) = (40 <=? r)%Z).

(** [q.user_answer === q.correct_answer] of the answer review. *)
Definition isCorrect (q : QuestionRow) : bool :=
  bool_decide (user_answer q = Some (q_correct_answer q)).

End Review.

(** ** The store as a whole *)

Module Schema.
Import Store.

(** The requests the pages send. *)
Inductive Operation : Type :=
| InsertAttempt (n : NewAttempt)
| InsertQuestion (n : NewQuestion)
| UpdateScore (attemptId : option AttemptId) (s : Z)
| DeleteAttempts (u : UserId)
| SelectAttempts
| SelectQuestions (attemptId : option AttemptId).

(** The store after the request [op] of the caller [uid]. *)
Definition execute (op : Operation) (uid : option UserId) (d : DB) : DB :=
  match op with
  | InsertAttempt n => (insert_attempt n uid d).2
  | InsertQuestion n => (insert_question n uid d).2
  | UpdateScore a s => (update_score a s uid d).2
  | DeleteAttempts u => (delete_attempts u uid d).2
  | SelectAttempts => (select_attempts uid d).2
  | SelectQuestions a => (select_questions a uid d).2
  end.

(** What the table definitions ask of every row: the foreign keys
    (the user of an attempt has a profile, the attempt of a question
    exists), the check on [skill_level] and the range of the INTEGER
    columns. *)
Definition constraints_hold (d : DB) : Prop :=
  map_Forall (λ _ r, user_id r ∈ profiles d
                     ∧ skill_level_ok (skill_level r) = true
                     ∧ int4_ok (question_count r) = true
                     ∧ int4_ok (score r) = true
                     ∧ int4_ok (total_questions r) = true)
             (quiz_attempts d)
  ∧ Forall (λ q, is_Some (quiz_attempts d !! attempt_id q)) (quiz_questions d).

(** The question rows of an attempt, in the order of the table. *)
Definition questions_of (a : AttemptId) (d : DB) : list QuestionRow :=
  filter (λ q, attempt_id q = a) (quiz_questions d).

End Schema.

(** ** The rows of a submitted quiz *)

Module Submission.
Import Store Client Quiz.

(** The row [handleSubmit] sends for the question [q] at position [i]
    of attempt [a], as a store whose clock shows [t] keeps it; no row
    is kept when the question lacks a text, options or a correct
    answer. *)
Definition row_of (a : AttemptId) (answers : gmap nat string) (t i : nat)
           (q : Question) : option QuestionRow :=
  match column_text (question q), options q, column_text (correct_answer q) with
  | Some text, Some opts, Some correct =>
      Some (mkQuestionRow a text opts correct (or_null (answers !! i))
                          (column_text (explanation q)) t)
  | _, _, _ => None
  end.

(** The rows of the questions from position [i] on; the clock advances
    with every row that is kept. *)
Fixpoint rows_from (a : AttemptId) (answers : gmap nat string) (t i : nat)
         (qs : list Question) : list QuestionRow :=
  match qs with
  | [] => []
  | q :: qs' =>
      match row_of a answers t i q with
      | Some row => row :: rows_from a answers (S t) (S i) qs'
      | None => rows_from a answers t (S i) qs'
      end
  end.

Definition rows_of (a : AttemptId) (answers : gmap nat string) (t : nat)
           (qs : list Question) : list QuestionRow :=
  rows_from a answers t 0 qs.

(** A question as the interface declares it, as far as the store and
    the review look: a text, options, and a correct answer that is a
    non-empty text. *)
Definition well_formed (q : Question) : Prop :=
  is_Some (column_text (question q)) ∧ is_Some (options q)
  ∧ ∃ c, correct_answer q = Text c ∧ c ≠ "".

(** A list in which every element is before all later ones. *)
Fixpoint sorted_by {X : Type} (le : X → X → bool) (l : list X) : Prop :=
  match l with
  | [] => True
  | x :: l' => Forall (λ y, le x y = true) l' ∧ sorted_by le l'
  end.

End Submission.

(** ** Texts without code fences *)

Module Fences.
Import GenerateQuiz.

Definition backtick : ascii := "096"%char.

(** No character of the text is a backtick. *)
Fixpoint plain (s : string) : Prop :=
  match s with
  | EmptyString => True
  | String c r => c ≠ backtick ∧ plain r
  end.

End Fences.

(** * Properties *)

(** ** Rounding to binary64 *)

Section RoundingProofs.
Import JsNumber Summary Rounding.
Local Open Scope Z_scope.

Lemma digits_bounds p : 2 ^ (digits p - 1) ≤ Z.pos p < 2 ^ digits p.
Proof.
  unfold digits. induction p as [p IH|p IH|]; cbn [digits2_pos].
  - rewrite Pos2Z.inj_succ, Z.pow_succ_r by lia.
    replace (Z.succ (Z.pos (digits2_pos p)) - 1)
      with (Z.succ (Z.pos (digits2_pos p) - 1)) by lia.
    rewrite Z.pow_succ_r by lia. lia.
  - rewrite Pos2Z.inj_succ, Z.pow_succ_r by lia.
    replace (Z.succ (Z.pos (digits2_pos p)) - 1)
      with (Z.succ (Z.pos (digits2_pos p) - 1)) by lia.
    rewrite Z.pow_succ_r by lia. lia.
  - simpl. lia.
Qed.

Lemma digits_unique p d : 2 ^ (d - 1) ≤ Z.pos p < 2 ^ d → digits p = d.
Proof.
  intros [Hlo Hhi]. pose proof (digits_bounds p) as [Hlo' Hhi'].
  assert (0 < digits p) by (unfold digits; lia).
  assert (0 < d).
  { destruct (Z_lt_le_dec 0 d); [done|].
    assert (2 ^ d ≤ 1); [|lia].
    destruct (Z.eq_dec d 0) as [->|]; [done|]. rewrite Z.pow_neg_r; lia. }
  destruct (Z.lt_trichotomy (digits p) d) as [Hlt|[Heq|Hgt]]; [|done|].
  - assert (2 ^ digits p ≤ 2 ^ (d - 1)) by (apply Z.pow_le_mono_r; lia). lia.
  - assert (2 ^ d ≤ 2 ^ (digits p - 1)) by (apply Z.pow_le_mono_r; lia). lia.
Qed.

Lemma iter_pos_nat {X} (f : X → X) p x :
  SpecFloat.iter_pos f p x = Nat.iter (Pos.to_nat p) f x.
Proof.
  revert x. induction p as [p IH|p IH|]; intros x; cbn [SpecFloat.iter_pos].
  - rewrite !IH, Pos2Nat.inj_xI, Nat.iter_succ_r.
    replace (2 * Pos.to_nat p)%nat with (Pos.to_nat p + Pos.to_nat p)%nat by lia.
    by rewrite Nat.iter_add.
  - rewrite !IH, Pos2Nat.inj_xO.
    replace (2 * Pos.to_nat p)%nat with (Pos.to_nat p + Pos.to_nat p)%nat by lia.
    by rewrite Nat.iter_add.
  - done.
Qed.

Lemma shr_1_located num den mrs :
  0 ≤ shr_m mrs → 0 < den → located num den mrs →
  located num (2 * den) (shr_1 mrs)
  ∧ shr_m (shr_1 mrs) = shr_m mrs / 2.
Proof.
  destruct mrs as [m r s]. unfold located. cbn [shr_m shr_r shr_s].
  intros Hm Hden Hloc.
  destruct m as [|[p|p|]|]; [| | | |lia];
    destruct r, s; cbn [shr_1 shr_m shr_r shr_s orb] in *;
    try (rewrite (Pos2Z.inj_xI p) in * );
    try (rewrite (Pos2Z.inj_xO p) in * );
    (split; [lia|]).
  all: first [ done
             | apply Z.div_unique with 1; lia
             | apply Z.div_unique with 0; lia ].
Qed.


Lemma shr_iter_located num den mrs n :
  0 ≤ shr_m mrs → 0 < den → located num den mrs →
  located num (2 ^ Z.of_nat n * den) (Nat.iter n shr_1 mrs)
  ∧ shr_m (Nat.iter n shr_1 mrs) = shr_m mrs / 2 ^ Z.of_nat n.
Proof.
  intros Hm Hden Hloc. induction n as [|n [IHl IHm]].
  - change (Nat.iter 0 shr_1 mrs) with mrs. change (2 ^ Z.of_nat 0) with 1.
    rewrite Z.mul_1_l, Z.div_1_r. done.
  - rewrite Nat.iter_succ, Nat2Z.inj_succ, Z.pow_succ_r by lia.
    assert (0 < 2 ^ Z.of_nat n) by (apply Z.pow_pos_nonneg; lia).
    destruct (shr_1_located num (2 ^ Z.of_nat n * den) (Nat.iter n shr_1 mrs))
      as [Hl' Hm']; [|nia|done|].
    { rewrite IHm. apply Z.div_pos; lia. }
    split.
    + by rewrite <- Z.mul_assoc.
    + rewrite Hm', IHm, Z.div_div by lia. f_equal. lia.
Qed.

Lemma shr_spec mrs e n :
  0 ≤ n → shr mrs e n = (Nat.iter (Z.to_nat n) shr_1 mrs, e + n).
Proof.
  intros Hn. destruct n as [|p|p]; [|simpl|lia].
  - simpl. by rewrite Z.add_0_r.
  - by rewrite iter_pos_nat.
Qed.

Lemma round_nearest_even_located num den mrs :
  0 < den → located num den mrs →
  shr_m mrs ≤ round_nearest_even (shr_m mrs) (loc_of_shr_record mrs)
          ≤ shr_m mrs + 1
  ∧ Z.abs (2 * round_nearest_even (shr_m mrs) (loc_of_shr_record mrs) * den
           - 2 * num) ≤ den.
Proof.
  destruct mrs as [m r s]. unfold located. cbn [shr_m shr_r shr_s].
  intros Hden Hloc.
  destruct r, s; cbn [loc_of_shr_record round_nearest_even];
    try destruct (Z.even m); split; nia.
Qed.

Lemma fexp_normal e : -1021 ≤ e → fexp prec emax e = e - 53.
Proof. unfold fexp, SpecFloat.emin, prec, emax. lia. Qed.

Lemma Zdigits2_pos p : Zdigits2 (Z.pos p) = digits p.
Proof. reflexivity. Qed.

(** Rounding a located value whose integer part has [53 + n] digits:
    the result is finite, its mantissa has 53 digits, and it is within
    half a unit of the last place that is kept. *)
Lemma binary_round_aux_normal sx M E l num den n :
  0 < den →
  located num den (shr_record_of_loc (Z.pos M) l) →
  digits M = 53 + n → 0 ≤ n → -1074 ≤ E + n ≤ 970 →
  ∃ m c,
    binary_round_aux prec emax sx (Z.pos M) E l = S754_finite sx m (E + n + c)
    ∧ digits m = 53 ∧ 0 ≤ c ≤ 1
    ∧ Z.abs (2 * (Z.pos m * 2 ^ c) * (2 ^ n * den) - 2 * num) ≤ 2 ^ n * den.
Proof.
  intros Hden Hloc Hd Hn HE.
  unfold binary_round_aux, shr_fexp.
  rewrite Zdigits2_pos, Hd, fexp_normal by lia.
  replace (53 + n + E - 53 - E) with n by lia.
  rewrite shr_spec by lia.
  assert (shr_m (shr_record_of_loc (Z.pos M) l) = Z.pos M) as HM
    by (by destruct l as [|[]]).
  destruct (shr_iter_located num den (shr_record_of_loc (Z.pos M) l)
              (Z.to_nat n)) as [Hl1 Hm1]; [rewrite HM; lia|done|done|].
  rewrite Z2Nat.id in Hl1, Hm1 by lia. rewrite HM in Hm1.
  set (mrs1 := Nat.iter (Z.to_nat n) shr_1 _) in *.
  assert (0 < 2 ^ n) as Hpn by (apply Z.pow_pos_nonneg; lia).
  destruct (round_nearest_even_located num (2 ^ n * den) mrs1)
    as [Hr1 Hr2]; [nia|done|].
  set (m' := round_nearest_even (shr_m mrs1) (loc_of_shr_record mrs1)) in *.
  assert (2 ^ 52 ≤ shr_m mrs1 < 2 ^ 53) as Hrange.
  { pose proof (digits_bounds M) as HdM. rewrite Hd in HdM.
    replace (53 + n - 1) with (52 + n) in HdM by lia.
    rewrite !Z.pow_add_r in HdM by lia. rewrite Hm1. split.
    - apply Z.div_le_lower_bound; lia.
    - apply Z.div_lt_upper_bound; lia. }
  destruct (Z_lt_le_dec m' (2 ^ 53)) as [Hlt|Hge].
  - destruct m' as [|p'|] eqn:Em'; [lia| |lia].
    assert (digits p' = 53) as Hd' by (apply digits_unique; lia).
    rewrite Zdigits2_pos, Hd', fexp_normal by lia.
    replace (53 + (E + n) - 53 - (E + n)) with 0 by lia.
    cbn [shr shr_record_of_loc shr_m].
    replace (E + n <=? emax - prec) with true
      by (symmetry; apply Z.leb_le; unfold emax, prec; lia).
    exists p', 0. rewrite Z.add_0_r. split; [done|]. split; [done|].
    split; [lia|]. change (2 ^ 0) with 1. by rewrite Z.mul_1_r.
  - assert (m' = 2 ^ 53) as -> by lia.
    change (2 ^ 53) with (Z.pos (2 ^ 53)%positive).
    rewrite Zdigits2_pos.
    change (digits (2 ^ 53)%positive) with 54.
    rewrite fexp_normal by lia.
    replace (54 + (E + n) - 53 - (E + n)) with 1 by lia.
    cbn [shr shr_record_of_loc SpecFloat.iter_pos].
    change (shr_1 _) with (Build_shr_record (2 ^ 52) false false).
    cbn [shr_m]. change (2 ^ 52) with (Z.pos (2 ^ 52)%positive) at 1.
    cbv iota beta.
    replace (E + n + 1 <=? emax - prec) with true
      by (symmetry; apply Z.leb_le; unfold emax, prec; lia).
    exists (2 ^ 52)%positive, 1. split; [done|].
    split; [reflexivity|]. split; [lia|].
    change (Z.pos (2 ^ 52) * 2 ^ 1) with (2 ^ 53). done.
Qed.


Lemma located_exact m : located m 1 (shr_record_of_loc m loc_Exact).
Proof. unfold located. simpl. lia. Qed.

(** Rounding an integer that fits into 53 digits changes nothing. *)
Lemma binary_round_aux_exact sx K n E M :
  digits K = 53 → 0 ≤ n → -1074 ≤ E + n ≤ 970 →
  Z.pos M = Z.pos K * 2 ^ n →
  binary_round_aux prec emax sx (Z.pos M) E loc_Exact
  = S754_finite sx K (E + n).
Proof.
  intros HK Hn HE HM.
  assert (0 < 2 ^ n) as Hpn by (apply Z.pow_pos_nonneg; lia).
  pose proof (digits_bounds K) as HbK. rewrite HK in HbK.
  change (53 - 1) with 52 in HbK.
  assert (digits M = 53 + n) as HdM.
  { apply digits_unique. replace (53 + n - 1) with (52 + n) by lia.
    rewrite !Z.pow_add_r by lia. nia. }
  destruct (binary_round_aux_normal sx M E loc_Exact (Z.pos M) 1 n)
    as (m & c & -> & Hdm & Hc & Hnear);
    [lia|apply located_exact|done|done|done|].
  pose proof (digits_bounds m) as Hbm. rewrite Hdm in Hbm.
  change (53 - 1) with 52 in Hbm.
  rewrite HM, Z.mul_1_r in Hnear.
  assert (c = 0 ∨ c = 1) as [-> | ->] by lia.
  - change (2 ^ 0) with 1 in Hnear. rewrite Z.mul_1_r in Hnear.
    assert (Z.pos m = Z.pos K) by nia.
    rewrite Z.add_0_r. congruence.
  - change (2 ^ 1) with 2 in Hnear. nia.
Qed.

Lemma Pos_iter_xO p k : Z.pos (Pos.iter xO p k) = Z.pos p * 2 ^ Z.pos k.
Proof.
  induction k as [|k IH] using Pos.peano_ind.
  - simpl. lia.
  - rewrite Pos.iter_succ, Pos2Z.inj_xO, IH, Pos2Z.inj_succ,
      Z.pow_succ_r by lia. lia.
Qed.

Lemma shl_align_spec m e e' :
  e' ≤ e →
  ∃ m', shl_align m e e' = (m', e') ∧ Z.pos m' = Z.pos m * 2 ^ (e - e').
Proof.
  intros He. unfold shl_align.
  destruct (e' - e) as [|k|k] eqn:Ek; [|lia|].
  - assert (e' = e) as -> by lia. exists m. rewrite Z.sub_diag. split; [done|].
    simpl. lia.
  - exists (Pos.iter xO m k). split; [done|].
    rewrite Pos_iter_xO. do 2 f_equal. lia.
Qed.

Lemma shl_align_id m e e' : e ≤ e' → shl_align m e e' = (m, e).
Proof.
  intros He. unfold shl_align. destruct (e' - e) eqn:Ek; [done|done|lia].
Qed.

Lemma digits_shift p q k :
  0 ≤ k → Z.pos q = Z.pos p * 2 ^ k → digits q = digits p + k.
Proof.
  intros Hk Hq. apply digits_unique. pose proof (digits_bounds p) as Hb.
  assert (0 < digits p) by (unfold digits; lia).
  assert (0 < 2 ^ k) by (apply Z.pow_pos_nonneg; lia).
  replace (digits p + k - 1) with (digits p - 1 + k) by lia.
  rewrite !Z.pow_add_r by lia. nia.
Qed.

Lemma digits_mono p q : Z.pos p ≤ Z.pos q → digits p ≤ digits q.
Proof.
  intros Hpq. pose proof (digits_bounds p) as Hp.
  pose proof (digits_bounds q) as Hq.
  destruct (Z_le_gt_dec (digits p) (digits q)) as [|Hgt]; [done|].
  assert (2 ^ digits q ≤ 2 ^ (digits p - 1)) by (apply Z.pow_le_mono_r; lia).
  lia.
Qed.

Lemma digits_pos p : 1 ≤ digits p.
Proof. unfold digits. lia. Qed.

(** The number an integer below [2^53] becomes: its digits, shifted
    to the left into a mantissa of 53 digits. *)
Lemma of_Z_intro n m e :
  digits m = 53 → e ≤ 0 → Z.pos m = n * 2 ^ (- e) →
  of_Z n = S754_finite false m e.
Proof.
  intros Hm He Hn.
  assert (0 < 2 ^ (- e)) as Hpe by (apply Z.pow_pos_nonneg; lia).
  destruct n as [|p|p]; [lia| |lia].
  pose proof (digits_shift p m (- e) ltac:(lia) Hn) as Hd.
  pose proof (digits_pos p).
  unfold of_Z, binary_normalize, binary_round.
  change (Z.pos (digits2_pos p)) with (digits p).
  rewrite Z.add_0_r, fexp_normal by lia.
  destruct (shl_align_spec p 0 (digits p - 53)) as (m1 & -> & Hm1); [lia|].
  assert (m1 = m) as ->.
  { apply Pos2Z.inj. rewrite Hm1, Hn. do 2 f_equal. lia. }
  rewrite (binary_round_aux_exact false m 0 (digits p - 53) m);
    [f_equal; lia|done|lia|lia|simpl; lia].
Qed.

Lemma of_Z_elim n :
  1 ≤ n < 2 ^ 53 →
  ∃ m e, of_Z n = S754_finite false m e
         ∧ digits m = 53 ∧ -52 ≤ e ≤ 0 ∧ Z.pos m = n * 2 ^ (- e).
Proof.
  intros Hn. destruct n as [|p|p]; [lia| |lia].
  pose proof (digits_bounds p) as Hb. pose proof (digits_pos p).
  assert (digits p ≤ 53).
  { destruct (Z_le_gt_dec (digits p) 53); [done|].
    assert (2 ^ 53 ≤ 2 ^ (digits p - 1)) by (apply Z.pow_le_mono_r; lia).
    lia. }
  assert (0 < 2 ^ (53 - digits p)) as Hpe by (apply Z.pow_pos_nonneg; lia).
  destruct (Z.pos p * 2 ^ (53 - digits p)) as [|m|m] eqn:Em; [lia| |lia].
  exists m, (digits p - 53).
  assert (Z.pos m = Z.pos p * 2 ^ (- (digits p - 53))) as Hm
    by (rewrite <- Em; do 2 f_equal; lia).
  assert (digits m = 53) as Hdm.
  { rewrite (digits_shift p m (- (digits p - 53))); [lia|lia|done]. }
  split; [apply of_Z_intro; [done|lia|done]|]. split; [done|].
  split; [lia|done].
Qed.

(** Sums that stay below [2^53] are exact. *)
Lemma add_integers a b :
  0 ≤ a → 0 ≤ b → a + b < 2 ^ 53 → add (of_Z a) (of_Z b) = of_Z (a + b).
Proof.
  intros Ha Hb Hab.
  destruct (Z.eq_dec a 0) as [->|Ha0].
  { rewrite Z.add_0_l. destruct (Z.eq_dec b 0) as [->|Hb0]; [done|].
    destruct (of_Z_elim b) as (m & e & -> & _); [lia|done]. }
  destruct (Z.eq_dec b 0) as [->|Hb0].
  { rewrite Z.add_0_r. destruct (of_Z_elim a) as (m & e & -> & _); [lia|done]. }
  destruct (of_Z_elim a) as (ma & ea & -> & Hda & Hea & Hma); [lia|].
  destruct (of_Z_elim b) as (mb & eb & -> & Hdb & Heb & Hmb); [lia|].
  destruct (of_Z_elim (a + b)) as (mc & ec & -> & Hdc & Hec & Hmc); [lia|].
  unfold add, SFadd. cbv zeta.
  set (ez := Z.min ea eb).
  destruct (shl_align_spec ma ea ez) as (ma' & -> & Hma'); [lia|].
  destruct (shl_align_spec mb eb ez) as (mb' & -> & Hmb'); [lia|].
  cbn [fst cond_Zopp].
  assert (0 < 2 ^ (- ea) ∧ 0 < 2 ^ (- eb) ∧ 0 < 2 ^ (- ec) ∧ 0 < 2 ^ (- ez))
    as (Hpa & Hpb & Hpc & Hpz) by (repeat split; apply Z.pow_pos_nonneg; lia).
  assert (Z.pos ma' = a * 2 ^ (- ez)) as Ha'.
  { rewrite Hma', Hma, <- Z.mul_assoc, <- Z.pow_add_r by lia.
    do 2 f_equal. lia. }
  assert (Z.pos mb' = b * 2 ^ (- ez)) as Hb'.
  { rewrite Hmb', Hmb, <- Z.mul_assoc, <- Z.pow_add_r by lia.
    do 2 f_equal. lia. }
  change (Z.pos ma' + Z.pos mb') with (Z.pos (ma' + mb')).
  assert (Z.pos (ma' + mb') = (a + b) * 2 ^ (- ez)) as Hsum
    by (rewrite Pos2Z.inj_add, Ha', Hb'; lia).
  assert (ez ≤ ec) as Hzc.
  { destruct a as [|pa|]; [lia| |lia]. destruct b as [|pb|]; [lia| |lia].
    change (Z.pos pa + Z.pos pb) with (Z.pos (pa + pb)) in *.
    pose proof (digits_shift pa ma (- ea) ltac:(lia) Hma).
    pose proof (digits_shift pb mb (- eb) ltac:(lia) Hmb).
    pose proof (digits_shift (pa + pb) mc (- ec) ltac:(lia) Hmc).
    pose proof (digits_mono pa (pa + pb) ltac:(lia)).
    pose proof (digits_mono pb (pa + pb) ltac:(lia)). lia. }
  assert (Z.pos (ma' + mb') = Z.pos mc * 2 ^ (ec - ez)) as Hsum'.
  { rewrite Hsum, Hmc, <- Z.mul_assoc, <- Z.pow_add_r by lia.
    do 2 f_equal. lia. }
  unfold binary_normalize, binary_round.
  pose proof (digits_shift mc (ma' + mb') (ec - ez) ltac:(lia) Hsum') as Hds.
  change (Z.pos (digits2_pos (ma' + mb'))) with (digits (ma' + mb')).
  rewrite Hds, Hdc, fexp_normal by lia.
  rewrite shl_align_id by lia.
  rewrite (binary_round_aux_exact false mc (ec - ez) ez (ma' + mb'));
    [f_equal; lia|done|lia|lia|done].
Qed.


Lemma new_location_located nb q k :
  0 < nb → 0 ≤ k < nb →
  located (q * nb + k) nb (shr_record_of_loc q (new_location nb k)).
Proof.
  intros Hnb Hk. unfold new_location, new_location_even, new_location_odd.
  destruct (Z.even nb) eqn:Ev.
  - destruct (Z.eqb_spec k 0) as [->|Hk0].
    + unfold located. simpl. lia.
    + destruct (Z.compare_spec (2 * k) nb);
        unfold located; simpl; nia.
  - assert (Z.odd nb = true) as Hodd by (by rewrite <- Z.negb_even, Ev).
    apply Z.odd_spec in Hodd as [j Hj].
    destruct (Z.eqb_spec k 0) as [->|Hk0].
    + unfold located. simpl. lia.
    + destruct (Z.compare_spec (2 * k + 1) nb);
        unfold located; simpl; nia.
Qed.

Lemma pow2_pos k : 0 ≤ k → 0 < 2 ^ k.
Proof. intros. apply Z.pow_pos_nonneg; lia. Qed.

Lemma pow2_le a b : 0 ≤ a → 2 ^ a ≤ 2 ^ b → a ≤ b.
Proof.
  intros Ha Hab. destruct (Z_le_gt_dec a b) as [|Hgt]; [done|].
  destruct (Z_le_gt_dec 0 b).
  - assert (2 ^ b < 2 ^ a) by (apply Z.pow_lt_mono_r; lia). lia.
  - rewrite (Z.pow_neg_r 2 b) in Hab by lia.
    pose proof (pow2_pos a Ha). lia.
Qed.

Lemma pow2_lt a b : 0 ≤ a → 2 ^ a < 2 ^ b → a < b.
Proof.
  intros Ha Hab. destruct (Z_lt_le_dec a b) as [|Hge]; [done|].
  destruct (Z_le_gt_dec 0 b).
  - assert (2 ^ b ≤ 2 ^ a) by (apply Z.pow_le_mono_r; lia). lia.
  - rewrite (Z.pow_neg_r 2 b) in Hab by lia.
    pose proof (pow2_pos a Ha). lia.
Qed.

(** The quotient of two integers below [2^53], the first at most the
    second: a mantissa of 53 digits within half a unit of [s / t]. *)
Lemma div_integers s t :
  1 ≤ s ≤ t → t < 2 ^ 53 →
  ∃ my ey,
    div (of_Z s) (of_Z t) = S754_finite false my ey
    ∧ digits my = 53 ∧ -106 ≤ ey ≤ -52
    ∧ Z.abs (2 * Z.pos my * t - 2 * 2 ^ (- ey) * s) ≤ t.
Proof.
  intros Hs Ht.
  destruct (of_Z_elim s) as (ms & es & -> & Hds & Hes & Hms); [lia|].
  destruct (of_Z_elim t) as (mt & et & -> & Hdt & Het & Hmt); [lia|].
  pose proof (digits_bounds ms) as Hbs. rewrite Hds in Hbs.
  pose proof (digits_bounds mt) as Hbt. rewrite Hdt in Hbt.
  change (53 - 1) with 52 in *.
  unfold div, SFdiv, SFdiv_core_binary. cbv zeta.
  rewrite !Zdigits2_pos, Hds, Hdt, fexp_normal by lia.
  replace (Z.min (53 + es - (53 + et) - 53) (es - et))
    with (es - et - 53) by lia.
  replace (es - et - (es - et - 53)) with 53 by lia.
  rewrite Z.shiftl_mul_pow2 by lia.
  pose proof (Z_div_mod (Z.pos ms * 2 ^ 53) (Z.pos mt) ltac:(lia)) as Hdiv.
  destruct (Z.div_eucl (Z.pos ms * 2 ^ 53) (Z.pos mt)) as [q r].
  destruct Hdiv as [Hq Hr]. cbn [xorb].
  assert (2 ^ 52 ≤ q < 2 ^ 54) as Hqr by nia.
  destruct q as [|Q|]; [lia| |lia].
  assert (∃ n, 0 ≤ n ≤ 1 ∧ digits Q = 53 + n) as (n & Hn & HdQ).
  { destruct (Z_lt_le_dec (Z.pos Q) (2 ^ 53)).
    - exists 0. split; [lia|]. apply digits_unique. simpl. lia.
    - exists 1. split; [lia|]. apply digits_unique. simpl. lia. }
  destruct (binary_round_aux_normal false Q (es - et - 53)
              (new_location (Z.pos mt) r) (Z.pos ms * 2 ^ 53) (Z.pos mt) n)
    as (m & c & -> & Hdm & Hc & Hnear); [lia| |done|lia|lia|].
  { rewrite Hq, (Z.mul_comm (Z.pos mt)).
    apply new_location_located; lia. }
  pose proof (digits_bounds m) as Hbm. rewrite Hdm in Hbm.
  change (53 - 1) with 52 in Hbm.
  set (ey := es - et - 53 + n + c).
  set (G := 2 ^ (n + c - et)).
  set (A := 2 ^ (53 - es)).
  assert (0 < G) as HG by (apply pow2_pos; lia).
  assert (0 < A) as HA by (apply pow2_pos; lia).
  assert (0 < 2 ^ n ∧ 0 < 2 ^ c) as [Hpn Hpc]
    by (split; apply pow2_pos; lia).
  assert (2 ^ n ≤ 2 ^ (n + c)) as Hnc by (apply Z.pow_le_mono_r; lia).
  (* the bound of the rounding, in terms of [s] and [t] *)
  assert (Z.abs (2 * Z.pos m * t * G - 2 * s * A) ≤ t * G) as Hst.
  { assert (2 * (Z.pos m * 2 ^ c) * (2 ^ n * Z.pos mt)
            = 2 * Z.pos m * t * G) as E1.
    { rewrite Hmt. unfold G.
      replace (n + c - et) with (c + n + - et) by lia.
      rewrite !Z.pow_add_r by lia. ring. }
    assert (2 * (Z.pos ms * 2 ^ 53) = 2 * s * A) as E2.
    { rewrite Hms. unfold A.
      replace (53 - es) with (- es + 53) by lia.
      rewrite Z.pow_add_r by lia. ring. }
    assert (2 ^ n * Z.pos mt ≤ t * G) as E3.
    { rewrite Hmt. unfold G.
      replace (n + c - et) with (n + c + - et) by lia.
      rewrite (Z.pow_add_r 2 (n + c)) by lia.
      assert (0 < 2 ^ (- et)) by (apply pow2_pos; lia).
      replace (t * (2 ^ (n + c) * 2 ^ (- et)))
        with (2 ^ (n + c) * (t * 2 ^ (- et))) by ring.
      apply Z.mul_le_mono_nonneg_r; [|done].
      apply Z.mul_nonneg_nonneg; lia. }
    rewrite E1, E2 in Hnear. lia. }
  (* the exponent is at most -52 *)
  assert (ey ≤ -52) as Hey.
  { assert (2 ^ (n + c - et + 51) < 2 ^ (53 - es)) as Hlt.
    { rewrite Z.pow_add_r by lia. fold G A.
      assert (s * A ≤ t * A) by (apply Z.mul_le_mono_nonneg_r; lia).
      assert (t * ((2 * Z.pos m - 1) * G) ≤ t * (2 * A)) as H1 by lia.
      apply Z.mul_le_mono_pos_l in H1; [|lia].
      assert ((2 ^ 53 - 1) * G ≤ (2 * Z.pos m - 1) * G)
        by (apply Z.mul_le_mono_nonneg_r; lia).
      change (2 ^ 51) with 2251799813685248.
      change (2 ^ 53) with 9007199254740992 in *. lia. }
    apply pow2_lt in Hlt; [|lia]. unfold ey. lia. }
  exists m, ey. split; [done|]. split; [done|]. split; [unfold ey; lia|].
  assert (A = 2 ^ (- ey) * G) as HAG.
  { unfold A, G, ey. rewrite <- Z.pow_add_r by lia. f_equal. lia. }
  rewrite HAG in Hst.
  assert (0 < 2 ^ (- ey)) by (apply pow2_pos; lia).
  replace (2 * Z.pos m * t * G - 2 * s * (2 ^ (- ey) * G))
    with ((2 * Z.pos m * t - 2 * 2 ^ (- ey) * s) * G) in Hst by ring.
  rewrite Z.abs_mul, (Z.abs_eq G) in Hst by lia.
  apply Z.mul_le_mono_pos_r in Hst; done.
Qed.


Lemma of_Z_100 : of_Z 100 = S754_finite false 7036874417766400 (-46).
Proof. reflexivity. Qed.

(** A number of at most one, times 100: again within half a unit of
    the last place, which is at most [2^-46]. *)
Lemma mul_hundred my ey :
  digits my = 53 → -106 ≤ ey ≤ -52 → Z.pos my ≤ 2 ^ (- ey) →
  ∃ mz ez,
    mul (S754_finite false my ey) (of_Z 100) = S754_finite false mz ez
    ∧ digits mz = 53 ∧ -106 ≤ ez ≤ -46
    ∧ Z.abs (2 * Z.pos mz * 2 ^ (- ey) - 200 * Z.pos my * 2 ^ (- ez))
      ≤ 2 ^ (- ey).
Proof.
  intros Hdy Hey Hle. rewrite of_Z_100. unfold mul, SFmul. cbn [xorb].
  pose proof (digits_bounds my) as Hby. rewrite Hdy in Hby.
  change (53 - 1) with 52 in Hby.
  change (2 ^ 52) with 4503599627370496 in Hby.
  change (2 ^ 53) with 9007199254740992 in Hby.
  set (M := (my * 7036874417766400)%positive).
  assert (Z.pos M = Z.pos my * 7036874417766400) as HM
    by (unfold M; apply Pos2Z.inj_mul).
  assert (∃ n, 52 ≤ n ≤ 53 ∧ digits M = 53 + n) as (n & Hn & HdM).
  { destruct (Z_lt_le_dec (Z.pos M) (2 ^ 105)) as [Hlt|Hge].
    - exists 52. split; [lia|]. apply digits_unique.
      change (2 ^ (53 + 52 - 1)) with 20282409603651670423947251286016.
      change (2 ^ (53 + 52)) with (2 ^ 105). lia.
    - exists 53. split; [lia|]. apply digits_unique.
      change (2 ^ (53 + 53 - 1)) with (2 ^ 105).
      change (2 ^ (53 + 53)) with 81129638414606681695789005144064. lia. }
  destruct (binary_round_aux_normal false M (ey + -46) loc_Exact (Z.pos M) 1 n)
    as (mz & c & -> & Hdz & Hc & Hnear);
    [lia|apply located_exact|done|lia|lia|].
  pose proof (digits_bounds mz) as Hbz. rewrite Hdz in Hbz.
  change (53 - 1) with 52 in Hbz.
  change (2 ^ 52) with 4503599627370496 in Hbz.
  change (2 ^ 53) with 9007199254740992 in Hbz.
  set (ez := ey + -46 + n + c).
  set (P := 2 ^ (- ey)) in *. set (Q := 2 ^ (- ez)).
  assert (0 < P) as HP by (apply pow2_pos; lia).
  assert (0 < Q) as HQ by (apply pow2_pos; unfold ez; lia).
  assert (0 < 2 ^ n ∧ 0 < 2 ^ c ∧ 0 < 2 ^ (n + c)) as (Hpn & Hpc & Hpk)
    by (repeat split; apply pow2_pos; lia).
  assert (2 ^ n ≤ 2 ^ (n + c)) as Hnc by (apply Z.pow_le_mono_r; lia).
  assert (Q * 2 ^ (n + c) = P * 2 ^ 46) as HPQ.
  { unfold P, Q, ez. rewrite <- !Z.pow_add_r by lia. f_equal. lia. }
  assert (Z.abs (2 * Z.pos mz * P - 200 * Z.pos my * Q) ≤ P) as HIB.
  { rewrite Z.mul_1_r, HM in Hnear.
    assert (Z.abs (2 * Z.pos mz * 2 ^ (n + c) - 200 * Z.pos my * 2 ^ 46)
            ≤ 2 ^ (n + c)) as H1.
    { rewrite (Z.pow_add_r 2 n c) in * by lia.
      change (2 ^ 46) with 70368744177664.
      replace (2 * Z.pos mz * (2 ^ n * 2 ^ c))
        with (2 * (Z.pos mz * 2 ^ c) * 2 ^ n) by ring. lia. }
    assert (Z.abs ((2 * Z.pos mz * P - 200 * Z.pos my * Q) * 2 ^ 46)
            ≤ P * 2 ^ 46) as H2.
    { replace ((2 * Z.pos mz * P - 200 * Z.pos my * Q) * 2 ^ 46)
        with ((2 * Z.pos mz * 2 ^ (n + c) - 200 * Z.pos my * 2 ^ 46) * Q).
      - rewrite Z.abs_mul, (Z.abs_eq Q), <- HPQ, (Z.mul_comm Q) by lia.
        apply Z.mul_le_mono_nonneg_r; lia.
      - transitivity (2 * Z.pos mz * (Q * 2 ^ (n + c))
                      - 200 * Z.pos my * Q * 2 ^ 46); [ring|].
        rewrite HPQ. ring. }
    rewrite Z.abs_mul, (Z.abs_eq (2 ^ 46)) in H2 by done.
    apply Z.mul_le_mono_pos_r in H2; done. }
  exists mz, ez. split; [done|]. split; [done|]. split; [|done].
  split; [unfold ez; lia|].
  destruct (Z_le_gt_dec ez (-46)) as [|Hgt]; [done|].
  assert (Q ≤ 2 ^ 45) as HQ45
    by (unfold Q; apply Z.pow_le_mono_r; unfold ez in *; lia).
  change (2 ^ 45) with 35184372088832 in HQ45.
  assert (Z.pos my * Q ≤ P * Q) by (apply Z.mul_le_mono_nonneg_r; lia).
  assert (P * (2 * Z.pos mz) ≤ P * (200 * Q + 1)) as H3 by lia.
  apply Z.mul_le_mono_pos_l in H3; lia.
Qed.

Lemma Math_round_finite m e :
  e < 0 →
  Math_round (S754_finite false m e)
  = of_Z ((2 * Z.pos m + 2 ^ (- e)) / 2 ^ (- e + 1)).
Proof.
  intros He. unfold Math_round.
  destruct (Z.leb_spec 0 e); [lia|].
  destruct (Z.eqb_spec ((2 * Z.pos m + 2 ^ (- e)) / 2 ^ (- e + 1)) 0) as [->|];
    done.
Qed.

Lemma to_Z_of_Z r : 0 ≤ r < 2 ^ 53 → to_Z (of_Z r) = Some r.
Proof.
  intros Hr. destruct (Z.eq_dec r 0) as [->|]; [done|].
  destruct (of_Z_elim r) as (m & e & -> & _ & He & Hm); [lia|].
  assert (0 < 2 ^ (- e)) by (apply pow2_pos; lia).
  unfold to_Z. destruct (Z.leb_spec 0 e).
  - assert (e = 0) as -> by lia. f_equal. simpl in *. lia.
  - rewrite Hm, Z.mod_mul, Z.div_mul by lia. done.
Qed.

(** The error of the quotient and of the product together is less
    than the distance between [100 s / t] and the nearest number that
    rounds differently. *)
Lemma rounded_product_nearest s t my mz P Q r :
  1 ≤ s ≤ t → t ≤ 2 ^ 45 → 2 ^ 53 ≤ P → 2 ^ 46 ≤ Q →
  Z.abs (2 * my * t - 2 * P * s) ≤ t →
  Z.abs (2 * mz * P - 200 * my * Q) ≤ P →
  2 * Q * r ≤ 2 * mz + Q < 2 * Q * (r + 1) →
  nearest r (100 * s) t.
Proof.
  intros Hs Ht HP HQ HA HB HC. unfold nearest.
  change (2 ^ 45) with 35184372088832 in Ht.
  change (2 ^ 53) with 9007199254740992 in HP.
  change (2 ^ 46) with 70368744177664 in HQ.
  assert (0 < P * Q) as HPQ by (apply Z.mul_pos_pos; lia).
  (* the two errors, scaled by P Q *)
  assert (t * (100 * Q + P) < P * Q) as Hsmall.
  { assert (256 * t * Q ≤ P * Q) by (apply Z.mul_le_mono_nonneg_r; lia).
    assert (P * (2 * t) ≤ P * Q) by (apply Z.mul_le_mono_nonneg_l; lia).
    lia. }
  assert (Z.abs (200 * my * t * Q - 200 * P * Q * s) ≤ 100 * Q * t) as HA'.
  { replace (200 * my * t * Q - 200 * P * Q * s)
      with ((2 * my * t - 2 * P * s) * (100 * Q)) by ring.
    rewrite Z.abs_mul, (Z.abs_eq (100 * Q)) by lia.
    replace (100 * Q * t) with (t * (100 * Q)) by ring.
    apply Z.mul_le_mono_nonneg_r; lia. }
  assert (Z.abs (2 * mz * P * t - 200 * my * t * Q) ≤ P * t) as HB'.
  { replace (2 * mz * P * t - 200 * my * t * Q)
      with ((2 * mz * P - 200 * my * Q) * t) by ring.
    rewrite Z.abs_mul, (Z.abs_eq t) by lia.
    apply Z.mul_le_mono_nonneg_r; lia. }
  assert (2 * P * Q * r * t ≤ 2 * mz * P * t + P * Q * t
          ∧ 2 * mz * P * t + P * Q * t < 2 * P * Q * (r + 1) * t)
    as [HC1 HC2].
  { assert (0 < P * t) by (apply Z.mul_pos_pos; lia).
    destruct HC as [HC1 HC2]. split.
    - apply (Z.mul_le_mono_nonneg_r _ _ (P * t)) in HC1; lia.
    - apply (Z.mul_lt_mono_pos_r (P * t)) in HC2; lia. }
  set (D := 2 * t * r - 2 * (100 * s)).
  assert (P * Q * (D - t) < P * Q * 1) as Hup by (unfold D; lia).
  assert (P * Q * (-1) < P * Q * (D + t)) as Hlow by (unfold D; lia).
  apply Z.mul_lt_mono_pos_l in Hup, Hlow; [|done|done]. lia.
Qed.

(** A quotient that rounds to 1 gives 100. *)
Lemma percentage_of_one :
  Math_round (mul (S754_finite false 4503599627370496 (-52)) (of_Z 100))
  = of_Z 100.
Proof. reflexivity. Qed.

(** [Math.round((s / t) * 100)] for integers [0 <= s <= t] with
    [1 <= t <= 2^45]: an integer nearest to [100 s / t]. *)
Lemma percentage_nearest s t :
  0 ≤ s ≤ t → 1 ≤ t ≤ 2 ^ 45 →
  ∃ r, Performance.percentage (of_Z s) (of_Z t) = of_Z r
       ∧ 0 ≤ r ≤ 100 ∧ nearest r (100 * s) t.
Proof.
  intros Hs Ht.
  assert (2 ^ 45 < 2 ^ 53) as H4553 by done.
  destruct (Z.eq_dec s 0) as [->|Hs0].
  { exists 0. split; [|unfold nearest; lia].
    destruct (of_Z_elim t) as (mt & et & Ht' & _); [lia|].
    unfold Performance.percentage. rewrite Ht'. reflexivity. }
  destruct (div_integers s t) as (my & ey & Hdiv & Hdy & Hey & HA); [lia..|].
  assert (0 < 2 ^ (- ey)) as HP by (apply pow2_pos; lia).
  assert (Z.pos my ≤ 2 ^ (- ey)) as Hle.
  { assert (2 ^ (- ey) * s ≤ 2 ^ (- ey) * t)
      by (apply Z.mul_le_mono_nonneg_l; lia).
    assert (t * (2 * Z.pos my) ≤ t * (2 * 2 ^ (- ey) + 1)) as H1 by lia.
    apply Z.mul_le_mono_pos_l in H1; lia. }
  pose proof (digits_bounds my) as Hby. rewrite Hdy in Hby.
  change (53 - 1) with 52 in Hby.
  destruct (Z.eq_dec ey (-52)) as [->|Hey'].
  { (* the quotient is 1: the score is the total *)
    change (2 ^ (- -52)) with (2 ^ 52) in *.
    assert (my = 4503599627370496%positive) as ->
      by (apply Pos2Z.inj; change (2 ^ 52) with 4503599627370496 in *; lia).
    exists 100. split.
    - unfold Performance.percentage. rewrite Hdiv. apply percentage_of_one.
    - split; [lia|]. unfold nearest.
      change (2 ^ 52) with 4503599627370496 in HA.
      change (2 ^ 45) with 35184372088832 in Ht. lia. }
  assert (2 ^ 53 ≤ 2 ^ (- ey)) as HP53 by (apply Z.pow_le_mono_r; lia).
  destruct (mul_hundred my ey) as (mz & ez & Hmul & Hdz & Hez & HB);
    [done..|].
  assert (0 < 2 ^ (- ez)) as HQ by (apply pow2_pos; lia).
  assert (2 ^ 46 ≤ 2 ^ (- ez)) as HQ46 by (apply Z.pow_le_mono_r; lia).
  set (r := (2 * Z.pos mz + 2 ^ (- ez)) / 2 ^ (- ez + 1)).
  assert (Performance.percentage (of_Z s) (of_Z t) = of_Z r) as Hp.
  { unfold Performance.percentage. rewrite Hdiv, Hmul.
    apply Math_round_finite. lia. }
  assert (nearest r (100 * s) t) as Hnear.
  { apply (rounded_product_nearest s t (Z.pos my) (Z.pos mz)
             (2 ^ (- ey)) (2 ^ (- ez))); [lia|lia|done|done|done|done|].
    assert (2 ^ (- ez + 1) = 2 * 2 ^ (- ez)) as E
      by (rewrite Z.pow_add_r by lia; change (2 ^ 1) with 2; lia).
    unfold r. rewrite E. split.
    - apply Z.mul_div_le. lia.
    - rewrite Z.mul_add_distr_l, Z.mul_1_r.
      pose proof (Z.mod_pos_bound (2 * Z.pos mz + 2 ^ (- ez))
                    (2 * 2 ^ (- ez)) ltac:(lia)).
      pose proof (Z.div_mod (2 * Z.pos mz + 2 ^ (- ez))
                    (2 * 2 ^ (- ez)) ltac:(lia)). lia. }
  exists r. split; [done|]. split; [|done].
  unfold nearest in Hnear.
  assert (t * (2 * r) ≤ t * 201) as H1 by lia.
  assert (t * (-1) ≤ t * (2 * r)) as H2 by lia.
  apply Z.mul_le_mono_pos_l in H1, H2; lia.
Qed.

End RoundingProofs.

(** ** The performance summary *)

Section StatsProofs.
Import JsNumber Store Performance Summary Scenario.
Local Open Scope Z_scope.

Lemma same_number_eq x y : same_number x y = true → x = y.
Proof.
  destruct x, y; simpl; try discriminate; intros H.
  - apply bool_decide_eq_true in H. congruence.
  - apply andb_prop in H as [H He]. apply andb_prop in H as [Hs Hm].
    apply bool_decide_eq_true in Hs. apply Pos.eqb_eq in Hm.
    apply Z.eqb_eq in He. congruence.
Qed.

Lemma elem_of_upto n x : 0 ≤ x ≤ n → In x (upto n).
Proof.
  intros Hx. unfold upto. apply in_map_iff. exists (Z.to_nat x). split.
  - lia.
  - apply in_seq. lia.
Qed.

Lemma forallb_upto (P : Z → bool) n x :
  forallb P (upto n) = true → 0 ≤ x ≤ n → P x = true.
Proof.
  intros H Hx. rewrite forallb_forall in H. apply H, elem_of_upto, Hx.
Qed.

(** The two tables, evaluated once. *)
Lemma percentage_table : forallb percentage_row (upto 39) = true.
Proof. vm_cast_no_check (eq_refl true). Qed.

Lemma max_table : forallb max_row (upto 100) = true.
Proof. vm_cast_no_check (eq_refl true). Qed.

Lemma percentage_small s t :
  0 ≤ s ≤ t → t < 40 → percent_of s t = round_ratio (100 * s) t.
Proof.
  intros Hs Ht.
  pose proof (forallb_upto percentage_row 39 t percentage_table) as H.
  unfold percentage_row in H.
  apply Z.eqb_eq.
  apply (forallb_upto (λ s, percent_of s t =? round_ratio (100 * s) t) t s);
    [apply H|]; lia.
Qed.

Lemma bound_le_limit : bound ≤ limit.
Proof. by vm_compute. Qed.

Lemma limit_below_53_bits : limit < 2 ^ 53.
Proof. by vm_compute. Qed.

(** Away from a tie there is one nearest integer: the rounded
    quotient. *)
Lemma nearest_unless_tie r n d :
  0 < d → nearest r n d → ¬ tie n d → r = round_ratio n d.
Proof.
  unfold nearest, tie, round_ratio. intros Hd Hn Htie.
  pose proof (Z.div_mod (2 * n + d) (2 * d) ltac:(lia)) as Hdm.
  pose proof (Z.mod_pos_bound (2 * n + d) (2 * d) ltac:(lia)) as Hm.
  set (q := (2 * n + d) / (2 * d)) in *.
  set (m := (2 * n + d) mod (2 * d)) in *.
  assert (d * (2 * r) < d * (2 * (q + 1))) as H1 by lia.
  assert (d * (2 * q) ≤ d * (2 * (r + 1))) as H2 by lia.
  apply Z.mul_lt_mono_pos_l in H1; [|done].
  apply Z.mul_le_mono_pos_l in H2; [|done].
  destruct (Z.eq_dec r q) as [|Hne]; [done|].
  assert (q = r + 1) as Hq by lia.
  assert (m = 0) as Hm0 by lia.
  exfalso. apply Htie. symmetry.
  apply (Z.mod_unique_pos _ _ (q - 1)); lia.
Qed.

(** The percentage of [s] out of [t], for up to [2^45] questions: an
    integer between 0 and 100, nearest to [100 s / t]; it is the
    rounded quotient unless [100 s / t] is a tie, and below 40
    questions also then. *)
Lemma percentage_within_limit s t :
  0 ≤ s ≤ t → 1 ≤ t ≤ limit →
  percentage (of_Z s) (of_Z t) = of_Z (percent_of s t)
  ∧ 0 ≤ percent_of s t ≤ 100
  ∧ nearest (percent_of s t) (100 * s) t
  ∧ (t < 40 ∨ ¬ tie (100 * s) t →
     percent_of s t = round_ratio (100 * s) t).
Proof.
  intros Hs Ht.
  destruct (percentage_nearest s t Hs Ht) as (r & Hp & Hr & Hn).
  assert (percent_of s t = r) as Hr'.
  { unfold percent_of. rewrite Hp, to_Z_of_Z; [done|].
    change (2 ^ 53) with 9007199254740992. lia. }
  rewrite Hr'. split; [done|]. split; [done|]. split; [done|].
  intros [Hsmall|Htie].
  - rewrite <- Hr'. by apply percentage_small.
  - apply nearest_unless_tie; [lia|done|done].
Qed.

Lemma percentage_integer s t :
  0 ≤ s ≤ t → 1 ≤ t ≤ bound →
  percentage (of_Z s) (of_Z t) = of_Z (percent_of s t)
  ∧ 0 ≤ percent_of s t ≤ 100
  ∧ nearest (percent_of s t) (100 * s) t
  ∧ (t < 40 → percent_of s t = round_ratio (100 * s) t).
Proof.
  intros Hs Ht. pose proof bound_le_limit.
  destruct (percentage_within_limit s t) as (H1 & H2 & H3 & H4); [lia..|].
  split; [done|]. split; [done|]. split; [done|]. intros. apply H4. by left.
Qed.

Lemma add_exact a b :
  0 ≤ a → 0 ≤ b → a + b ≤ limit → add (of_Z a) (of_Z b) = of_Z (a + b).
Proof.
  intros Ha Hb Hab. pose proof limit_below_53_bits.
  apply add_integers; lia.
Qed.

(** The running sum of the [reduce] is the exact sum. *)
Lemma fold_add_exact (f : AttemptId * AttemptRow → Z) l acc :
  Forall (λ a, 0 ≤ f a) l → 0 ≤ acc →
  acc + foldr (λ a s, f a + s) 0 l ≤ limit →
  fold_left (λ sum a, add sum (of_Z (f a))) l (of_Z acc)
  = of_Z (acc + foldr (λ a s, f a + s) 0 l).
Proof.
  intros Hl. revert acc.
  induction Hl as [|x l Hx Hl IH]; intros acc Hacc Hb; simpl in *.
  - f_equal. lia.
  - assert (0 ≤ foldr (λ a s, f a + s) 0 l).
    { clear -Hl. induction Hl; simpl; lia. }
    rewrite add_exact by lia. rewrite IH by lia. f_equal. lia.
Qed.

Lemma max_checked a b :
  0 ≤ a ≤ 100 → 0 ≤ b ≤ 100 →
  is_nan (of_Z a) = false
  ∧ Math_max_from neg_infinity [of_Z a] = of_Z a
  ∧ Math_max_from (of_Z a) [of_Z b] = of_Z (Z.max a b).
Proof.
  intros Ha Hb.
  pose proof (forallb_upto max_row 100 a max_table Ha) as H.
  unfold max_row in H.
  apply andb_prop in H as [H H3]. apply andb_prop in H as [H1 H2].
  apply negb_true_iff in H1. apply same_number_eq in H2.
  pose proof (forallb_upto _ _ b H3 Hb) as H4. apply same_number_eq in H4.
  done.
Qed.

Lemma Math_max_from_cons h x l :
  is_nan x = false →
  Math_max_from h (x :: l) = Math_max_from (Math_max_from h [x]) l.
Proof. intros H. simpl. rewrite H. reflexivity. Qed.

Lemma Math_max_from_integers l h :
  Forall (λ x, 0 ≤ x ≤ 100) l → 0 ≤ h ≤ 100 →
  Math_max_from (of_Z h) (map of_Z l) = of_Z (fold_left Z.max l h).
Proof.
  intros Hl. revert h. induction Hl as [|x l Hx Hl IH]; intros h Hh.
  - reflexivity.
  - destruct (max_checked h x Hh Hx) as (_ & _ & Hstep).
    destruct (max_checked x x Hx Hx) as (Hnan & _ & _).
    cbn [map]. rewrite Math_max_from_cons by done.
    rewrite Hstep. rewrite IH by lia. reflexivity.
Qed.

Lemma Math_max_integers l :
  l ≠ [] → Forall (λ x, 0 ≤ x ≤ 100) l →
  Math_max (map of_Z l) = of_Z (max_list l).
Proof.
  intros Hne Hl. destruct Hl as [|x l Hx Hl]; [done|].
  destruct (max_checked x x Hx Hx) as (Hnan & Hfirst & _).
  unfold Math_max. cbn [map]. rewrite Math_max_from_cons by done.
  rewrite Hfirst. apply Math_max_from_integers; done.
Qed.

(** One NaN among the arguments makes [Math.max] NaN. *)
Lemma Math_max_from_nan h l : In NaN l → Math_max_from h l = NaN.
Proof.
  revert h. induction l as [|x l IH]; intros h; [intros []|].
  intros [-> | Hin]; [reflexivity|].
  simpl. destruct (is_nan x); [reflexivity|]. by apply IH.
Qed.

Lemma sum_scores_le_totals attempts :
  Forall (λ a : AttemptId * AttemptRow, 0 ≤ score a.2 ≤ total_questions a.2)
         attempts →
  0 ≤ sum_scores attempts ≤ sum_totals attempts.
Proof.
  induction 1 as [|a l Ha Hl IH]; simpl; [lia|].
  unfold sum_scores, sum_totals in *. simpl. lia.
Qed.

Lemma total_le_sum_totals attempts a :
  Forall (λ a : AttemptId * AttemptRow, 0 ≤ score a.2 ≤ total_questions a.2)
         attempts →
  a ∈ attempts → total_questions a.2 ≤ sum_totals attempts.
Proof.
  induction 1 as [|b l Hb Hl IH]; [by intros ?%elem_of_nil|].
  pose proof (sum_scores_le_totals l Hl) as Hlen.
  unfold sum_scores, sum_totals in *. simpl.
  intros [->|Hin]%elem_of_cons; [lia|]. specialize (IH Hin). lia.
Qed.

(** The average of a non-empty history: the percentage of the summed
    scores out of the summed totals. *)
Lemma calculateStats_average (attempts : list (AttemptId * AttemptRow)) :
  attempts ≠ [] →
  Forall (λ a, 0 ≤ score a.2 ≤ total_questions a.2) attempts →
  sum_totals attempts ≤ limit →
  avgScore (calculateStats attempts)
  = percentage (of_Z (sum_scores attempts)) (of_Z (sum_totals attempts)).
Proof.
  intros Hne Hall Hlimit.
  pose proof (sum_scores_le_totals attempts Hall) as Hs.
  assert ((length attempts =? 0)%nat = false) as Hlen0 by (by destruct attempts).
  unfold calculateStats. rewrite Hlen0. cbn [avgScore].
  rewrite (fold_add_exact (λ a, score a.2) attempts 0);
    [| eapply Forall_impl; [exact Hall|]; simpl; lia | lia
     | fold (sum_scores attempts); lia ].
  rewrite (fold_add_exact (λ a, total_questions a.2) attempts 0);
    [| eapply Forall_impl; [exact Hall|]; simpl; lia | lia
     | fold (sum_totals attempts); lia ].
  reflexivity.
Qed.

(** The best of a non-empty history whose attempts all have a
    question: the largest percentage of an attempt. *)
Lemma calculateStats_best (attempts : list (AttemptId * AttemptRow)) :
  attempts ≠ [] →
  Forall (λ a, 0 ≤ score a.2 ≤ total_questions a.2) attempts →
  sum_totals attempts ≤ limit →
  Forall (λ a, 1 ≤ total_questions a.2) attempts →
  bestScore (calculateStats attempts)
  = of_Z (max_list (map (λ a, percent_of (score a.2) (total_questions a.2))
                        attempts))
  ∧ Forall (λ a, nearest (percent_of (score a.2) (total_questions a.2))
                         (100 * score a.2) (total_questions a.2)
                 ∧ (total_questions a.2 < 40
                    ∨ ¬ tie (100 * score a.2) (total_questions a.2) →
                    percent_of (score a.2) (total_questions a.2)
                    = round_ratio (100 * score a.2) (total_questions a.2)))
           attempts.
Proof.
  intros Hne Hall Hlimit Hpos.
  assert ((length attempts =? 0)%nat = false) as Hlen0 by (by destruct attempts).
  assert (Forall (λ a : AttemptId * AttemptRow,
                    percentage (of_Z (score a.2)) (of_Z (total_questions a.2))
                    = of_Z (percent_of (score a.2) (total_questions a.2))
                    ∧ 0 ≤ percent_of (score a.2) (total_questions a.2) ≤ 100
                    ∧ nearest (percent_of (score a.2) (total_questions a.2))
                              (100 * score a.2) (total_questions a.2)
                    ∧ (total_questions a.2 < 40
                       ∨ ¬ tie (100 * score a.2) (total_questions a.2) →
                       percent_of (score a.2) (total_questions a.2)
                       = round_ratio (100 * score a.2) (total_questions a.2)))
                 attempts) as Heach.
  { apply Forall_forall. intros a Ha.
    pose proof (total_le_sum_totals attempts a Hall Ha).
    rewrite Forall_forall in Hall, Hpos.
    specialize (Hall a Ha). specialize (Hpos a Ha).
    apply percentage_within_limit; lia. }
  split.
  - unfold calculateStats. rewrite Hlen0. cbn [bestScore].
    rewrite <- Math_max_integers.
    + f_equal. rewrite map_map. apply map_ext_Forall.
      eapply Forall_impl; [exact Heach|]. by intros a (-> & _).
    + by destruct attempts.
    + apply Forall_map. eapply Forall_impl; [exact Heach|].
      by intros a (_ & ? & _).
  - eapply Forall_impl; [exact Heach|]. by intros a (_ & _ & ? & ?).
Qed.

(** C2, as amended. For every history, [total] is its length, and the
    empty history gives three zeros. For every non-empty history with
    scores between 0 and the number of questions and at most [2^45]
    questions in all: if there is a question at all, [avgScore] is the
    percentage of the summed scores out of the summed totals (a
    weighted average); if every attempt has a question, [bestScore] is
    the largest percentage of an attempt. The percentage of [s] out of
    [t] is [Math.round((s / t) * 100)] in double arithmetic: an integer
    nearest to [100 s / t], hence [round(100 s / t)] unless [100 s / t]
    lies half way between two integers, where it may be the lower one;
    below 40 questions it is [round(100 s / t)] also then. Where no
    percentage is such a tie, or with fewer than 40 questions in all,
    the statistics are exactly those of the specification. In
    particular 8 of 10 and 5 of 10 give two attempts, 65 on average
    and 80 at best. *)
Theorem calculateStats_summary :
  (∀ attempts, total (calculateStats attempts) = length attempts)
  ∧ calculateStats [] = mkStats 0 (of_Z 0) (of_Z 0)
  ∧ (∀ attempts : list (AttemptId * AttemptRow),
       attempts ≠ [] →
       Forall (λ a, 0 ≤ score a.2 ≤ total_questions a.2) attempts →
       sum_totals attempts ≤ limit →
       (1 ≤ sum_totals attempts →
        avgScore (calculateStats attempts)
        = of_Z (percent_of (sum_scores attempts) (sum_totals attempts))
        ∧ nearest (percent_of (sum_scores attempts) (sum_totals attempts))
                  (100 * sum_scores attempts) (sum_totals attempts)
        ∧ (sum_totals attempts < 40
           ∨ ¬ tie (100 * sum_scores attempts) (sum_totals attempts) →
           percent_of (sum_scores attempts) (sum_totals attempts)
           = round_ratio (100 * sum_scores attempts) (sum_totals attempts)))
       ∧ (Forall (λ a, 1 ≤ total_questions a.2) attempts →
          bestScore (calculateStats attempts)
          = of_Z (max_list (map (λ a, percent_of (score a.2)
                                                 (total_questions a.2))
                                attempts))
          ∧ Forall (λ a, nearest (percent_of (score a.2) (total_questions a.2))
                                 (100 * score a.2) (total_questions a.2)
                         ∧ (total_questions a.2 < 40
                            ∨ ¬ tie (100 * score a.2) (total_questions a.2) →
                            percent_of (score a.2) (total_questions a.2)
                            = round_ratio (100 * score a.2)
                                          (total_questions a.2)))
                   attempts
          ∧ (sum_totals attempts < 40
             ∨ ¬ tie (100 * sum_scores attempts) (sum_totals attempts)
               ∧ Forall (λ a, ¬ tie (100 * score a.2) (total_questions a.2))
                        attempts →
             calculateStats attempts = stats_of (summarize attempts))))
  ∧ calculateStats example_attempts = mkStats 2 (of_Z 65) (of_Z 80).
Proof.
  split; [by intros []|]. split; [reflexivity|].
  split; [|vm_compute; reflexivity].
  intros attempts Hne Hall Hlimit.
  pose proof (sum_scores_le_totals attempts Hall) as Hs.
  pose proof (calculateStats_average attempts Hne Hall Hlimit) as Havg.
  assert (1 ≤ sum_totals attempts →
          percentage (of_Z (sum_scores attempts)) (of_Z (sum_totals attempts))
          = of_Z (percent_of (sum_scores attempts) (sum_totals attempts))
          ∧ nearest (percent_of (sum_scores attempts) (sum_totals attempts))
                    (100 * sum_scores attempts) (sum_totals attempts)
          ∧ (sum_totals attempts < 40
             ∨ ¬ tie (100 * sum_scores attempts) (sum_totals attempts) →
             percent_of (sum_scores attempts) (sum_totals attempts)
             = round_ratio (100 * sum_scores attempts) (sum_totals attempts)))
    as Hsum.
  { intros Hpos.
    destruct (percentage_within_limit (sum_scores attempts)
                (sum_totals attempts)) as (H1 & _ & H3 & H4); [lia|lia|].
    done. }
  split.
  { intros Hpos. destruct (Hsum Hpos) as (H1 & H3 & H4).
    rewrite Havg. done. }
  intros Hpos.
  destruct (calculateStats_best attempts Hne Hall Hlimit Hpos)
    as [Hbest Heach].
  split; [done|]. split; [done|]. intros Hexact.
  assert (1 ≤ sum_totals attempts) as Hpos'.
  { destruct attempts as [|a l]; [done|].
    apply Forall_cons in Hpos as [Ha _].
    apply Forall_cons in Hall as [_ Hl].
    pose proof (sum_scores_le_totals l Hl).
    unfold sum_scores, sum_totals in *. simpl. lia. }
  destruct (Hsum Hpos') as (H1 & _ & H4).
  assert (sum_totals attempts < 40
          ∨ ¬ tie (100 * sum_scores attempts) (sum_totals attempts)) as Hex1
    by (destruct Hexact as [?|[? _]]; [by left|by right]).
  assert (Forall (λ a : AttemptId * AttemptRow,
                    total_questions a.2 < 40
                    ∨ ¬ tie (100 * score a.2) (total_questions a.2))
                 attempts) as Hex2.
  { destruct Hexact as [Hsmall|[_ Hties]].
    - apply Forall_forall. intros a Ha. left.
      pose proof (total_le_sum_totals attempts a Hall Ha). lia.
    - eapply Forall_impl; [exact Hties|]. intros a ?. by right. }
  transitivity (mkStats (length attempts) (avgScore (calculateStats attempts))
                        (bestScore (calculateStats attempts))).
  { unfold calculateStats. by destruct attempts. }
  rewrite Havg, H1, Hbest, (H4 Hex1).
  replace (summarize attempts)
    with (mkSummary (length attempts)
            (round_ratio (100 * sum_scores attempts) (sum_totals attempts))
            (max_list (map (λ a, round_ratio (100 * score a.2)
                                             (total_questions a.2))
                           attempts)))
    by (by destruct attempts).
  unfold stats_of. cbn [count averagePercentage bestPercentage].
  do 3 f_equal. apply map_ext_Forall.
  rewrite Forall_forall in Heach, Hex2. apply Forall_forall. intros a Ha.
  destruct (Heach a Ha) as [_ Hb]. apply Hb, Hex2, Ha.
Qed.

(** A history of 3 of 5, 5 of 5 and 2 of 5: 10 of 15 is 67 on average,
    the best attempt is at 100. *)
Lemma calculateStats_summary_witness :
  three_attempts ≠ []
  ∧ calculateStats three_attempts = mkStats 3 (of_Z 67) (of_Z 100).
Proof.
  assert (three_attempts ≠ []) as Hne by discriminate.
  split; [exact Hne|].
  destruct (proj1 (proj2 (proj2 calculateStats_summary)) three_attempts Hne)
    as (_ & H).
  - repeat constructor; simpl; lia.
  - vm_compute. discriminate.
  - destruct H as (_ & _ & H).
    + repeat constructor; simpl; lia.
    + rewrite H; [reflexivity|]. left. vm_compute. reflexivity.
Defined.

(** C2, as stated, fails. Two attempts of twenty questions with 12
    and 11 right answers: the specification's average is
    [round(100 * 23 / 40) = round(57.5) = 58]; the page computes
    [23 / 40] first, and the double nearest to it times 100 is
    57.49999999999999, which rounds to 57. (A tie that rounds the
    other way, [1 / 8], is computed exactly and gives 13.) *)
Lemma calculateStats_average_counterexample :
  averagePercentage (summarize twenty_attempts) = 58
  ∧ avgScore (calculateStats twenty_attempts) = of_Z 57
  ∧ of_Z 57 ≠ of_Z 58
  ∧ percentage (of_Z 1) (of_Z 8) = of_Z 13.
Proof.
  split; [reflexivity|]. split; [vm_compute; reflexivity|].
  split; [vm_compute; discriminate|]. vm_compute. reflexivity.
Qed.

(** A little beyond [2^45] questions the percentage is no longer
    always a nearest integer: 31431208259659 of 39536111018439 is just
    below 79.5 per cent and gives 80. *)
Lemma percentage_beyond_limit :
  percentage (of_Z 31431208259659) (of_Z 39536111018439) = of_Z 80
  ∧ ¬ nearest 80 (100 * 31431208259659) 39536111018439
  ∧ nearest 79 (100 * 31431208259659) 39536111018439
  ∧ 8 * limit < 8 * 39536111018439 < 9 * limit.
Proof.
  split; [vm_compute; reflexivity|]. unfold nearest, limit.
  change (2 ^ 45) with 35184372088832. lia.
Qed.

End StatsProofs.

(** ** Requests *)

Section ClientProofs.
Import Store Client.

Lemma same_screen_refl w : same_screen w w.
Proof. by repeat split. Qed.

Lemma same_screen_trans w1 w2 w3 :
  same_screen w1 w2 → same_screen w2 w3 → same_screen w1 w3.
Proof.
  intros (?&?&?&?&?) (?&?&?&?&?). repeat split; congruence.
Qed.

(** A store request resolves; it reaches the database unless a
    transport failure is waiting. *)
Lemma request_cases {P X} (op : option UserId → DB → (Err + X) * DB)
      (w : World) (p : P) :
  ∃ r w', request op (w, p) = (Normal r, (w', p)) ∧ same_screen w w'
    ∧ faults w' = tail (faults w)
    ∧ match next_fault w with
      | Some e => r = inl e ∧ db w' = db w
      | None => (r, db w') = op (session w) (db w)
      end.
Proof.
  unfold request, next_fault. simpl.
  destruct (faults w) as [|[e|] fs] eqn:Hf.
  - destruct (op (session w) (db w)) as [r d] eqn:Hop.
    eexists _, _. split; [reflexivity|]. simpl. by repeat split.
  - eexists _, _. split; [reflexivity|]. simpl. by repeat split.
  - destruct (op (session w) (db w)) as [r d] eqn:Hop.
    eexists _, _. split; [reflexivity|]. simpl. by repeat split.
Qed.

End ClientProofs.

(** ** The quiz page *)

Section QuizProofs.
Import Store Client Quiz Scenario.
Local Open Scope eff_scope.

Lemma insert_question_attempts n uid d :
  quiz_attempts (insert_question n uid d).2 = quiz_attempts d
  ∧ policies (insert_question n uid d).2 = policies d.
Proof.
  unfold insert_question. destruct (nq_attempt_id n); [|done].
  destruct (negb _); [done|].
  by destruct (column_text (nq_question_text n)), (nq_options n),
       (column_text (nq_correct_answer n)).
Qed.

(** The loop of [handleSubmit] ends normally with the number of
    matching positions added to the score; it leaves the page, the
    screen and the attempts as they were. *)
Lemma submit_loop_spec p indices score w :
  Forall (λ i, i < length (questions p)) indices →
  ∃ w', submit_loop p indices score (w, p)
        = (Normal (score + Z.of_nat (length (filter (λ i, is_match (questions p) (answers p) i = true) indices)))%Z,
           (w', p))
        ∧ same_screen w w'
        ∧ quiz_attempts (db w') = quiz_attempts (db w)
        ∧ policies (db w') = policies (db w)
        ∧ faults w' = drop (length indices) (faults w).
Proof.
  intros Hall. revert score w.
  induction Hall as [|i rest Hi Hrest IH]; intros score w.
  - exists w. simpl. rewrite Z.add_0_r, drop_0.
    split; [reflexivity|]. split; [apply same_screen_refl|done].
  - cbn [submit_loop].
    destruct (questions p !! i) as [q|] eqn:Hq;
      [|apply lookup_ge_None_1 in Hq; lia].
    unfold bind at 1.
    destruct (request_cases
                (insert_question
                   (mkNewQuestion (attemptId p) (question q) (options q)
                      (correct_answer q) (or_null (answers p !! i))
                      (explanation q))) w p)
      as (r & w1 & -> & Hscreen & Hfaults & Hdb).
    destruct (IH (if strict_equal (answers p !! i) (correct_answer q)
                  then (score + 1)%Z else score) w1)
      as (w' & -> & Hscreen' & Hatt & Hpol & Hfaults').
    exists w'. split.
    + f_equal. f_equal. rewrite filter_cons.
      assert (is_match (questions p) (answers p) i
              = strict_equal (answers p !! i) (correct_answer q)) as ->.
      { unfold is_match. by rewrite Hq. }
      destruct (strict_equal (answers p !! i) (correct_answer q)).
      * rewrite decide_True by done. cbn [length]. lia.
      * rewrite decide_False by done. lia.
    + split; [by eapply same_screen_trans|].
      assert (quiz_attempts (db w1) = quiz_attempts (db w)
              ∧ policies (db w1) = policies (db w)) as [Ha Hp].
      { destruct (next_fault w).
        - destruct Hdb as [_ ->]. done.
        - pose proof (insert_question_attempts
                       (mkNewQuestion (attemptId p) (question q) (options q)
                          (correct_answer q) (or_null (answers p !! i))
                          (explanation q)) (session w) (db w)) as H.
          rewrite <- Hdb in H. exact H. }
      split; [congruence|]. split; [congruence|].
      rewrite Hfaults', Hfaults. cbn [length].
      destruct (faults w); simpl; [by rewrite drop_nil|done].
Qed.

Lemma correct_count_le_length qs a : correct_count qs a ≤ length qs.
Proof.
  unfold correct_count.
  etrans; [apply length_filter|]. by rewrite length_seq.
Qed.

Lemma strict_equal_spec u c :
  strict_equal u c = true
  ↔ (∃ v, u = Some v ∧ c = Text v) ∨ (u = None ∧ c = Undefined).
Proof.
  destruct u as [v|], c as [| |t]; cbn; try rewrite bool_decide_eq_true;
    split; try done; try (intros [(? & ? & ?)|(? & ?)]; congruence); eauto.
  intros ->. left. by exists t.
Qed.

Lemma is_match_spec qs a i :
  is_match qs a i = true
  ↔ ∃ q, qs !! i = Some q
         ∧ ((∃ u, a !! i = Some u ∧ correct_answer q = Text u)
            ∨ (a !! i = None ∧ correct_answer q = Undefined)).
Proof.
  unfold is_match. destruct (qs !! i) as [q|].
  - rewrite strict_equal_spec. split.
    + intros H. by exists q.
    + by intros (q' & [= <-] & H).
  - split; [done|]. by intros (q' & ? & _).
Qed.

(** With a [correct_answer] in every question, only answered positions
    match. *)
Lemma correct_le_answered qs a :
  Forall (λ q, correct_answer q ≠ Undefined) qs →
  correct_count qs a ≤ answered_count qs a.
Proof.
  intros Hall. unfold correct_count, answered_count.
  induction (seq 0 (length qs)) as [|i l IH]; [done|].
  rewrite !filter_cons.
  destruct (decide (is_match qs a i = true)) as [Hm|Hm].
  - apply is_match_spec in Hm as (q & Hq & [(u & Hu & _)|(_ & Hc)]).
    + rewrite decide_True by (by rewrite Hu). simpl. lia.
    + eapply Forall_forall in Hall; [|by eapply list_elem_of_lookup_2].
      done.
  - destruct (decide (is_Some (a !! i))); simpl; lia.
Qed.

(** [handleSubmit], step by step: the loop, the score update, and
    what the user is shown depending on the answer to the update. *)
Lemma handleSubmit_spec w p :
  let n := Z.of_nat (correct_count (questions p) (answers p)) in
  ∃ w1 r w2,
    submit_loop p (seq 0 (length (questions p))) 0%Z (w, p)
    = (Normal n, (w1, p))
    ∧ same_screen w w1
    ∧ quiz_attempts (db w1) = quiz_attempts (db w)
    ∧ policies (db w1) = policies (db w)
    ∧ faults w1 = drop (length (questions p)) (faults w)
    ∧ request (update_score (attemptId p) n) (w1, p) = (Normal r, (w2, p))
    ∧ same_screen w1 w2
    ∧ match next_fault w1 with
      | Some e => r = inl e ∧ db w2 = db w1
      | None => (r, db w2) = update_score (attemptId p) n (session w1) (db w1)
      end
    ∧ handleSubmit (w, p)
      = (Normal (),
         (match r with
          | inl _ =>
              add_toast (ToastError "Failed to save score. Please try again.")
                        (add_console "Error updating quiz score:" w2)
          | inr _ =>
              add_navigation
                (ResultsPage (attemptId p) n (length (questions p)))
                (add_console ("Quiz completed! Score: " +:+ pretty n +:+ "/"
                                +:+ pretty (length (questions p))) w2)
          end, p)).
Proof.
  intros n.
  destruct (submit_loop_spec p (seq 0 (length (questions p))) 0%Z w)
    as (w1 & Hloop & Hs1 & Ha1 & Hp1 & Hf1).
  { apply Forall_forall. intros i Hi%elem_of_seq. lia. }
  rewrite Z.add_0_l, length_seq in *. fold (correct_count (questions p) (answers p)) in Hloop.
  fold n in Hloop.
  destruct (request_cases (update_score (attemptId p) n) w1 p)
    as (r & w2 & Hreq & Hs2 & Hf2 & Hdb).
  exists w1, r, w2. repeat (split; [done|]).
  unfold handleSubmit, bind at 1, get_page. cbn [snd].
  unfold try_catch, bind at 1. rewrite Hloop.
  unfold bind at 1. fold n. rewrite Hreq.
  by destruct r.
Qed.

Lemma generateQuiz_failure w p sl subs qc e :
  (generate_quiz w (mkInvokeBody (subject_of subs) sl qc) = Rejected e
   ∨ ∃ data, generate_quiz w (mkInvokeBody (subject_of subs) sl qc)
             = Resolved data (Some e)) →
  generateQuiz sl subs qc (w, p)
  = (Normal (),
     (failed_world e w,
      mkState (questions p) false (currentQuestion p) (answers p) (attemptId p))).
Proof.
  intros H. unfold generateQuiz, finally, try_catch, bind at 1, setLoading,
    modify_page. cbn [fst snd].
  unfold bind at 1, functions_invoke. cbn [fst snd].
  destruct H as [-> | [data ->]]; reflexivity.
Qed.

(** What [generateQuiz] does to the attempts, starting from the
    page's initial state. *)
(** Closes a case of [generateQuiz] in which no attempt was created. *)
Ltac no_attempt :=
  eexists _, _; split; [reflexivity|]; split; [done|]; by left.

Lemma generateQuiz_attempts w sl subs qc :
  ∃ w' p',
    generateQuiz sl subs qc (w, initial) = (Normal (), (w', p'))
    ∧ policies (db w') = policies (db w)
    ∧ ((quiz_attempts (db w') = quiz_attempts (db w) ∧ attemptId p' = None)
       ∨ ∃ id row,
           quiz_attempts (db w) !! id = None
           ∧ quiz_attempts (db w') = <[id := row]> (quiz_attempts (db w))
           ∧ attemptId p' = Some id
           ∧ score row = 0%Z
           ∧ total_questions row = Z.of_nat (length (questions p'))).
Proof.
  unfold generateQuiz, finally, try_catch, bind at 1, setLoading, modify_page.
  cbn [fst snd].
  unfold bind at 1, functions_invoke. cbn [fst snd].
  destruct (generate_quiz w _) as [data [e|] | e];
    [no_attempt | | no_attempt].
  destruct data as [[[qs|]]|]; [| no_attempt ..].
  unfold bind at 1, setQuestions, modify_page. cbn [fst snd].
  unfold bind at 1, getSession. cbn [fst snd].
  destruct (session w) as [uid|] eqn:Hsession; [| no_attempt].
  unfold bind at 1.
  match goal with |- context [request ?op ?s] =>
    destruct (request_cases op (fst s) (snd s)) as (r & w1 & Hreq & Hs & Hf & Hdb);
    cbn [fst snd] in Hreq; rewrite Hreq
  end.
  cbn [fst snd] in Hdb.
  destruct (next_fault w) as [e|].
  - destruct Hdb as [-> Hdb].
    eexists _, _; split; [reflexivity|]. simpl. rewrite Hdb.
    split; [done|]. by left.
  - unfold insert_attempt in Hdb.
    repeat match type of Hdb with
           | context [if ?b then _ else _] => destruct b
           end.
    1-4: injection Hdb as -> Hdb;
         eexists _, _; (split; [reflexivity|]); simpl; rewrite Hdb;
         (split; [done|]); by left.
    injection Hdb as -> Hdb.
    eexists _, _; split; [reflexivity|]. simpl. rewrite Hdb. simpl.
    split; [done|]. right. eexists _, _. split; [|done].
    apply not_elem_of_dom, is_fresh.
Qed.

Lemma update_score_attempts a n uid d :
  quiz_attempts (update_score a n uid d).2 = quiz_attempts d
  ∨ ∃ id r, a = Some id ∧ quiz_attempts d !! id = Some r
            ∧ quiz_attempts (update_score a n uid d).2
              = <[id := set_score n r]> (quiz_attempts d).
Proof.
  unfold update_score. destruct a as [id|]; [|by left].
  destruct (quiz_attempts d !! id) as [r|] eqn:Hr; [|by left].
  destruct (owns uid r && attempts_update_own (policies d)); [|by left].
  destruct (int4_ok n); [|by left].
  right. by exists id, r.
Qed.

Lemma handle_preserves e w p :
  score_bounded (db w) → coherent (w, p) →
  ∃ w' p', handle e (w, p) = (Normal (), (w', p'))
           ∧ score_bounded (db w') ∧ coherent (w', p').
Proof.
  intros Hb Hc. destruct e as [v| | |]; cbn [handle].
  - eexists _, _. split; [reflexivity|]. done.
  - unfold handleNext, bind, get_page. cbn [fst snd].
    destruct (_ <? _)%Z; eexists _, _; (split; [reflexivity|]); done.
  - unfold handlePrevious, bind, get_page. cbn [fst snd].
    destruct (_ <? _)%Z; eexists _, _; (split; [reflexivity|]); done.
  - destruct (handleSubmit_spec w p)
      as (w1 & r & w2 & _ & _ & Ha1 & _ & _ & _ & _ & Hdb & ->).
    eexists _, _. split; [reflexivity|].
    assert (quiz_attempts (db w2) = quiz_attempts (db w)
            ∨ ∃ id row, attemptId p = Some id
                ∧ quiz_attempts (db w) !! id = Some row
                ∧ quiz_attempts (db w2)
                  = <[id := set_score (Z.of_nat (correct_count (questions p) (answers p))) row]>
                      (quiz_attempts (db w))) as Hcases.
    { destruct (next_fault w1).
      - destruct Hdb as [_ ->]. by left.
      - pose proof (update_score_attempts (attemptId p)
                      (Z.of_nat (correct_count (questions p) (answers p)))
                      (session w1) (db w1)) as H.
        rewrite <- Hdb in H. cbn [snd] in H. rewrite Ha1 in H. exact H. }
    assert (score_bounded (db w2) ∧ coherent (w2, p)) as [Hb2 Hc2].
    { destruct Hcases as [Heq | (id & row & Hid & Hrow & Heq)].
      - split; unfold score_bounded, coherent in *; cbn [fst snd] in *;
          by rewrite Heq.
      - pose proof (Hc id row Hid Hrow) as Htotal. cbn [snd] in Htotal.
        pose proof (correct_count_le_length (questions p) (answers p)).
        split.
        + unfold score_bounded. rewrite Heq. apply map_Forall_insert_2; [|done].
          simpl. lia.
        + intros a r' Ha. cbn [fst snd] in *. rewrite Heq.
          assert (a = id) as -> by congruence.
          rewrite lookup_insert_eq. intros [= <-]. simpl. done. }
    by destruct r.
Qed.

Lemma run_preserves es w p :
  score_bounded (db w) → coherent (w, p) →
  score_bounded (db (run es (w, p)).1).
Proof.
  revert w p. induction es as [|e es IH]; intros w p Hb Hc; [done|].
  unfold run. cbn [fold_left]. fold (run es).
  destruct (handle_preserves e w p Hb Hc) as (w' & p' & -> & Hb' & Hc').
  by apply IH.
Qed.

(** C7. Starting from a store in which every attempt has its score
    between 0 and its number of questions, the page generates a quiz
    (creating its attempt with score 0) and the user answers, moves
    and submits in any order and any number of times: every attempt
    of the store still has [0 ≤ score ≤ total_questions], whatever
    requests fail on the way. *)
Theorem score_within_total_after_submission w sl subs qc es :
  score_bounded (db w) →
  score_bounded (db (run es (generateQuiz sl subs qc (w, initial)).2).1).
Proof.
  intros Hb.
  destruct (generateQuiz_attempts w sl subs qc)
    as (w' & p' & -> & _ & [[Heq Hid] | (id & row & Hfresh & Heq & Hid & Hs & Ht)]).
  - apply run_preserves.
    + unfold score_bounded. by rewrite Heq.
    + intros a r. cbn [snd]. by rewrite Hid.
  - apply run_preserves.
    + unfold score_bounded. rewrite Heq. apply map_Forall_insert_2; [|done].
      lia.
    + intros a r. cbn [fst snd]. rewrite Hid, Heq. intros [= <-].
      rewrite lookup_insert_eq. by intros [= <-].
Qed.

(** C1. At submission the computed score is the number of positions
    of the question list at which the recorded answer is strictly
    equal to the question's [correct_answer]: the same string, or
    both [undefined], that is a position without a recorded answer
    whose question has no [correct_answer]. When every question has a
    [correct_answer], a position without a recorded answer is no
    match and the score is at most the number of answered positions.
    The loop always ends with that score, and that score is what the
    score update is asked to store; when the update is accepted the
    page navigates to the results with that score and shows no toast,
    and otherwise it stays and tells the user the score was not
    saved. *)
Theorem handleSubmit_counts_matches w p :
  let n := correct_count (questions p) (answers p) in
  (∀ i, is_match (questions p) (answers p) i = true
        ↔ ∃ q, questions p !! i = Some q
               ∧ ((∃ u, answers p !! i = Some u ∧ correct_answer q = Text u)
                  ∨ (answers p !! i = None ∧ correct_answer q = Undefined)))
  ∧ (Forall (λ q, correct_answer q ≠ Undefined) (questions p) →
     n ≤ answered_count (questions p) (answers p))
  ∧ ∃ w1 r w2 w',
      submit_loop p (seq 0 (length (questions p))) 0%Z (w, p)
      = (Normal (Z.of_nat n), (w1, p))
      ∧ request (update_score (attemptId p) (Z.of_nat n)) (w1, p)
        = (Normal r, (w2, p))
      ∧ handleSubmit (w, p) = (Normal (), (w', p))
      ∧ db w' = db w2
      ∧ match r with
        | inr _ =>
            navigations w'
            = navigations w
                ++ [ResultsPage (attemptId p) (Z.of_nat n) (length (questions p))]
            ∧ toasts w' = toasts w
        | inl _ =>
            navigations w' = navigations w
            ∧ toasts w'
              = toasts w ++ [ToastError "Failed to save score. Please try again."]
        end.
Proof.
  intros n. split; [apply is_match_spec|].
  split; [apply correct_le_answered|].
  destruct (handleSubmit_spec w p)
    as (w1 & r & w2 & Hloop & Hs1 & _ & _ & _ & Hreq & Hs2 & _ & ->).
  eexists w1, r, w2, _. split; [exact Hloop|]. split; [exact Hreq|].
  split; [reflexivity|].
  destruct Hs1 as (_ & _ & Ht1 & _ & Hn1), Hs2 as (_ & _ & Ht2 & _ & Hn2).
  subst n. destruct r; simpl; (split; [done|]); split; congruence.
Qed.

(** The claim as the specification states it fails: a question
    without [correct_answer], left unanswered, counts as a right
    answer. The page shows 1 of 1 although nothing was answered; the
    row of the question is refused by the store, which wants a
    [correct_answer]. *)
Lemma unanswered_position_counts_without_correct_answer :
  let s := (handleSubmit (world_of single_db (Some alice) [] no_generator,
                          unanswered_page)).2 in
  answered_count (questions unanswered_page) (answers unanswered_page) = 0
  ∧ correct_count (questions unanswered_page) (answers unanswered_page) = 1
  ∧ navigations s.1 = [ResultsPage (Some 0) 1 1]
  ∧ toasts s.1 = []
  ∧ quiz_questions (db s.1) = []
  ∧ score <$> quiz_attempts (db s.1) !! 0 = Some 1%Z.
Proof. repeat split; vm_compute; reflexivity. Qed.

(** C8. With the cursor on a question: [handlePrevious] on the first
    question and [handleNext] on the last one change nothing; either
    of them leaves the cursor on a question, moves it by exactly one
    when there is room, and leaves the questions, the answers and the
    attempt alone; [handleAnswer] records the value for the current
    question, replacing what was there, and leaves the answer of
    every other question and the cursor as they were. *)
Theorem navigation_clamped_answers_framed w p v :
  currentQuestion p < length (questions p) →
  (currentQuestion p = 0 → handlePrevious (w, p) = (Normal (), (w, p)))
  ∧ (currentQuestion p = length (questions p) - 1 →
     handleNext (w, p) = (Normal (), (w, p)))
  ∧ (∀ e, e = Next ∨ e = Previous →
       ∃ p', handle e (w, p) = (Normal (), (w, p'))
             ∧ currentQuestion p' < length (questions p')
             ∧ questions p' = questions p ∧ answers p' = answers p
             ∧ attemptId p' = attemptId p
             ∧ (e = Next → currentQuestion p < length (questions p) - 1 →
                currentQuestion p' = currentQuestion p + 1)
             ∧ (e = Previous → 0 < currentQuestion p →
                currentQuestion p' = currentQuestion p - 1))
  ∧ ∃ p', handleAnswer v (w, p) = (Normal (), (w, p'))
          ∧ answers p' !! currentQuestion p = Some v
          ∧ (∀ i, i ≠ currentQuestion p → answers p' !! i = answers p !! i)
          ∧ currentQuestion p' = currentQuestion p
          ∧ questions p' = questions p.
Proof.
  intros Hin. split; [|split; [|split]].
  - intros H0. unfold handlePrevious, bind, get_page. cbn [fst snd].
    rewrite H0. reflexivity.
  - intros Hlast. unfold handleNext, bind, get_page. cbn [fst snd].
    destruct (_ <? _)%Z eqn:E; [apply Z.ltb_lt in E; lia|reflexivity].
  - intros e [-> | ->]; cbn [handle].
    + unfold handleNext, bind, get_page. cbn [fst snd].
      destruct (_ <? _)%Z eqn:E.
      * apply Z.ltb_lt in E. eexists. split; [reflexivity|]. simpl.
        repeat split; try done; lia.
      * apply Z.ltb_ge in E. exists p. split; [done|].
        repeat split; try done; lia.
    + unfold handlePrevious, bind, get_page. cbn [fst snd].
      destruct (_ <? _)%Z eqn:E.
      * apply Z.ltb_lt in E. eexists. split; [reflexivity|]. simpl.
        repeat split; try done; lia.
      * apply Z.ltb_ge in E. exists p. split; [done|].
        repeat split; try done; lia.
  - eexists. split; [reflexivity|]. simpl.
    split; [apply lookup_insert_eq|]. split; [|done].
    intros i Hi. by apply lookup_insert_ne.
Qed.

(** C5. When the call to the generator fails, by a rejected promise
    or by an error in its answer (a non-2xx status such as 429 makes
    the client library answer with an error), the user gets an error
    toast with the error's message (or the default text), is sent
    back to the dashboard, the store is exactly as before (no attempt
    was created), the page has no attempt, and the spinner is off. *)
Theorem generation_failure_reported w p sl subs qc e :
  (generate_quiz w (mkInvokeBody (subject_of subs) sl qc) = Rejected e
   ∨ ∃ data, generate_quiz w (mkInvokeBody (subject_of subs) sl qc)
             = Resolved data (Some e)) →
  ∃ w' p',
    generateQuiz sl subs qc (w, p) = (Normal (), (w', p'))
    ∧ toasts w'
      = toasts w
          ++ [ToastError (message_or e "Failed to generate quiz. Please try again.")]
    ∧ navigations w' = navigations w ++ [Dashboard]
    ∧ db w' = db w
    ∧ attemptId p' = attemptId p
    ∧ loading p' = false.
Proof.
  intros H. rewrite (generateQuiz_failure w p sl subs qc e H).
  eexists _, _. split; [reflexivity|]. done.
Qed.

(** A generator answering 429: the toast carries the client
    library's message, the user is back on the dashboard and the
    store is untouched. *)
Lemma generation_failure_reported_witness :
  (generate_quiz (world_of empty_db (Some alice) [] rate_limited)
                 (mkInvokeBody (subject_of ["Mathematics"]) "Intermediate" 5)
   = Rejected (mkErr "Edge Function returned a non-2xx status code")
   ∨ ∃ data,
       generate_quiz (world_of empty_db (Some alice) [] rate_limited)
                     (mkInvokeBody (subject_of ["Mathematics"]) "Intermediate" 5)
       = Resolved data (Some (mkErr "Edge Function returned a non-2xx status code")))
  ∧ ∃ w' p',
      generateQuiz "Intermediate" ["Mathematics"] 5
                   (world_of empty_db (Some alice) [] rate_limited, initial)
      = (Normal (), (w', p'))
      ∧ toasts w' = [ToastError "Edge Function returned a non-2xx status code"]
      ∧ navigations w' = [Dashboard]
      ∧ db w' = empty_db
      ∧ attemptId p' = None
      ∧ loading p' = false.
Proof.
  assert (generate_quiz (world_of empty_db (Some alice) [] rate_limited)
                        (mkInvokeBody (subject_of ["Mathematics"]) "Intermediate" 5)
          = Rejected (mkErr "Edge Function returned a non-2xx status code")
          ∨ ∃ data,
              generate_quiz (world_of empty_db (Some alice) [] rate_limited)
                            (mkInvokeBody (subject_of ["Mathematics"])
                                          "Intermediate" 5)
              = Resolved data
                  (Some (mkErr "Edge Function returned a non-2xx status code")))
    as H.
  { right. exists None. reflexivity. }
  split; [exact H|].
  exact (generation_failure_reported
           (world_of empty_db (Some alice) [] rate_limited) initial
           "Intermediate" ["Mathematics"] 5
           (mkErr "Edge Function returned a non-2xx status code") H).
Defined.

(** A whole session on an empty store: two questions generated, both
    answered, submitted twice. *)
Lemma score_within_total_after_submission_witness :
  score_bounded (db (world_of empty_db (Some alice) [] two_questions))
  ∧ score_bounded
      (db (run [Answer "B"; Next; Answer "C"; Submit; Previous; Answer "A"; Submit]
               (generateQuiz "Beginner" ["Science"] 5
                  (world_of empty_db (Some alice) [] two_questions, initial)).2).1).
Proof.
  assert (score_bounded (db (world_of empty_db (Some alice) [] two_questions)))
    as H by apply map_Forall_empty.
  split; [exact H|].
  exact (score_within_total_after_submission
           (world_of empty_db (Some alice) [] two_questions)
           "Beginner" ["Science"] 5
           [Answer "B"; Next; Answer "C"; Submit; Previous; Answer "A"; Submit] H).
Defined.

(** On the last of two questions: [handleNext] changes nothing. *)
Lemma navigation_clamped_answers_framed_witness :
  currentQuestion answering_page < length (questions answering_page)
  ∧ handleNext (world_of session_db (Some alice) [] no_generator, answering_page)
    = (Normal (), (world_of session_db (Some alice) [] no_generator, answering_page)).
Proof.
  assert (currentQuestion answering_page < length (questions answering_page))
    as H by (simpl; lia).
  split; [exact H|].
  exact (proj1 (proj2 (navigation_clamped_answers_framed
                         (world_of session_db (Some alice) [] no_generator)
                         answering_page "D" H))
               eq_refl).
Defined.

(** The session of the scenario scores one of two; an answer that
    differs from the correct label only by its case is no match. *)
Example handleSubmit_scores_one_of_two :
  correct_count (questions answering_page) (answers answering_page) = 1
  ∧ correct_count [q1] (<[0 := "b"]> ∅) = 0
  ∧ navigations
      (handleSubmit (world_of session_db (Some alice) [] no_generator,
                     answering_page)).2.1
    = [ResultsPage (Some 0) 1 2].
Proof. split; [|split]; vm_compute; reflexivity. Qed.

(** The scenario of the specification: five questions on Mathematics
    at the Intermediate level, all answered, three of them correctly.
    The attempt is stored with score 3 of 5, the five question rows
    are stored in order, the results page gets 3 of 5, and the history
    shows 60. *)
Example three_of_five_session :
  let s := run [Answer "B"; Next; Answer "A"; Next; Answer "A"; Next;
                Answer "D"; Next; Answer "B"; Submit]
               (generateQuiz "Intermediate" ["Mathematics"] 5
                  (world_of empty_db (Some alice) [] five_generated, initial)).2 in
  navigations s.1 = [ResultsPage (Some 0) 3 5]
  ∧ toasts s.1 = []
  ∧ (λ r, (score r, total_questions r)) <$> quiz_attempts (db s.1) !! 0
    = Some (3%Z, 5%Z)
  ∧ map user_answer (quiz_questions (db s.1))
    = [Some "B"; Some "A"; Some "A"; Some "D"; Some "B"]
  ∧ Performance.calculateStats (map_to_list (quiz_attempts (db s.1)))
    = Performance.mkStats 1 (JsNumber.of_Z 60) (JsNumber.of_Z 60).
Proof. repeat split; vm_compute; reflexivity. Qed.

(** Without one of the three selections the page goes back to the
    dashboard and asks for nothing. *)
Example mount_without_selection w p subs qc :
  mount None subs qc (w, p) = (Normal (), (add_navigation Dashboard w, p))
  ∧ mount (Some "Beginner") subs None (w, p)
    = (Normal (), (add_navigation Dashboard w, p)).
Proof. split; [reflexivity|]. by destruct subs. Qed.

(** The row level policies of the migration on their own grant the
    owner neither UPDATE nor DELETE on attempts: the score update then
    matches no row, without an error, and so does the delete of the
    history; both pages report success. *)
Example migration_policies_alone :
  let d := mkDB migration_policies {[alice]} (<[0 := attempt_of alice 0 2 0]> ∅)
                [] 1 in
  let s := (handleSubmit (world_of d (Some alice) [] no_generator,
                          answering_page)).2 in
  let c := (Performance.clearHistory
              (world_of d (Some alice) [] no_generator,
               Performance.initial)).2 in
  navigations s.1 = [ResultsPage (Some 0) 1 2]
  ∧ score <$> quiz_attempts (db s.1) !! 0 = Some 0%Z
  ∧ toasts c.1 = [ToastSuccess "Performance history cleared successfully"]
  ∧ is_Some (quiz_attempts (db c.1) !! 0).
Proof. repeat split; try (vm_compute; reflexivity). vm_compute. by eexists. Qed.

(** C4, at a failing input: the transport fails on the first question
    insert. The row of the first question is never stored, the user
    sees no toast, the console has no error line, and the page goes
    on to the results with the score; only the second question is in
    the store. A failing score update, in contrast, is reported and
    keeps the user on the page. *)
Theorem handleSubmit_insert_failure_unreported :
  let w := world_of session_db (Some alice) [Some (mkErr "Failed to fetch")]
                    no_generator in
  let s := (handleSubmit (w, answering_page)).2 in
  toasts s.1 = []
  ∧ console s.1 = ["Quiz completed! Score: 1/2"]
  ∧ navigations s.1 = [ResultsPage (Some 0) 1 2]
  ∧ map question_text (quiz_questions (db s.1)) = ["What is 3 * 3?"]
  ∧ let w2 := world_of session_db (Some alice)
                       [None; None; Some (mkErr "Failed to fetch")]
                       no_generator in
    let s2 := (handleSubmit (w2, answering_page)).2 in
    toasts s2.1 = [ToastError "Failed to save score. Please try again."]
    ∧ navigations s2.1 = [].
Proof. repeat split; vm_compute; reflexivity. Qed.

End QuizProofs.

(** ** The history *)

Section HistoryProofs.
Import Store Client Performance Scenario.
Local Open Scope eff_scope.

Lemma filter_none {X} (P : X → Prop) `{!∀ x, Decision (P x)} (l : list X) :
  (∀ x, x ∈ l → ¬ P x) → filter P l = [].
Proof.
  intros Hno. destruct (filter P l) as [|x l'] eqn:E; [done|].
  assert (x ∈ filter P l) as [HP Hin]%list_elem_of_filter
    by (rewrite E; apply list_elem_of_here).
  by destruct (Hno x Hin).
Qed.

(** The store after the owner's [DELETE], the policy granting it. *)
Lemma delete_attempts_spec owner d :
  attempts_delete_own (policies d) = true →
  let d' := (delete_attempts owner (Some owner) d).2 in
  (∀ id r, quiz_attempts d !! id = Some r → user_id r = owner →
           quiz_attempts d' !! id = None
           ∧ ∀ q, q ∈ quiz_questions d' → attempt_id q ≠ id)
  ∧ (∀ id r, quiz_attempts d !! id = Some r → user_id r ≠ owner →
             quiz_attempts d' !! id = Some r
             ∧ ∀ q, q ∈ quiz_questions d → attempt_id q = id →
                    q ∈ quiz_questions d')
  ∧ (∀ id r, quiz_attempts d' !! id = Some r → user_id r ≠ owner).
Proof.
  intros Hpol d'. subst d'. unfold delete_attempts. cbn [snd].
  unfold set_questions, set_attempts. cbn [quiz_attempts quiz_questions].
  assert (∀ r, deleted_by owner (Some owner) d r = true ↔ user_id r = owner)
    as Hdel.
  { intros r. unfold deleted_by, owns. rewrite Hpol, andb_true_r.
    rewrite andb_true_iff, !bool_decide_eq_true. split; [by intros []|].
    by intros ->. }
  split; [|split].
  - intros id r Hid Hr. split.
    + apply map_lookup_filter_None. right. intros r' Hid'. cbn [snd].
      assert (r' = r) as -> by congruence.
      apply not_false_iff_true, Hdel, Hr.
    + intros q [Hq _]%list_elem_of_filter Heq. rewrite Heq in Hq.
      apply map_lookup_filter_None in Hq as [Hq | Hq]; [congruence|].
      apply (Hq r Hid). apply Hdel, Hr.
  - intros id r Hid Hr. split.
    + apply map_lookup_filter_Some. split; [done|]. cbn [snd].
      apply not_true_iff_false. by rewrite Hdel.
    + intros q Hq Hqid. apply list_elem_of_filter. split; [|done].
      apply map_lookup_filter_None. right. intros r' Hid'. cbn [snd].
      rewrite Hqid in Hid'. assert (r' = r) as -> by congruence.
      by rewrite Hdel.
  - intros id r [_ Hr]%map_lookup_filter_Some. cbn [snd] in Hr.
    apply not_true_iff_false in Hr. by rewrite Hdel in Hr.
Qed.

(** What the two listing pages show when their request reaches the
    store. *)
Lemma fetchAttempts_lists w p l :
  next_fault w = None →
  (select_attempts (session w) (db w)).1 = inr l →
  ∃ w', fetchAttempts (w, p) = (Normal (), (w', mkState l false None)).
Proof.
  intros Hfault Hl.
  destruct (request_cases select_attempts w (mkState (attempts p) (loading p) None))
    as (r & w1 & Hreq & _ & _ & Hdb).
  rewrite Hfault in Hdb.
  assert (r = inr l) as ->.
  { rewrite <- Hl. by rewrite <- Hdb. }
  unfold fetchAttempts, finally, try_catch, bind at 1, setError, modify_page.
  cbn [fst snd]. unfold bind at 1. rewrite Hreq.
  eexists. reflexivity.
Qed.

Lemma fetchResults_lists w p a l :
  next_fault w = None →
  (select_questions a (session w) (db w)).1 = inr l →
  ∃ w', Results.fetchResults a (w, p) = (Normal (), (w', Results.mkState l false)).
Proof.
  intros Hfault Hl.
  destruct (request_cases (select_questions a) w p)
    as (r & w1 & Hreq & _ & _ & Hdb).
  rewrite Hfault in Hdb.
  assert (r = inr l) as ->.
  { rewrite <- Hl. by rewrite <- Hdb. }
  unfold Results.fetchResults, finally, try_catch, bind at 1. rewrite Hreq.
  eexists. reflexivity.
Qed.

(** C9. In the store the migration declares, clearing the history
    removes nothing. Alice has four attempts, each with a question
    row, and the performance page holds them. She clears her history
    and the request reaches the store: the page reports success and
    holds no attempt, but the store is what it was, since row level
    security is on and no policy lets anybody delete from
    [quiz_attempts]. Her list of attempts still has the four
    attempts, which the page shows again at its next
    [fetchAttempts], and the list of questions of each of them still
    has its row. With a DELETE policy for the owner, like the SELECT
    and INSERT policies the migration does declare, the same click
    leaves neither an attempt of hers nor, by the cascade, a question
    row of hers in the two tables, and Bob's rows stay. *)
Theorem clearHistory_removes_nothing_as_declared :
  let held := [(4, attempt_of alice 2 5 8); (3, attempt_of alice 0 5 6);
               (1, attempt_of alice 5 5 2); (0, attempt_of alice 3 5 0)] in
  let s := (clearHistory
              (world_of declared_history_db (Some alice) [] no_generator,
               mkState held false None)).2 in
  let s' := (clearHistory
               (world_of history_db (Some alice) [] no_generator,
                mkState held false None)).2 in
  (select_attempts (Some alice) declared_history_db).1 = inr held
  ∧ toasts s.1 = [ToastSuccess "Performance history cleared successfully"]
  ∧ attempts s.2 = []
  ∧ db s.1 = declared_history_db
  ∧ (select_attempts (Some alice) (db s.1)).1 = inr held
  ∧ attempts (fetchAttempts s).2.2 = held
  ∧ (select_questions (Some 0) (Some alice) (db s.1)).1 = inr [question_of 0 1]
  ∧ (select_questions (Some 1) (Some alice) (db s.1)).1 = inr [question_of 1 3]
  ∧ (select_questions (Some 3) (Some alice) (db s.1)).1 = inr [question_of 3 7]
  ∧ (select_questions (Some 4) (Some alice) (db s.1)).1 = inr [question_of 4 9]
  ∧ toasts s'.1 = [ToastSuccess "Performance history cleared successfully"]
  ∧ map_to_list (quiz_attempts (db s'.1)) = [(2, attempt_of bob 1 5 4)]
  ∧ quiz_questions (db s'.1) = [question_of 2 5].
Proof. repeat split; vm_compute; reflexivity. Qed.

End HistoryProofs.

(** ** The generator *)

Section GeneratorProofs.
Import Store Client Json GenerateQuiz Scenario.
Local Open Scope Z_scope.

Variable JSON_parse : string → Err + Json.

Lemma key_cases (key : option string) :
  (key = None ∨ key = Some "") ∨ ∃ k, key = Some k ∧ k ≠ "".
Proof.
  destruct key as [[|c k]|]; [by left; right | right | by left; left].
  by exists (String c k).
Qed.

Lemma generate_with_key key fetch m b k :
  key = Some k → k ≠ "" →
  generate JSON_parse key fetch (mkRequest m (Some b))
  = (match fetch (gateway_request k b) with
     | NetworkError e => inl e
     | HttpResponse st json =>
         if negb (ok st) then
           if bool_decide (st = 429) then
             inr (error_response 429 "Rate limit exceeded. Please try again later.")
           else if bool_decide (st = 402) then
             inr (error_response 402
                    "Payment required. Please add credits to your workspace.")
           else inl (mkErr ("AI Gateway error: " +:+ pretty st))
         else
           data ← json;
           generatedText ← generated_text data;
           questions ← JSON_parse (clean generatedText);
           inr (mkResponse 200 (Some (JObject [("questions", questions)])))
     end, [gateway_request k b]).
Proof. intros -> Hk. unfold generate. cbn [body]. by destruct k. Qed.


(** Closes a case in which the answer is an error: its status is not
    200, and the conditions of a success contradict the case. *)
Ltac no_success k :=
  let k' := fresh "k" in
  let Hk' := fresh "Hk" in
  intros [= <- <-]; split; [done|];
  intros (k' & ? & ? & ? & ? & Hk' & _ & ? & _ & ? & ? & _);
  assert (k' = k) as -> by congruence; congruence.

(** C3, as amended. The function answers 200 exactly when the key is
    configured, the gateway answers with a status in 200..299 and a
    JSON body whose first choice carries a text, and that text, its
    code fences removed and trimmed, parses; the answer is then the
    parsed value itself under [questions], after a single call to the
    gateway. Nothing about the value is checked: neither that it is
    an array, nor how many elements it has, nor what they hold. *)
Theorem generator_returns_parsed_text key fetch m b resp calls :
  m ≠ "OPTIONS" →
  serve JSON_parse key fetch (mkRequest m (Some b)) = (resp, calls) →
  status resp = 200
  ↔ ∃ k st data text v,
      key = Some k ∧ k ≠ ""
      ∧ fetch (gateway_request k b) = HttpResponse st (inr data)
      ∧ ok st = true
      ∧ generated_text data = inr text
      ∧ JSON_parse (clean text) = inr v
      ∧ resp = mkResponse 200 (Some (JObject [("questions", v)]))
      ∧ calls = [gateway_request k b].
Proof.
  intros Hm. unfold serve. cbn [method].
  rewrite bool_decide_eq_false_2 by done.
  destruct (key_cases key) as [Hkey | (k & Hkey & Hk)].
  - assert (generate JSON_parse key fetch (mkRequest m (Some b))
            = (inl (mkErr "LOVABLE_API_KEY is not configured"), [])) as ->.
    { unfold generate. cbn [body]. by destruct Hkey as [-> | ->]. }
    intros [= <- <-]. split; [done|].
    intros (k & ? & ? & ? & ? & -> & Hne & _).
    destruct Hkey as [? | [= ?]]; congruence.
  - rewrite (generate_with_key key fetch m b k Hkey Hk).
    destruct (fetch (gateway_request k b)) as [e | st json] eqn:Hfetch;
      [no_success k|].
    destruct (ok st) eqn:Hok; cbn [negb].
    + destruct json as [e | data]; cbn [mbind err_bind]; [no_success k|].
      destruct (generated_text data) as [e | text] eqn:Ht;
        cbn [mbind err_bind]; [no_success k|].
      destruct (JSON_parse (clean text)) as [e | v] eqn:Hp; [no_success k|].
      intros [= <- <-]. split; [|done]. intros _.
      by exists k, st, data, text, v.
    + unfold ok in Hok.
      repeat case_bool_decide; intros [= <- <-];
        (split; [simpl; lia|]);
        intros (k' & ? & ? & ? & ? & Hk' & _ & Hf & Hok' & _);
        assert (k' = k) as -> by congruence; unfold ok in Hok'; congruence.
Qed.
End GeneratorProofs.

Section GeneratorExamples.
Import Store Client Json GenerateQuiz Scenario.
Local Open Scope Z_scope.

(** C3, as stated, fails. Five questions are asked for, with valid
    inputs; the gateway's text is a fenced array with one question
    that has an empty text, a single option and a correct answer
    that is no label. The function answers 200 with that one
    question. *)
Lemma generator_does_not_validate :
  serve parse_json (Some "key") (answering 200 malformed_answer)
        (mkRequest "POST" (Some five_questions))
  = (mkResponse 200 (Some (JObject [("questions", JArray [malformed_question])])),
     [gateway_request "key" five_questions])
  ∧ valid_input five_questions
  ∧ Z.of_nat (length [malformed_question]) ≠ b_questionCount five_questions
  ∧ valid_question malformed_question = false.
Proof.
  split; [vm_compute; reflexivity|]. split; [|split; [|reflexivity]].
  - repeat split; [discriminate | reflexivity..].
  - simpl. discriminate.
Qed.

(** The same run, read through the amended statement. *)
Lemma generator_returns_parsed_text_witness :
  "POST" ≠ "OPTIONS"
  ∧ serve parse_json (Some "key") (answering 200 malformed_answer)
          (mkRequest "POST" (Some five_questions))
    = (mkResponse 200 (Some (JObject [("questions", JArray [malformed_question])])),
       [gateway_request "key" five_questions])
  ∧ ∃ k st data text v,
      Some "key" = Some k ∧ k ≠ ""
      ∧ answering 200 malformed_answer (gateway_request k five_questions)
        = HttpResponse st (inr data)
      ∧ ok st = true
      ∧ generated_text data = inr text
      ∧ parse_json (clean text) = inr v
      ∧ mkResponse 200 (Some (JObject [("questions", JArray [malformed_question])]))
        = mkResponse 200 (Some (JObject [("questions", v)]))
      ∧ [gateway_request "key" five_questions] = [gateway_request k five_questions].
Proof.
  assert ("POST" ≠ "OPTIONS") as Hm by discriminate.
  assert (serve parse_json (Some "key") (answering 200 malformed_answer)
                (mkRequest "POST" (Some five_questions))
          = (mkResponse 200
               (Some (JObject [("questions", JArray [malformed_question])])),
             [gateway_request "key" five_questions])) as Hrun
    by (vm_compute; reflexivity).
  split; [exact Hm|]. split; [exact Hrun|].
  exact (proj1 (generator_returns_parsed_text parse_json (Some "key")
                  (answering 200 malformed_answer) "POST" five_questions
                  _ _ Hm Hrun)
               eq_refl).
Defined.


(** Without a key, both the absent and the empty one, no call is made. *)
Example generator_without_key :
  serve parse_json None (answering 200 "[]") (mkRequest "POST" (Some five_questions))
  = (error_response 500 "LOVABLE_API_KEY is not configured", [])
  ∧ serve parse_json (Some "") (answering 200 "[]")
          (mkRequest "POST" (Some five_questions))
    = (error_response 500 "LOVABLE_API_KEY is not configured", []).
Proof. split; reflexivity. Qed.

(** A text that is no JSON, a gateway that is down, a completion
    without choices: 500 each time, after a single call. *)
Example generator_upstream_errors :
  serve parse_json (Some "key") (answering 200 "Sorry, no quiz today.")
        (mkRequest "POST" (Some five_questions))
  = (error_response 500 "Unexpected token in JSON",
     [gateway_request "key" five_questions])
  ∧ serve parse_json (Some "key") (λ _, HttpResponse 503 (inl syntax_error))
          (mkRequest "POST" (Some five_questions))
    = (error_response 500 "AI Gateway error: 503",
       [gateway_request "key" five_questions])
  ∧ serve parse_json (Some "key") (λ _, HttpResponse 200 (inr (JObject [])))
          (mkRequest "POST" (Some five_questions))
    = (error_response 500 "Cannot read properties of undefined",
       [gateway_request "key" five_questions]).
Proof. repeat split; vm_compute; reflexivity. Qed.

(** The clean-up removes the fences and the surrounding white space. *)
Example clean_fenced_text :
  clean (fence +:+ "json" +:+ nl +:+ "[1, 2]" +:+ nl +:+ fence +:+ nl) = "[1, 2]"
  ∧ clean ("  [ ]  ") = "[ ]"
  ∧ clean (fence +:+ fence +:+ "json[" +:+ fence +:+ nl +:+ nl +:+ "]" +:+ fence)
    = "[" +:+ nl +:+ "]".
Proof. repeat split; vm_compute; reflexivity. Qed.

End GeneratorExamples.

(** ** Attempts without questions *)

Section EmptyQuizProofs.
Import JsNumber Store Client Json GenerateQuiz Scenario.
Local Open Scope eff_scope.

Lemma percentage_zero_of_zero :
  Performance.percentage (of_Z 0) (of_Z 0) = NaN.
Proof. reflexivity. Qed.

(** C10. An attempt without questions can be created: when the
    gateway's text is the empty array the function answers 200 with
    an empty list of questions, and when the page receives an empty
    list (with a signed-in user, a level the table accepts and a
    request that reaches the store) it creates a new attempt with
    [total_questions = 0] and [score = 0]. Every history that holds
    such an attempt is not empty, so the guard of [calculateStats]
    does not apply, and its [bestScore] is NaN: the quotient [0 / 0]
    of that attempt is NaN and [Math.max] of a list with a NaN is
    NaN. *)
Theorem empty_quiz_attempt_breaks_best_score :
  serve parse_json (Some "key") (answering 200 "[]")
        (mkRequest "POST" (Some five_questions))
  = (mkResponse 200 (Some (JObject [("questions", JArray [])])),
     [gateway_request "key" five_questions])
  ∧ (∀ w sl subs qc uid,
       generate_quiz w (mkInvokeBody (Quiz.subject_of subs) sl qc)
       = Resolved (Some (mkInvokeData (Some []))) None →
       session w = Some uid → next_fault w = None →
       skill_level_ok sl = true → int4_ok qc = true → uid ∈ profiles (db w) →
       ∃ w' p' id row,
         Quiz.generateQuiz sl subs qc (w, Quiz.initial) = (Normal (), (w', p'))
         ∧ quiz_attempts (db w) !! id = None
         ∧ quiz_attempts (db w') = <[id := row]> (quiz_attempts (db w))
         ∧ Quiz.attemptId p' = Some id
         ∧ user_id row = uid
         ∧ total_questions row = 0%Z
         ∧ score row = 0%Z)
  ∧ (∀ attempts a,
       a ∈ attempts → total_questions a.2 = 0%Z → score a.2 = 0%Z →
       attempts ≠ []
       ∧ Performance.bestScore (Performance.calculateStats attempts) = NaN).
Proof.
  split; [vm_compute; reflexivity|]. split.
  - intros w sl subs qc uid Hgen Hsession Hfault Hsl Hqc Hprofile.
    unfold Quiz.generateQuiz, finally, try_catch, bind at 1, Quiz.setLoading,
      modify_page. cbn [fst snd].
    unfold bind at 1, functions_invoke. cbn [fst snd]. rewrite Hgen.
    unfold bind at 1, Quiz.setQuestions, modify_page. cbn [fst snd].
    unfold bind at 1, getSession. cbn [fst snd]. rewrite Hsession.
    unfold bind at 1.
    match goal with |- context [request ?op ?s] =>
      destruct (request_cases op (fst s) (snd s))
        as (r & w1 & Hreq & Hs & Hf & Hdb);
      cbn [fst snd] in Hreq; rewrite Hreq
    end.
    cbn [fst snd] in Hdb. rewrite Hfault, Hsession in Hdb.
    unfold insert_attempt in Hdb. cbn [na_question_count na_total_questions
      na_user_id na_skill_level length] in Hdb.
    rewrite Hqc, Hsl in Hdb. cbn [int4_ok andb negb owns user_id] in Hdb.
    rewrite (bool_decide_eq_true_2 (uid = uid)) in Hdb by done.
    rewrite (bool_decide_eq_true_2 _ Hprofile) in Hdb.
    cbn [negb andb] in Hdb. change (int4_ok (Z.of_nat 0)) with true in Hdb.
    cbn [negb] in Hdb. injection Hdb as -> Hdb.
    eexists _, _, _, _. split; [reflexivity|]. cbn [fst snd db Quiz.attemptId].
    simpl. rewrite Hdb. simpl.
    split; [apply not_elem_of_dom, is_fresh|]. done.
  - intros attempts a Hin Htotal Hscore.
    assert (attempts ≠ []) as Hne by (by intros ->; apply elem_of_nil in Hin).
    split; [exact Hne|].
    unfold Performance.calculateStats.
    destruct attempts as [|b l]; [done|]. cbn [length Nat.eqb Performance.bestScore].
    apply Math_max_from_nan, in_map_iff. exists a.
    rewrite Htotal, Hscore. split; [exact percentage_zero_of_zero|].
    by apply list_elem_of_In.
Qed.

(** Alice starts a quiz for which no question comes back, and a
    history with such an attempt. *)
Lemma empty_quiz_attempt_breaks_best_score_witness :
  (∃ w' p' id row,
     Quiz.generateQuiz "Beginner" ["Science"] 5
       (world_of empty_db (Some alice) [] no_questions, Quiz.initial)
     = (Normal (), (w', p'))
     ∧ quiz_attempts empty_db !! id = None
     ∧ quiz_attempts (db w') = <[id := row]> (quiz_attempts empty_db)
     ∧ Quiz.attemptId p' = Some id
     ∧ user_id row = alice
     ∧ total_questions row = 0%Z
     ∧ score row = 0%Z)
  ∧ Performance.bestScore (Performance.calculateStats empty_attempt_history) = NaN.
Proof.
  split.
  - apply (proj1 (proj2 empty_quiz_attempt_breaks_best_score)
             (world_of empty_db (Some alice) [] no_questions)
             "Beginner" ["Science"] 5%Z alice); reflexivity.
  - apply (proj2 (proj2 empty_quiz_attempt_breaks_best_score)
             empty_attempt_history (1, attempt_of alice 0 0 1));
      [|reflexivity..].
    apply list_elem_of_In. right. left. reflexivity.
Defined.

End EmptyQuizProofs.

(** * Further properties *)

(** ** The quiz page, continued *)

Section QuizMoreProofs.
Import Store Client Quiz QuizView Scenario.
Local Open Scope eff_scope.

(** An event other than a submission changes the page only. *)
Lemma handle_in_memory e w p :
  e ≠ Submit →
  ∃ p', handle e (w, p) = (Normal (), (w, p'))
        ∧ questions p' = questions p ∧ attemptId p' = attemptId p
        ∧ loading p' = loading p.
Proof.
  intros He. destruct e as [v| | |]; [| | |done]; cbn [handle].
  - eexists. split; [reflexivity|]. done.
  - unfold handleNext, bind, get_page. cbn [fst snd].
    destruct (_ <? _)%Z; eexists; (split; [reflexivity|]); done.
  - unfold handlePrevious, bind, get_page. cbn [fst snd].
    destruct (_ <? _)%Z; eexists; (split; [reflexivity|]); done.
Qed.

Lemma run_cons e es s : run (e :: es) s = run es (handle e s).2.
Proof. reflexivity. Qed.

(** X1. Answering and moving are purely in memory: whatever the user
    answers and however the user moves, as long as nothing is
    submitted the world (the store, the pending failures, the toasts,
    the console, the navigations) is exactly what it was, and the page
    keeps its questions and its attempt. *)
Theorem answers_and_moves_stay_in_memory es w p :
  Submit ∉ es →
  (run es (w, p)).1 = w
  ∧ questions (run es (w, p)).2 = questions p
  ∧ attemptId (run es (w, p)).2 = attemptId p.
Proof.
  revert p. induction es as [|e es IH]; intros p Hno; [done|].
  apply not_elem_of_cons in Hno as [He Hes].
  destruct (handle_in_memory e w p) as (p' & Hstep & Hq & Ha & _); [done|].
  rewrite run_cons, Hstep. cbn [snd].
  destruct (IH p' Hes) as (? & ? & ?). repeat split; congruence.
Qed.

Lemma answers_and_moves_stay_in_memory_witness :
  (Submit ∉ [Answer "B"; Next; Answer "C"; Previous; Previous; Answer "D"])
  ∧ (run [Answer "B"; Next; Answer "C"; Previous; Previous; Answer "D"]
         (world_of session_db (Some alice) [Some (mkErr "Failed to fetch")]
                   no_generator, answering_page)).1
    = world_of session_db (Some alice) [Some (mkErr "Failed to fetch")]
               no_generator.
Proof.
  assert (Submit ∉ [Answer "B"; Next; Answer "C"; Previous; Previous; Answer "D"])
    as H.
  { intros H. repeat (apply elem_of_cons in H as [H|H]; [discriminate|]).
    by apply elem_of_nil in H. }
  split; [exact H|].
  exact (proj1 (answers_and_moves_stay_in_memory _ _ answering_page H)).
Defined.

Lemma run_app es1 es2 s : run (es1 ++ es2) s = run es2 (run es1 s).
Proof. unfold run. apply fold_left_app. Qed.

Lemma handleNext_cursor w p :
  ∃ p', handleNext (w, p) = (Normal (), (w, p'))
        ∧ questions p' = questions p
        ∧ currentQuestion p'
          = if decide (currentQuestion p + 1 < length (questions p))
            then currentQuestion p + 1 else currentQuestion p.
Proof.
  unfold handleNext, bind, get_page. cbn [fst snd].
  destruct (_ <? _)%Z eqn:E.
  - apply Z.ltb_lt in E. eexists. split; [reflexivity|]. simpl.
    split; [done|]. rewrite decide_True by lia. done.
  - apply Z.ltb_ge in E. exists p. split; [done|]. split; [done|].
    rewrite decide_False by lia. done.
Qed.

Lemma handlePrevious_cursor w p :
  ∃ p', handlePrevious (w, p) = (Normal (), (w, p'))
        ∧ questions p' = questions p
        ∧ currentQuestion p' = currentQuestion p - 1.
Proof.
  unfold handlePrevious, bind, get_page. cbn [fst snd].
  destruct (_ <? _)%Z eqn:E.
  - eexists. split; [reflexivity|]. done.
  - apply Z.ltb_ge in E. exists p. split; [done|]. split; [done|]. lia.
Qed.

(** X2. The cursor is clamped, it never wraps around: from a cursor on
    a question, [k] clicks on Next leave it [k] questions further or on
    the last question, whichever comes first, and [k] clicks on
    Previous leave it [k] questions back or on the first one. *)
Theorem repeated_moves_clamp k w p :
  currentQuestion p < length (questions p) →
  currentQuestion (run (replicate k Next) (w, p)).2
  = (currentQuestion p + k) `min` (length (questions p) - 1)
  ∧ currentQuestion (run (replicate k Previous) (w, p)).2
    = currentQuestion p - k.
Proof.
  intros Hin. split.
  - revert p Hin. induction k as [|k IH]; intros p Hin.
    + simpl. lia.
    + cbn [replicate]. rewrite run_cons. cbn [handle].
      destruct (handleNext_cursor w p) as (p' & -> & Hq & Hc). cbn [snd].
      rewrite IH, Hq, Hc; [|rewrite Hq, Hc; case_decide; lia].
      case_decide; lia.
  - revert p Hin. induction k as [|k IH]; intros p Hin.
    + simpl. lia.
    + cbn [replicate]. rewrite run_cons. cbn [handle].
      destruct (handlePrevious_cursor w p) as (p' & -> & Hq & Hc). cbn [snd].
      rewrite IH, Hc; [lia|]. rewrite Hq, Hc. lia.
Qed.

Lemma repeated_moves_clamp_witness :
  currentQuestion answering_page < length (questions answering_page)
  ∧ currentQuestion
      (run (replicate 5 Next)
           (world_of session_db (Some alice) [] no_generator, answering_page)).2 = 1
  ∧ currentQuestion
      (run (replicate 5 Previous)
           (world_of session_db (Some alice) [] no_generator, answering_page)).2 = 0.
Proof.
  assert (currentQuestion answering_page < length (questions answering_page))
    as H by (simpl; lia).
  split; [exact H|].
  exact (repeated_moves_clamp 5 (world_of session_db (Some alice) [] no_generator)
                              answering_page H).
Defined.

Lemma in_progress_size p :
  in_progress p → size (answers p) ≤ length (questions p).
Proof.
  intros [_ Hall].
  rewrite <- size_dom, <- (size_set_seq (C:=gset nat) 0 (length (questions p))).
  apply subseteq_size. intros i [v Hi]%elem_of_dom.
  apply elem_of_set_seq. destruct (Hall i v Hi). lia.
Qed.

Lemma view_in_progress p :
  in_progress p → loading p = false →
  view p = QuestionView (currentQuestion p + 1) (size (answers p))
                        (currentQuestion p =? 0)
                        (currentQuestion p + 1 =? length (questions p)).
Proof.
  intros [Hc _] Hl. unfold view. rewrite Hl.
  destruct (length (questions p)) as [|n] eqn:Hn; [lia|]. cbn [Nat.eqb].
  f_equal. destruct (Nat.eqb_spec (currentQuestion p + 1) (S n)).
  - apply Z.eqb_eq. lia.
  - apply Z.eqb_neq. lia.
Qed.

(** One offered event: the buttons do what they show. *)
Lemma offered_step e w p :
  in_progress p → loading p = false → offered p e →
  ∃ w' p', handle e (w, p) = (Normal (), (w', p'))
           ∧ in_progress p' ∧ loading p' = false
           ∧ questions p' = questions p
           ∧ (e = Next → currentQuestion p' = currentQuestion p + 1)
           ∧ (e = Previous → currentQuestion p' + 1 = currentQuestion p)
           ∧ (e = Submit → currentQuestion p + 1 = length (questions p)).
Proof.
  intros Hin Hl Hoff. unfold offered in Hoff.
  rewrite (view_in_progress p Hin Hl) in Hoff.
  destruct Hin as [Hc Hall]. destruct e as [v| | |]; cbn [handle].
  - eexists _, _. split; [reflexivity|]. simpl.
    split; [|done]. split; [done|].
    apply map_Forall_insert_2; [done|exact Hall].
  - apply Nat.eqb_neq in Hoff.
    destruct (handleNext_cursor w p) as (p' & Hstep & Hq & Hcur).
    rewrite decide_True in Hcur by lia.
    assert (answers p' = answers p ∧ loading p' = loading p) as [Ha Hl'].
    { unfold handleNext, bind, get_page in Hstep. cbn [fst snd] in Hstep.
      destruct (_ <? _)%Z; injection Hstep as <-; done. }
    exists w, p'. split; [done|].
    split; [split; [rewrite Hq, Hcur; lia | rewrite Hq, Ha; exact Hall]|].
    split; [congruence|]. split; [done|]. split; [done|]. by split.
  - apply Nat.eqb_neq in Hoff.
    destruct (handlePrevious_cursor w p) as (p' & Hstep & Hq & Hcur).
    assert (answers p' = answers p ∧ loading p' = loading p) as [Ha Hl'].
    { unfold handlePrevious, bind, get_page in Hstep. cbn [fst snd] in Hstep.
      destruct (_ <? _)%Z; injection Hstep as <-; done. }
    exists w, p'. split; [done|].
    split; [split; [rewrite Hq, Hcur; lia | rewrite Hq, Ha; exact Hall]|].
    split; [congruence|]. split; [done|]. split; [done|].
    split; [intros _; lia | done].
  - apply Nat.eqb_eq in Hoff.
    destruct (handleSubmit_spec w p) as (w1 & r & w2 & _ & _ & _ & _ & _ & _ & _ & _ & ->).
    eexists _, p. split; [reflexivity|]. split; [by split|].
    split; [done|]. split; [done|]. split; [done|]. split; [done|].
    intros _. lia.
Qed.

(** X3. The buttons the page shows match what their handlers do. On a
    page showing a question, with answers recorded for its questions:
    exactly one of Next and Submit is offered, Submit on the last
    question only; an offered Next moves one question forward and an
    offered Previous one question back (a shown, enabled button is
    never without effect); and after any sequence of offered events
    the page still shows a question, every recorded answer is an
    option key recorded for one of the questions, and the number of
    answers shown is at most the number of questions. *)
Theorem offered_events_keep_progress es w p :
  in_progress p → loading p = false → offered_run es (w, p) →
  (offered p Next ↔ ¬ offered p Submit)
  ∧ (offered p Submit ↔ currentQuestion p + 1 = length (questions p))
  ∧ (offered p Next →
     currentQuestion (handle Next (w, p)).2.2 = currentQuestion p + 1)
  ∧ (offered p Previous →
     currentQuestion (handle Previous (w, p)).2.2 + 1 = currentQuestion p)
  ∧ in_progress (run es (w, p)).2
  ∧ size (answers (run es (w, p)).2) ≤ length (questions p)
  ∧ ∃ n a d s, view (run es (w, p)).2 = QuestionView n a d s.
Proof.
  intros Hin Hl Hrun.
  assert (offered p Submit ↔ currentQuestion p + 1 = length (questions p)) as Hs.
  { unfold offered. rewrite (view_in_progress p Hin Hl). apply Nat.eqb_eq. }
  assert (offered p Next ↔ ¬ offered p Submit) as Hn.
  { unfold offered. rewrite (view_in_progress p Hin Hl).
    destruct (_ =? _); split; try done. }
  split; [exact Hn|]. split; [exact Hs|]. split; [|split].
  - intros Hoff. destruct (offered_step Next w p Hin Hl Hoff)
      as (w' & p' & -> & _ & _ & _ & Hc & _). by apply Hc.
  - intros Hoff. destruct (offered_step Previous w p Hin Hl Hoff)
      as (w' & p' & -> & _ & _ & _ & _ & Hc & _). by apply Hc.
  - assert (in_progress (run es (w, p)).2
            ∧ loading (run es (w, p)).2 = false
            ∧ questions (run es (w, p)).2 = questions p) as (Hin' & Hl' & Hq').
    { clear Hs Hn. revert w p Hin Hl Hrun.
      induction es as [|e es IH]; intros w p Hin Hl Hrun; [done|].
      destruct Hrun as [Hoff Hrun].
      destruct (offered_step e w p Hin Hl Hoff)
        as (w' & p' & Hstep & Hin' & Hl' & Hq & _).
      rewrite run_cons. rewrite Hstep in Hrun |- *. cbn [snd] in *.
      destruct (IH w' p' Hin' Hl' Hrun) as (? & ? & ?).
      split; [done|]. split; [done|]. congruence. }
    split; [exact Hin'|]. split.
    + rewrite <- Hq'. by apply in_progress_size.
    + rewrite (view_in_progress _ Hin' Hl'). by eexists _, _, _, _.
Qed.

Lemma offered_events_keep_progress_witness :
  in_progress answering_page
  ∧ loading answering_page = false
  ∧ offered_run [Answer "D"; Previous; Answer "A"; Next; Submit]
                (world_of session_db (Some alice) [] no_generator, answering_page)
  ∧ size (answers
            (run [Answer "D"; Previous; Answer "A"; Next; Submit]
                 (world_of session_db (Some alice) [] no_generator,
                  answering_page)).2) ≤ 2.
Proof.
  assert (in_progress answering_page) as Hin.
  { split; [simpl; lia|].
    apply map_Forall_insert_2; [split; [simpl; lia|set_solver]|].
    apply map_Forall_insert_2; [split; [simpl; lia|set_solver]|].
    apply map_Forall_empty. }
  assert (offered_run [Answer "D"; Previous; Answer "A"; Next; Submit]
            (world_of session_db (Some alice) [] no_generator, answering_page))
    as Hrun.
  { vm_compute. repeat split; apply list_elem_of_In; simpl; tauto. }
  split; [exact Hin|]. split; [reflexivity|]. split; [exact Hrun|].
  exact (proj1 (proj2 (proj2 (proj2 (proj2 (proj2
           (offered_events_keep_progress _ _ answering_page Hin eq_refl Hrun))))))).
Defined.

End QuizMoreProofs.

(** ** From the submission to the review *)

Section SubmissionProofs.
Import Store Client Quiz Schema Submission Scenario.
Local Open Scope eff_scope.

Lemma order_by_sorted {X} (le : X → X → bool) (l : list X) :
  sorted_by le l → order_by le l = l.
Proof.
  induction l as [|x l IH]; [done|]. intros [Hx Hl].
  unfold order_by in *. cbn [foldr]. rewrite (IH Hl).
  destruct l as [|y l']; [done|]. cbn [insert_by].
  inversion Hx as [|? ? Hy _]; subst. by rewrite Hy.
Qed.

Lemma filter_all {X} (P : X → Prop) `{!∀ x, Decision (P x)} (l : list X) :
  (∀ x, x ∈ l → P x) → filter P l = l.
Proof.
  induction l as [|x l IH]; intros Hall; [done|].
  rewrite filter_cons, decide_True by (apply Hall; left).
  f_equal. apply IH. intros y Hy. apply Hall. by right.
Qed.

Lemma drop_cons_inv {X} (l : list X) i x l' :
  drop i l = x :: l' → l !! i = Some x ∧ drop (S i) l = l'.
Proof.
  intros H. split.
  - rewrite <- (Nat.add_0_r i), <- lookup_drop, H. done.
  - replace (S i) with (i + 1) by lia. rewrite <- drop_drop, H. done.
Qed.

(** The loop of [handleSubmit] when every request reaches the store
    and the attempt of the page belongs to the user: the rows of the
    questions are appended, in the order of the questions. *)
Lemma submit_loop_rows p a uid r qs' i score w :
  attemptId p = Some a → session w = Some uid →
  quiz_attempts (db w) !! a = Some r → user_id r = uid → faults w = [] →
  drop i (questions p) = qs' →
  ∃ s' w', submit_loop p (seq i (length qs')) score (w, p)
           = (Normal s', (w', p))
    ∧ faults w' = []
    ∧ db w' = mkDB (policies (db w)) (profiles (db w)) (quiz_attempts (db w))
                   (quiz_questions (db w)
                      ++ rows_from a (answers p) (clock (db w)) i qs')
                   (clock (db w)
                    + length (rows_from a (answers p) (clock (db w)) i qs')).
Proof.
  intros Hatt Hsess Hr Hown. revert i score w Hsess Hr.
  induction qs' as [|q qs' IH]; intros i score w Hsess Hr Hf Hdrop.
  - exists score, w. split; [done|]. split; [done|].
    destruct (db w). simpl. by rewrite app_nil_r, Nat.add_0_r.
  - apply drop_cons_inv in Hdrop as [Hq Hdrop].
    cbn [length seq submit_loop]. rewrite Hq. unfold bind at 1.
    destruct (request_cases
                (insert_question
                   (mkNewQuestion (attemptId p) (question q) (options q)
                      (correct_answer q) (or_null (answers p !! i))
                      (explanation q))) w p)
      as (res & w1 & -> & Hscreen & Hfaults & Hdb).
    unfold next_fault in Hdb. rewrite Hf in Hdb, Hfaults.
    unfold insert_question in Hdb.
    cbn [nq_attempt_id nq_question_text nq_options nq_correct_answer
         nq_user_answer nq_explanation] in Hdb.
    rewrite Hatt, Hsess, Hr in Hdb. cbn [owns] in Hdb.
    rewrite bool_decide_true in Hdb by done. cbn [negb] in Hdb.
    destruct Hscreen as (Hsess1 & _).
    cbn [rows_from]. unfold row_of at 1 2.
    destruct (column_text (question q)) as [text|],
             (options q) as [opts|],
             (column_text (correct_answer q)) as [correct|];
      injection Hdb as -> Hdb1;
      (destruct (IH (S i)
                    (if strict_equal (answers p !! i) (correct_answer q)
                     then (score + 1)%Z else score) w1)
         as (s' & w' & -> & Hf' & Hdb');
       [congruence | by rewrite Hdb1 | done | done |]);
      exists s', w'; (split; [done|]); (split; [done|]);
      rewrite Hdb', Hdb1; try done.
    cbn. rewrite <- app_assoc. f_equal. lia.
Qed.

Lemma rows_from_sorted a ans t i qs :
  sorted_by (λ x y, q_created_at x <=? q_created_at y)
            (rows_from a ans t i qs)
  ∧ Forall (λ row, attempt_id row = a ∧ t ≤ q_created_at row)
           (rows_from a ans t i qs).
Proof.
  revert t i. induction qs as [|q qs IH]; intros t i; [done|].
  cbn [rows_from]. unfold row_of.
  destruct (column_text (question q)) as [text|],
           (options q) as [opts|],
           (column_text (correct_answer q)) as [correct|];
    try apply IH.
  destruct (IH (S t) (S i)) as [Hs Hall].
  split; [split; [|exact Hs]|].
  - eapply Forall_impl; [exact Hall|]. intros row [_ Ht]. simpl.
    apply Nat.leb_le. lia.
  - constructor; [simpl; split; [done|lia]|].
    eapply Forall_impl; [exact Hall|]. intros row [? ?]. split; [done|lia].
Qed.

Lemma well_formed_row a ans t i q :
  well_formed q → is_Some (row_of a ans t i q).
Proof.
  intros ([text Ht] & [opts Ho] & c & Hc & _). unfold row_of.
  rewrite Ht, Ho, Hc. by eexists.
Qed.

(** For well-formed questions there is one row per question. *)
Lemma rows_from_well_formed a ans t i qs :
  Forall well_formed qs →
  length (rows_from a ans t i qs) = length qs
  ∧ ∀ j q, qs !! j = Some q →
           ∃ row, rows_from a ans t i qs !! j = Some row
                  ∧ row_of a ans (t + j) (i + j) q = Some row.
Proof.
  intros Hall. revert t i.
  induction Hall as [|q qs Hq Hqs IH]; intros t i; [done|].
  cbn [rows_from]. destruct (well_formed_row a ans t i q Hq) as [row Hrow].
  rewrite Hrow. destruct (IH (S t) (S i)) as [Hlen Hlook].
  split; [cbn [length]; by rewrite Hlen|].
  intros [|j] q' Hj.
  - injection Hj as <-. exists row. by rewrite !Nat.add_0_r.
  - destruct (Hlook j q' Hj) as (row' & ? & Hrow'). exists row'.
    split; [done|]. by replace (t + S j) with (S t + j) by lia;
      replace (i + S j) with (S i + j) by lia.
Qed.

Lemma rows_from_correct qs a_id ans t i qs' :
  Forall well_formed qs →
  drop i qs = qs' →
  length (filter (λ q, Review.isCorrect q = true) (rows_from a_id ans t i qs'))
  = length (filter (λ j, is_match qs ans j = true) (seq i (length qs'))).
Proof.
  intros Hwf. revert t i.
  induction qs' as [|q qs' IH]; intros t i Hdrop; [done|].
  apply drop_cons_inv in Hdrop as [Hq Hdrop].
  assert (well_formed q) as ([text Ht] & [opts Ho] & c & Hc & Hne).
  { eapply Forall_forall in Hwf; [exact Hwf|]. by eapply list_elem_of_lookup_2. }
  cbn [rows_from length seq]. unfold row_of. rewrite Ht, Ho, Hc.
  cbn [column_text]. rewrite !filter_cons.
  assert (Review.isCorrect
            (mkQuestionRow a_id text opts c (or_null (ans !! i))
                           (column_text (explanation q)) t)
          = is_match qs ans i) as ->.
  { unfold Review.isCorrect, is_match. cbn [user_answer q_correct_answer].
    rewrite Hq, Hc. destruct (ans !! i) as [u|]; cbn [or_null strict_equal];
      [|done].
    apply bool_decide_ext. case_bool_decide; split; intros Hu; congruence. }
  destruct (decide (is_match qs ans i = true)); cbn [length];
    by rewrite (IH _ _ Hdrop).
Qed.

(** X4. From the submission to the review. The signed-in user owns the
    attempt of the page, no row of that attempt is stored yet and
    every request reaches the store. Then [handleSubmit] navigates to
    the results page with the score and appends the rows of the
    questions, in the order of the questions, leaving out every
    question that lacks a text, options or a correct answer (its
    insert is refused and the refusal is not looked at);
    [fetchResults] for that attempt shows exactly the appended rows
    in that order. When the questions are well formed (each has a
    text, options and a correct answer that is a non-empty text)
    there is exactly one row per question, holding the question's
    text, options, correct answer and explanation and the answer
    recorded at its position, and the rows the review marks as
    correct are as many as the score. *)
Theorem submitted_rows_are_reviewed w p a uid r :
  attemptId p = Some a → session w = Some uid →
  quiz_attempts (db w) !! a = Some r → user_id r = uid → faults w = [] →
  questions_of a (db w) = [] →
  (Z.of_nat (length (questions p)) < 2 ^ 31)%Z →
  let n := correct_count (questions p) (answers p) in
  let rows := rows_of a (answers p) (clock (db w)) (questions p) in
  ∃ w', handleSubmit (w, p) = (Normal (), (w', p))
    ∧ navigations w'
      = navigations w ++ [ResultsPage (Some a) (Z.of_nat n) (length (questions p))]
    ∧ toasts w' = toasts w
    ∧ quiz_questions (db w') = quiz_questions (db w) ++ rows
    ∧ (∀ page, ∃ w'',
         Results.fetchResults (Some a) (w', page)
         = (Normal (), (w'', Results.mkState rows false)))
    ∧ (Forall well_formed (questions p) →
       length rows = length (questions p)
       ∧ (∀ i q, questions p !! i = Some q →
            ∃ text opts c,
              question q = Text text ∧ options q = Some opts
              ∧ correct_answer q = Text c
              ∧ rows !! i
                = Some (mkQuestionRow a text opts c (or_null (answers p !! i))
                                      (column_text (explanation q))
                                      (clock (db w) + i)))
       ∧ length (filter (λ q, Review.isCorrect q = true) rows) = n).
Proof.
  intros Hatt Hsess Hr Hown Hf Hnone Hlen n rows.
  destruct (handleSubmit_spec w p)
    as (w1 & res & w2 & Hloop & Hs1 & Ha1 & Hp1 & Hf1 & Hreq & Hs2 & Hdb2 & Hsubmit).
  destruct (submit_loop_rows p a uid r (questions p) 0 0%Z w)
    as (s' & w1' & Hloop' & Hf1' & Hdb1); try done.
  rewrite Hloop in Hloop'. injection Hloop' as _ <-.
  assert (faults w2 = []) as Hf2.
  { destruct (request_cases
                (update_score (attemptId p)
                   (Z.of_nat (correct_count (questions p) (answers p)))) w1 p)
      as (res' & w2' & Hreq' & _ & Hft & _).
    rewrite Hreq in Hreq'. injection Hreq' as _ <-. by rewrite Hft, Hf1'. }
  unfold next_fault in Hdb2. rewrite Hf1' in Hdb2.
  destruct Hs1 as (Hsess1 & _ & Ht1 & _ & Hn1).
  assert (quiz_attempts (db w1) !! a = Some r) as Hr1 by (by rewrite Ha1).
  pose proof (correct_count_le_length (questions p) (answers p)) as Hle.
  assert (res = inr ()
          ∧ quiz_questions (db w2) = quiz_questions (db w1)
          ∧ ∃ r2, quiz_attempts (db w2) !! a = Some r2 ∧ user_id r2 = uid)
    as (-> & Hq2 & r2 & Hr2 & Hown2).
  { unfold update_score in Hdb2. rewrite Hatt, Hr1 in Hdb2.
    destruct (owns (session w1) r && attempts_update_own (policies (db w1))).
    - assert (int4_ok (Z.of_nat (correct_count (questions p) (answers p))) = true)
        as Hok.
      { unfold int4_ok. apply andb_true_iff. split.
        - apply Z.leb_le. lia.
        - apply Z.ltb_lt. lia. }
      rewrite Hok in Hdb2. injection Hdb2 as -> ->. split; [done|].
      split; [done|].
      exists (set_score (Z.of_nat (correct_count (questions p) (answers p))) r).
      simpl. by rewrite lookup_insert_eq.
    - injection Hdb2 as -> ->. split; [done|]. split; [done|]. by exists r. }
  assert (quiz_questions (db w1) = quiz_questions (db w) ++ rows) as Hq1.
  { by rewrite Hdb1. }
  destruct Hs2 as (Hsess2 & _ & Ht2 & _ & Hn2).
  eexists. split; [exact Hsubmit|].
  cbn [navigations toasts db add_navigation add_console].
  split; [by rewrite Hatt, Hn2, Hn1|].
  split; [by rewrite Ht2, Ht1|]. split; [congruence|]. split.
  - intros page. apply fetchResults_lists; [unfold next_fault; simpl; by rewrite Hf2|].
    cbn [session db add_navigation add_console select_questions fst].
    f_equal. rewrite Hq2, Hq1, filter_app.
    rewrite (filter_none _ (quiz_questions (db w))).
    + destruct (rows_from_sorted a (answers p) (clock (db w)) 0 (questions p))
        as [Hsorted Hall].
      cbn [app]. rewrite filter_all; [by apply order_by_sorted|].
      intros row Hrow. eapply Forall_forall in Hall as [Ha _]; [|exact Hrow].
      split; [|done]. unfold owns_attempt. rewrite Ha, Hr2, Hsess2, Hsess1, Hsess.
      simpl. by apply bool_decide_eq_true.
    + intros q Hq [_ Ha].
      assert (q ∈ questions_of a (db w)) as Hin.
      { unfold questions_of. by apply list_elem_of_filter. }
      rewrite Hnone in Hin. by apply elem_of_nil in Hin.
  - intros Hwf.
    destruct (rows_from_well_formed a (answers p) (clock (db w)) 0 (questions p) Hwf)
      as [Hrows Hlook].
    split; [exact Hrows|]. split.
    + intros i q Hq. destruct (Hlook i q Hq) as (row & Hrow & Hof).
      eapply Forall_forall in Hwf; [|by eapply list_elem_of_lookup_2].
      destruct Hwf as ([text Ht] & [opts Ho] & c & Hc & _).
      exists text, opts, c. destruct (question q) as [| |text'] eqn:Hqt;
        try discriminate. injection Ht as ->.
      repeat (split; [done|]). unfold rows, rows_of. rewrite Hrow, <- Hof.
      unfold row_of. by rewrite Hqt, Ho, Hc.
    + unfold rows, rows_of, n, correct_count. by apply rows_from_correct.
Qed.

Lemma submitted_rows_are_reviewed_witness :
  attemptId answering_page = Some 0
  ∧ session (world_of session_db (Some alice) [] no_generator) = Some alice
  ∧ quiz_attempts session_db !! 0 = Some (attempt_of alice 0 2 0)
  ∧ questions_of 0 session_db = []
  ∧ Forall well_formed (questions answering_page)
  ∧ ∃ w', handleSubmit (world_of session_db (Some alice) [] no_generator,
                        answering_page)
          = (Normal (), (w', answering_page))
      ∧ navigations w' = [ResultsPage (Some 0) 1 2]
      ∧ map user_answer (quiz_questions (db w')) = [Some "B"; Some "C"]
      ∧ length (filter (λ q, Review.isCorrect q = true)
                       (quiz_questions (db w'))) = 1.
Proof.
  assert (Forall well_formed (questions answering_page)) as Hwf.
  { constructor; [|constructor; [|constructor]];
      (split; [by eexists|]; split; [by eexists|]);
      eexists; (split; [reflexivity|done]). }
  split; [reflexivity|]. split; [reflexivity|]. split; [reflexivity|].
  split; [reflexivity|]. split; [exact Hwf|].
  destruct (submitted_rows_are_reviewed
              (world_of session_db (Some alice) [] no_generator)
              answering_page 0 alice (attempt_of alice 0 2 0))
    as (w' & Hs & Hn & _ & Hq & _ & Hc);
    [reflexivity | reflexivity | reflexivity | reflexivity | reflexivity
    | reflexivity | reflexivity |].
  exists w'. split; [exact Hs|]. split; [exact Hn|]. rewrite Hq.
  split; [reflexivity|]. apply (Hc Hwf).
Defined.

End SubmissionProofs.

(** ** The quiz page and the store *)

Section QuizStoreProofs.
Import Store Client Quiz QuizView Schema Scenario.
Local Open Scope eff_scope.

Lemma submit_loop_without_attempt p indices score w :
  attemptId p = None →
  Forall (λ i, i < length (questions p)) indices →
  ∃ s' w', submit_loop p indices score (w, p) = (Normal s', (w', p))
           ∧ db w' = db w.
Proof.
  intros Hatt Hall. revert score w.
  induction Hall as [|i rest Hi Hrest IH]; intros score w.
  - by exists score, w.
  - cbn [submit_loop].
    destruct (questions p !! i) as [q|] eqn:Hq;
      [|apply lookup_ge_None_1 in Hq; lia].
    unfold bind at 1.
    destruct (request_cases
                (insert_question
                   (mkNewQuestion (attemptId p) (question q) (options q)
                      (correct_answer q) (or_null (answers p !! i))
                      (explanation q))) w p)
      as (r & w1 & -> & _ & _ & Hdb).
    assert (db w1 = db w) as Hdb1.
    { destruct (next_fault w); [by destruct Hdb|].
      unfold insert_question in Hdb. cbn [nq_attempt_id] in Hdb.
      rewrite Hatt in Hdb. by injection Hdb. }
    destruct (IH (if strict_equal (answers p !! i) (correct_answer q)
                  then (score + 1)%Z else score) w1)
      as (s' & w' & -> & Hdb').
    exists s', w'. split; [done|]. congruence.
Qed.

Lemma handle_without_attempt e w p :
  attemptId p = None →
  ∃ w' p', handle e (w, p) = (Normal (), (w', p'))
    ∧ attemptId p' = None ∧ db w' = db w ∧ navigations w' = navigations w
    ∧ toasts w'
      = toasts w
          ++ (if decide (e = Submit)
              then [ToastError "Failed to save score. Please try again."]
              else []).
Proof.
  intros Hatt. destruct (decide (e = Submit)) as [->|He].
  - cbn [handle].
    destruct (handleSubmit_spec w p)
      as (w1 & r & w2 & Hloop & Hs1 & _ & _ & _ & _ & Hs2 & Hdb2 & ->).
    destruct (submit_loop_without_attempt p (seq 0 (length (questions p))) 0%Z w)
      as (s' & w1' & Hloop' & Hdb1); [done| |].
    { apply Forall_forall. intros i Hi%elem_of_seq. lia. }
    rewrite Hloop in Hloop'. injection Hloop' as _ <-.
    destruct Hs1 as (_ & _ & Ht1 & _ & Hn1).
    destruct Hs2 as (_ & _ & Ht2 & _ & Hn2).
    assert ((∃ e, r = inl e) ∧ db w2 = db w1) as [[e ->] Hdb2'].
    { destruct (next_fault w1) as [e|].
      - destruct Hdb2 as [-> ?]. split; [by exists e|done].
      - rewrite Hatt in Hdb2. injection Hdb2 as -> ->.
        split; [by eexists|done]. }
    eexists _, p. split; [reflexivity|]. simpl.
    split; [done|]. split; [congruence|]. split; [congruence|].
    congruence.
  - destruct (handle_in_memory e w p He) as (p' & -> & _ & Ha & _).
    exists w, p'. split; [done|]. split; [congruence|].
    split; [done|]. split; [done|]. by rewrite app_nil_r.
Qed.

(** X5. A page without an attempt (no signed-in user when the quiz was
    generated, or an attempt that could not be created) never reaches
    the results: whatever the user does, the store stays exactly as it
    was, nothing is navigated to, and every click on Submit shows the
    error "Failed to save score. Please try again." once. *)
Theorem page_without_attempt_stores_nothing es w p :
  attemptId p = None →
  db (run es (w, p)).1 = db w
  ∧ navigations (run es (w, p)).1 = navigations w
  ∧ toasts (run es (w, p)).1
    = toasts w
        ++ replicate (length (filter (λ e, e = Submit) es))
                     (ToastError "Failed to save score. Please try again.").
Proof.
  revert w p. induction es as [|e es IH]; intros w p Hatt.
  - simpl. by rewrite app_nil_r.
  - destruct (handle_without_attempt e w p Hatt)
      as (w' & p' & Hstep & Hatt' & Hdb & Hn & Ht).
    rewrite run_cons, Hstep. cbn [snd].
    destruct (IH w' p' Hatt') as (Hdb' & Hn' & Ht').
    split; [congruence|]. split; [congruence|].
    rewrite Ht', Ht, filter_cons, <- app_assoc. f_equal.
    by destruct (decide (e = Submit)).
Qed.

Lemma page_without_attempt_stores_nothing_witness :
  attemptId (mkState [q1; q2] false 0 ∅ None) = None
  ∧ toasts (run [Answer "B"; Submit; Next; Answer "A"; Submit]
                (world_of session_db None [] no_generator,
                 mkState [q1; q2] false 0 ∅ None)).1
    = [ToastError "Failed to save score. Please try again.";
       ToastError "Failed to save score. Please try again."]
  ∧ db (run [Answer "B"; Submit; Next; Answer "A"; Submit]
            (world_of session_db None [] no_generator,
             mkState [q1; q2] false 0 ∅ None)).1
    = session_db.
Proof.
  split; [reflexivity|].
  destruct (page_without_attempt_stores_nothing
              [Answer "B"; Submit; Next; Answer "A"; Submit]
              (world_of session_db None [] no_generator)
              (mkState [q1; q2] false 0 ∅ None) eq_refl) as (Hdb & _ & Ht).
  split; [exact Ht | exact Hdb].
Defined.

Lemma handle_without_update_policy e w p :
  attempts_update_own (policies (db w)) = false →
  ∃ w' p', handle e (w, p) = (Normal (), (w', p'))
    ∧ quiz_attempts (db w') = quiz_attempts (db w)
    ∧ policies (db w') = policies (db w).
Proof.
  intros Hpol. destruct (decide (e = Submit)) as [->|He].
  - cbn [handle].
    destruct (handleSubmit_spec w p)
      as (w1 & r & w2 & _ & _ & Ha1 & Hp1 & _ & _ & _ & Hdb2 & ->).
    assert (quiz_attempts (db w2) = quiz_attempts (db w1)
            ∧ policies (db w2) = policies (db w1)) as [Ha2 Hp2].
    { destruct (next_fault w1); [by destruct Hdb2 as [_ ->]|].
      unfold update_score in Hdb2. rewrite Hp1, Hpol in Hdb2.
      destruct (attemptId p) as [a|]; [|by injection Hdb2 as _ ->].
      destruct (quiz_attempts (db w1) !! a);
        [rewrite andb_false_r in Hdb2|]; by injection Hdb2 as _ ->. }
    eexists _, p. split; [reflexivity|]. destruct r; simpl; split; congruence.
  - destruct (handle_in_memory e w p He) as (p' & -> & _).
    by exists w, p'.
Qed.

(** X6. The migration declares no UPDATE policy on [quiz_attempts].
    In a store without one, whatever the user answers and however
    often the quiz is submitted, no attempt of the store changes: the
    score of the attempt stays what it was when the attempt was
    created; and still a submission whose requests reach the store
    navigates to the results with the counted score. *)
Theorem score_is_not_stored_without_update_policy es w p a :
  attempts_update_own (policies (db w)) = false →
  quiz_attempts (db (run es (w, p)).1) = quiz_attempts (db w)
  ∧ (faults w = [] → attemptId p = Some a →
     navigations (handleSubmit (w, p)).2.1
     = navigations w
         ++ [ResultsPage (Some a)
                         (Z.of_nat (correct_count (questions p) (answers p)))
                         (length (questions p))]).
Proof.
  intros Hpol. split.
  - revert w p Hpol. induction es as [|e es IH]; intros w p Hpol; [done|].
    destruct (handle_without_update_policy e w p Hpol)
      as (w' & p' & Hstep & Ha & Hp).
    rewrite run_cons, Hstep. cbn [snd].
    rewrite IH by congruence. done.
  - intros Hf Hatt.
    destruct (handleSubmit_spec w p)
      as (w1 & r & w2 & _ & Hs1 & _ & Hp1 & Hf1 & _ & Hs2 & Hdb2 & ->).
    rewrite Hf, drop_nil in Hf1. unfold next_fault in Hdb2.
    rewrite Hf1 in Hdb2. unfold update_score in Hdb2.
    rewrite Hatt, Hp1, Hpol in Hdb2.
    destruct Hs1 as (_ & _ & _ & _ & Hn1).
    destruct Hs2 as (_ & _ & _ & _ & Hn2).
    assert (r = inr ()) as ->.
    { destruct (quiz_attempts (db w1) !! a);
        [rewrite andb_false_r in Hdb2|]; by injection Hdb2 as ->. }
    simpl. by rewrite Hatt, Hn2, Hn1.
Qed.

Lemma score_is_not_stored_without_update_policy_witness :
  attempts_update_own
    (policies (mkDB migration_policies {[alice]}
                    (<[0 := attempt_of alice 0 2 0]> ∅) [] 1)) = false
  ∧ quiz_attempts
      (db (run [Submit; Previous; Answer "A"; Submit]
               (world_of (mkDB migration_policies {[alice]}
                               (<[0 := attempt_of alice 0 2 0]> ∅) [] 1)
                         (Some alice) [] no_generator, answering_page)).1)
    = <[0 := attempt_of alice 0 2 0]> ∅.
Proof.
  split; [reflexivity|].
  exact (proj1 (score_is_not_stored_without_update_policy
                  [Submit; Previous; Answer "A"; Submit]
                  (world_of (mkDB migration_policies {[alice]}
                                  (<[0 := attempt_of alice 0 2 0]> ∅) [] 1)
                            (Some alice) [] no_generator)
                  answering_page 0 eq_refl)).
Defined.

End QuizStoreProofs.

(** ** Generating a quiz *)

Section GenerationProofs.
Import Store Client Quiz Schema Scenario.
Local Open Scope eff_scope.

(** Closes a case of [generateQuiz] in which nothing was reported and
    no attempt was created. *)
Ltac quiet_case :=
  eexists _, _; split; [reflexivity|]; simpl;
  repeat (split; [done|]); split; [by left|]; intros id row Hrow; by left.

(** Closes a case of [generateQuiz] that ended in the [catch] block. *)
Ltac failed_case e :=
  eexists _, _; split; [reflexivity|]; simpl;
  repeat (split; [done|]); split; [right; by exists e|];
  intros id row Hrow; by left.

(** X7. [generateQuiz] always completes, and with [loading] turned
    off. It leaves the cursor, the answers, the session, the question
    rows and the profiles as they were. Either it reports nothing, or
    it shows exactly one error toast and navigates to the dashboard,
    and then it has created no attempt. An attempt that is in the
    store afterwards and was not before is the attempt of the page: it
    belongs to the signed-in user, who has a profile, it has score 0,
    the skill level (one of the three), subjects and question count
    asked for, and as many questions as the page holds. *)
Theorem generateQuiz_always_completes w p sl subs qc :
  ∃ w' p',
    generateQuiz sl subs qc (w, p) = (Normal (), (w', p'))
    ∧ loading p' = false
    ∧ currentQuestion p' = currentQuestion p
    ∧ answers p' = answers p
    ∧ session w' = session w
    ∧ quiz_questions (db w') = quiz_questions (db w)
    ∧ profiles (db w') = profiles (db w)
    ∧ ((toasts w' = toasts w ∧ navigations w' = navigations w)
       ∨ ∃ e, toasts w'
              = toasts w
                  ++ [ToastError
                        (message_or e "Failed to generate quiz. Please try again.")]
              ∧ navigations w' = navigations w ++ [Dashboard]
              ∧ quiz_attempts (db w') = quiz_attempts (db w)
              ∧ attemptId p' = attemptId p)
    ∧ ∀ id row,
        quiz_attempts (db w') !! id = Some row →
        quiz_attempts (db w) !! id = Some row
        ∨ (quiz_attempts (db w) !! id = None
           ∧ attemptId p' = Some id
           ∧ session w = Some (user_id row)
           ∧ user_id row ∈ profiles (db w)
           ∧ score row = 0%Z
           ∧ skill_level row = sl
           ∧ skill_level_ok sl = true
           ∧ Store.subjects row = subs
           ∧ question_count row = qc
           ∧ total_questions row = Z.of_nat (length (questions p'))).
Proof.
  unfold generateQuiz, finally, try_catch, bind at 1, setLoading, modify_page.
  cbn [fst snd].
  unfold bind at 1, functions_invoke. cbn [fst snd].
  destruct (generate_quiz w _) as [data [e|] | e];
    [failed_case e | | failed_case e].
  destruct data as [[[qs|]]|]; [| quiet_case ..].
  unfold bind at 1, setQuestions, modify_page. cbn [fst snd].
  unfold bind at 1, getSession. cbn [fst snd].
  destruct (session w) as [uid|] eqn:Hsession; [| quiet_case].
  unfold bind at 1.
  match goal with |- context [request ?op ?s] =>
    destruct (request_cases op (fst s) (snd s)) as (r & w1 & Hreq & Hs & Hf & Hdb);
    cbn [fst snd] in Hreq; rewrite Hreq
  end.
  simpl in Hs, Hf. cbn [fst snd] in Hdb. destruct Hs as (Hs1 & _ & Ht1 & _ & Hn1).
  destruct (next_fault w) as [e|].
  - destruct Hdb as [-> Hdb].
    eexists _, _; split; [reflexivity|]. simpl. rewrite Hdb, Ht1, Hn1.
    repeat (split; [done || congruence|]). split; [right; by exists e|].
    intros id row Hrow; by left.
  - unfold insert_attempt in Hdb. rewrite Hsession in Hdb.
    cbn [na_user_id na_skill_level na_subjects na_question_count
         na_total_questions user_id owns] in Hdb.
    destruct (int4_ok qc && int4_ok (Z.of_nat (length qs))) eqn:Hint;
      cbn [negb] in Hdb.
    2: { injection Hdb as -> Hdb.
         eexists _, _; split; [reflexivity|]. simpl. rewrite Hdb, Ht1, Hn1.
         repeat (split; [done || congruence|]).
         split; [right; by eexists|]. intros id row Hrow; by left. }
    rewrite bool_decide_true in Hdb by done. cbn [negb] in Hdb.
    destruct (skill_level_ok sl) eqn:Hskill; cbn [negb] in Hdb.
    2: { injection Hdb as -> Hdb.
         eexists _, _; split; [reflexivity|]. simpl. rewrite Hdb, Ht1, Hn1.
         repeat (split; [done || congruence|]).
         split; [right; by eexists|]. intros id row Hrow; by left. }
    destruct (bool_decide (uid ∈ profiles (db w))) eqn:Hprofile;
      cbn [negb] in Hdb.
    2: { injection Hdb as -> Hdb.
         eexists _, _; split; [reflexivity|]. simpl. rewrite Hdb, Ht1, Hn1.
         repeat (split; [done || congruence|]).
         split; [right; by eexists|]. intros id row Hrow; by left. }
    apply bool_decide_eq_true in Hprofile.
    injection Hdb as -> Hdb.
    eexists _, _; split; [reflexivity|]. simpl. rewrite Hdb, Ht1, Hn1. simpl.
    repeat (split; [done || congruence|]). split; [by left|].
    intros id row Hrow.
    destruct (decide (id = fresh (dom (quiz_attempts (db w))))) as [->|Hid].
    + rewrite lookup_insert_eq in Hrow. injection Hrow as <-. right. simpl.
      split; [apply not_elem_of_dom, is_fresh|]. done.
    + rewrite lookup_insert_ne in Hrow by done. by left.
Qed.

(** X8. A quiz started with a skill level and a question count of
    the dashboard by a signed-in user who has a profile gets its
    attempt: when the function returns questions and the insert
    reaches the store, [generateQuiz] stores a new attempt of that
    user with score 0 and the number of returned questions, hands its
    id to the page together with the questions, and shows nothing. *)
Theorem offered_quiz_gets_its_attempt w sl subs qc uid qs :
  sl ∈ Dashboard.skillLevels → qc ∈ Dashboard.questionCounts →
  session w = Some uid → uid ∈ profiles (db w) → next_fault w = None →
  generate_quiz w (mkInvokeBody (subject_of subs) sl qc)
  = Resolved (Some (mkInvokeData (Some qs))) None →
  (Z.of_nat (length qs) < 2 ^ 31)%Z →
  let id := fresh (dom (quiz_attempts (db w))) in
  let row := mkAttemptRow uid sl subs qc 0 (Z.of_nat (length qs)) (clock (db w)) in
  ∃ w', generateQuiz sl subs qc (w, initial)
        = (Normal (), (w', mkState qs false 0 ∅ (Some id)))
    ∧ quiz_attempts (db w) !! id = None
    ∧ db w' = tick (set_attempts (<[id := row]> (quiz_attempts (db w))) (db w))
    ∧ toasts w' = toasts w ∧ navigations w' = navigations w
    ∧ console w' = console w.
Proof.
  intros Hsl Hqc Hsession Hprofile Hfault Hgen Hlen id row.
  unfold generateQuiz, finally, try_catch, bind at 1, setLoading, modify_page.
  cbn [fst snd].
  unfold bind at 1, functions_invoke. cbn [fst snd]. rewrite Hgen.
  unfold bind at 1, setQuestions, modify_page. cbn [fst snd].
  unfold bind at 1, getSession. cbn [fst snd]. rewrite Hsession.
  unfold bind at 1.
  match goal with |- context [request ?op ?s] =>
    destruct (request_cases op (fst s) (snd s)) as (r & w1 & Hreq & Hs & Hf & Hdb);
    cbn [fst snd] in Hreq; rewrite Hreq
  end.
  simpl in Hs, Hf. cbn [fst snd] in Hdb. destruct Hs as (_ & _ & Ht1 & Hc1 & Hn1).
  rewrite Hfault, Hsession in Hdb. unfold insert_attempt in Hdb.
  cbn [na_user_id na_skill_level na_subjects na_question_count
       na_total_questions user_id owns] in Hdb.
  assert (int4_ok qc = true) as Hint.
  { unfold Dashboard.questionCounts in Hqc.
    repeat (apply elem_of_cons in Hqc as [->|Hqc]; [done|]).
    by apply elem_of_nil in Hqc. }
  assert (int4_ok (Z.of_nat (length qs)) = true) as Hint'.
  { unfold int4_ok. apply andb_true_iff. split; [apply Z.leb_le|apply Z.ltb_lt]; lia. }
  rewrite Hint, Hint', (bool_decide_true (uid = uid)) in Hdb by done.
  assert (skill_level_ok sl = true) as Hskill by (by apply bool_decide_eq_true).
  rewrite Hskill, (bool_decide_true (uid ∈ profiles (db w))) in Hdb by done.
  cbn [negb andb] in Hdb. injection Hdb as -> Hdb.
  eexists. split; [reflexivity|]. simpl.
  split; [apply not_elem_of_dom, is_fresh|]. done.
Qed.

Lemma offered_quiz_gets_its_attempt_witness :
  ("Beginner" ∈ Dashboard.skillLevels)
  ∧ (5%Z ∈ Dashboard.questionCounts)
  ∧ (alice ∈ profiles (db (world_of empty_db (Some alice) [] two_questions)))
  ∧ ∃ w', generateQuiz "Beginner" ["Science"] 5
            (world_of empty_db (Some alice) [] two_questions, initial)
          = (Normal (), (w', mkState [q1; q2] false 0 ∅ (Some 0)))
      ∧ quiz_attempts (db w') !! 0
        = Some (mkAttemptRow alice "Beginner" ["Science"] 5 0 2 0).
Proof.
  assert ("Beginner" ∈ Dashboard.skillLevels) as H1 by (by left).
  assert (5%Z ∈ Dashboard.questionCounts) as H2 by (by left).
  assert (alice ∈ profiles (db (world_of empty_db (Some alice) [] two_questions)))
    as H3 by (cbn; set_solver).
  split; [exact H1|]. split; [exact H2|]. split; [exact H3|].
  destruct (offered_quiz_gets_its_attempt
              (world_of empty_db (Some alice) [] two_questions)
              "Beginner" ["Science"] 5 alice [q1; q2])
    as (w' & Hrun & _ & Hdb & _); [done | done | done | done | done | done | done |].
  exists w'. split; [exact Hrun|]. rewrite Hdb. reflexivity.
Defined.

End GenerationProofs.

(** ** The store as a whole *)

Section SchemaProofs.
Import Store Schema Scenario.

Lemma owns_anonymous r : owns None r = false.
Proof. done. Qed.

Lemma deleted_by_needs_owner u uid d r :
  owns uid r = false → deleted_by u uid d r = false.
Proof.
  intros H. unfold deleted_by. rewrite H.
  by rewrite andb_false_r.
Qed.

(** X9. No request changes what belongs to somebody else: whatever
    request a caller sends, an attempt the caller does not own is
    still in the store, unchanged, with the same question rows in the
    same order. *)
Theorem requests_leave_other_users_rows op uid d id r :
  quiz_attempts d !! id = Some r → owns uid r = false →
  quiz_attempts (execute op uid d) !! id = Some r
  ∧ questions_of id (execute op uid d) = questions_of id d.
Proof.
  intros Hid Hown. destruct op as [n|n|a s|u| |a]; cbn [execute].
  - unfold insert_attempt.
    do 4 (match goal with
          | |- context [if negb ?b then _ else _] => destruct b
          end; cbn [negb snd]; [|done]).
    split; [|done]. cbn. rewrite lookup_insert_ne; [done|].
    intros <-. pose proof (is_fresh (dom (quiz_attempts d))) as Hfresh.
    apply Hfresh, elem_of_dom. by eexists.
  - unfold insert_question. destruct (nq_attempt_id n) as [a|]; [|done].
    destruct (quiz_attempts d !! a) as [r'|] eqn:Ha; cbn [negb snd]; [|done].
    destruct (owns uid r') eqn:Ho; cbn [negb snd]; [|done].
    destruct (column_text (nq_question_text n)), (nq_options n),
      (column_text (nq_correct_answer n)); cbn [snd]; try done.
    split; [done|]. unfold questions_of. cbn.
    rewrite filter_app, filter_cons, decide_False, filter_nil, app_nil_r; [done|].
    cbn. intros ->. congruence.
  - unfold update_score. destruct a as [a|]; [|done].
    destruct (quiz_attempts d !! a) as [r'|] eqn:Ha; [|done].
    destruct (owns uid r' && attempts_update_own (policies d)) eqn:Ho; [|done].
    destruct (int4_ok s); [|done]. cbn. split; [|done].
    rewrite lookup_insert_ne; [done|]. intros ->.
    apply andb_true_iff in Ho as [Ho _]. congruence.
  - unfold delete_attempts. cbn. split.
    + apply map_lookup_filter_Some. split; [done|]. cbn.
      by apply deleted_by_needs_owner.
    + unfold questions_of. cbn. rewrite list_filter_filter.
      apply list_filter_iff. intros q. split; [by intros []|].
      intros Hq. split; [done|]. rewrite Hq.
      apply map_lookup_filter_None. right. intros r' Hr'. cbn.
      assert (r' = r) as -> by congruence.
      by rewrite deleted_by_needs_owner.
  - done.
  - by destruct a.
Qed.

Lemma requests_leave_other_users_rows_witness :
  quiz_attempts history_db !! 2 = Some (attempt_of bob 1 5 4)
  ∧ owns (Some alice) (attempt_of bob 1 5 4) = false
  ∧ quiz_attempts (execute (DeleteAttempts bob) (Some alice) history_db) !! 2
    = Some (attempt_of bob 1 5 4)
  ∧ questions_of 2 (execute (UpdateScore (Some 2) 5) (Some alice) history_db)
    = [question_of 2 5].
Proof.
  split; [reflexivity|]. split; [reflexivity|]. split.
  - exact (proj1 (requests_leave_other_users_rows (DeleteAttempts bob)
                    (Some alice) history_db 2 _ eq_refl eq_refl)).
  - reflexivity.
Defined.

(** X10. A request without a signed-in user never changes the store,
    and its two listings are empty. *)
Theorem anonymous_requests_change_nothing op d :
  execute op None d = d
  ∧ (select_attempts None d).1 = inr []
  ∧ ∀ a, (select_questions (Some a) None d).1 = inr [].
Proof.
  split; [|split].
  - destruct op as [n|n|a s|u| |a]; cbn [execute].
    + unfold insert_attempt.
      destruct (negb (_ && _)); reflexivity.
    + unfold insert_question. destruct (nq_attempt_id n); [|done].
      by destruct (quiz_attempts d !! _).
    + unfold update_score. destruct a as [a|]; [|done].
      by destruct (quiz_attempts d !! a).
    + unfold delete_attempts. cbn [snd].
      rewrite (map_filter_id (λ x, deleted_by u None d x.2 = false))
        by (intros; by apply deleted_by_needs_owner).
      rewrite filter_all.
      * by destruct d.
      * intros q _. apply map_lookup_filter_None_2. right. intros r _. cbn.
        by rewrite deleted_by_needs_owner.
    + done.
    + by destruct a.
  - unfold select_attempts. cbn. by rewrite filter_none by (by intros x _).
  - intros a. unfold select_questions. cbn [fst]. f_equal.
    rewrite filter_none; [done|]. intros q _ [Ho _].
    unfold owns_attempt in Ho. by destruct (quiz_attempts d !! _).
Qed.

Lemma constraints_hold_lookup d q :
  constraints_hold d → q ∈ quiz_questions d →
  is_Some (quiz_attempts d !! attempt_id q).
Proof. intros [_ Hq] Hin. eapply Forall_forall in Hq; eauto. Qed.

(** X11. The constraints of the table definitions are an invariant of
    the store: if every attempt belongs to a profile, has one of the
    three skill levels and INTEGER columns in range, and every
    question row belongs to an attempt, then the same holds after any
    request of any caller. *)
Theorem requests_keep_constraints op uid d :
  constraints_hold d → constraints_hold (execute op uid d).
Proof.
  intros Hc. pose proof Hc as [Ha Hq].
  destruct op as [n|n|a s|u| |a]; cbn [execute].
  - unfold insert_attempt.
    destruct (int4_ok (na_question_count n) && int4_ok (na_total_questions n))
      eqn:Hint; cbn [negb snd]; [|done].
    destruct (owns uid _); cbn [negb snd]; [|done].
    destruct (skill_level_ok (na_skill_level n)) eqn:Hs; cbn [negb snd]; [|done].
    destruct (bool_decide (na_user_id n ∈ profiles d)) eqn:Hp;
      cbn [negb snd]; [|done].
    apply bool_decide_eq_true in Hp. apply andb_true_iff in Hint as [? ?].
    split; cbn.
    + apply map_Forall_insert_2; [done|exact Ha].
    + eapply Forall_impl; [exact Hq|]. intros q [r Hr]. cbn in *.
      destruct (decide (attempt_id q = fresh (dom (quiz_attempts d)))) as [->|?].
      * rewrite lookup_insert_eq. by eexists.
      * rewrite lookup_insert_ne by done. by eexists.
  - unfold insert_question. destruct (nq_attempt_id n) as [a|]; [|done].
    destruct (quiz_attempts d !! a) as [r'|] eqn:Hr'; cbn [negb snd]; [|done].
    destruct (owns uid r'); cbn [negb snd]; [|done].
    destruct (column_text (nq_question_text n)), (nq_options n),
      (column_text (nq_correct_answer n)); cbn [snd]; try done.
    split; cbn; [exact Ha|]. apply Forall_app. split; [exact Hq|].
    constructor; [|constructor]. cbn. by eexists.
  - unfold update_score. destruct a as [a|]; [|done].
    destruct (quiz_attempts d !! a) as [r|] eqn:Hr; [|done].
    destruct (owns uid r && attempts_update_own (policies d)); [|done].
    destruct (int4_ok s) eqn:Hs; [|done].
    split; cbn.
    + apply map_Forall_insert_2; [|exact Ha].
      destruct (Ha a r Hr) as (? & ? & ? & ? & ?). done.
    + eapply Forall_impl; [exact Hq|]. intros q [r' Hr']. cbn in *.
      destruct (decide (attempt_id q = a)) as [->|?].
      * rewrite lookup_insert_eq. by eexists.
      * rewrite lookup_insert_ne by done. by eexists.
  - unfold delete_attempts. split; cbn.
    + intros id r [Hr _]%map_lookup_filter_Some. by apply (Ha id r).
    + apply Forall_forall. intros q [Hkeep Hin]%list_elem_of_filter.
      destruct (constraints_hold_lookup d q Hc Hin) as [r Hr].
      exists r. apply map_lookup_filter_Some. split; [done|]. cbn.
      apply map_lookup_filter_None in Hkeep as [Hkeep|Hkeep]; [congruence|].
      specialize (Hkeep r Hr). cbn in Hkeep.
      by destruct (deleted_by u uid d r).
  - done.
  - by destruct a.
Qed.

Lemma requests_keep_constraints_witness :
  constraints_hold session_db
  ∧ constraints_hold
      (execute (InsertQuestion
                  (mkNewQuestion (Some 0) (Text "What is 2 + 2?")
                                 (Some (mkOptions "3" "4" "5" "6")) (Text "B")
                                 (Some "A") (Text "2 + 2 = 4.")))
               (Some alice) session_db).
Proof.
  assert (constraints_hold session_db) as H.
  { split; [|constructor]. apply map_Forall_insert_2; [|apply map_Forall_empty].
    split; [cbn; set_solver|]. by repeat split. }
  split; [exact H|]. exact (requests_keep_constraints _ _ _ H).
Defined.

End SchemaProofs.

(** ** The history and the review lists *)

Section ListingProofs.
Import Store Client Performance Schema Submission Scenario.
Local Open Scope eff_scope.

Lemma insert_by_perm {X} (le : X → X → bool) x l : insert_by le x l ≡ₚ x :: l.
Proof.
  induction l as [|y l IH]; [done|]. cbn [insert_by].
  destruct (le x y); [done|]. rewrite IH. apply Permutation_swap.
Qed.

Lemma order_by_perm {X} (le : X → X → bool) l : order_by le l ≡ₚ l.
Proof.
  induction l as [|x l IH]; [done|]. unfold order_by in *. cbn [foldr].
  by rewrite insert_by_perm, IH.
Qed.

Section Ordered.
Context {X : Type} (le : X → X → bool).
Hypothesis le_total : ∀ x y, le x y = false → le y x = true.
Hypothesis le_trans : ∀ x y z, le x y = true → le y z = true → le x z = true.

Lemma insert_by_sorted x l : sorted_by le l → sorted_by le (insert_by le x l).
Proof.
  induction l as [|y l IH]; [by repeat constructor|]. intros [Hy Hl].
  cbn [insert_by]. destruct (le x y) eqn:Hxy.
  - split; [|by split]. constructor; [done|].
    eapply Forall_impl; [exact Hy|]. intros z Hz. by eapply le_trans.
  - split; [|by apply IH].
    rewrite insert_by_perm. constructor; [by apply le_total|done].
Qed.

Lemma order_by_is_sorted l : sorted_by le (order_by le l).
Proof.
  induction l as [|x l IH]; [done|]. by apply insert_by_sorted.
Qed.
End Ordered.

Lemma newest_first_sorted (l : list (AttemptId * AttemptRow)) :
  sorted_by (λ x y, created_at y.2 <=? created_at x.2)
            (order_by (λ x y, created_at y.2 <=? created_at x.2) l).
Proof.
  apply order_by_is_sorted.
  - intros x y H%Nat.leb_gt. apply Nat.leb_le. lia.
  - intros x y z H1%Nat.leb_le H2%Nat.leb_le. apply Nat.leb_le. lia.
Qed.

Lemma oldest_first_sorted (l : list QuestionRow) :
  sorted_by (λ x y, q_created_at x <=? q_created_at y)
            (order_by (λ x y, q_created_at x <=? q_created_at y) l).
Proof.
  apply order_by_is_sorted.
  - intros x y H%Nat.leb_gt. apply Nat.leb_le. lia.
  - intros x y z H1%Nat.leb_le H2%Nat.leb_le. apply Nat.leb_le. lia.
Qed.

(** X12. The history lists the caller's own attempts, each of them
    once, the newest first, and nothing else; that list is what the
    performance page holds after [fetchAttempts], with [loading] off
    and no error, whenever its request reaches the store. *)
Theorem history_lists_own_attempts_newest_first uid d :
  ∃ l, (select_attempts uid d).1 = inr l
    ∧ (∀ id r, (id, r) ∈ l ↔ quiz_attempts d !! id = Some r ∧ owns uid r = true)
    ∧ NoDup l.*1
    ∧ sorted_by (λ x y, created_at y.2 <=? created_at x.2) l
    ∧ ∀ w p, session w = uid → db w = d → next_fault w = None →
        (fetchAttempts (w, p)).2.2 = mkState l false None.
Proof.
  eexists. split; [reflexivity|]. split; [|split; [|split]].
  - intros id r. rewrite order_by_perm, list_elem_of_filter, elem_of_map_to_list.
    cbn. tauto.
  - rewrite order_by_perm.
    eapply sublist_NoDup; [apply (NoDup_fst_map_to_list (quiz_attempts d))|].
    apply fmap_sublist, sublist_filter.
  - apply newest_first_sorted.
  - intros w p <- <- Hf.
    destruct (fetchAttempts_lists w p _ Hf eq_refl) as (w' & ->). done.
Qed.

(** X13. The review lists the question rows of the attempt asked for
    that belong to an attempt of the caller, the oldest first, and
    nothing else; a row is listed as often as it is stored. *)
Theorem review_lists_rows_of_attempt_oldest_first a uid d :
  ∃ l, (select_questions (Some a) uid d).1 = inr l
    ∧ l ≡ₚ filter (λ q, owns_attempt d uid q = true) (questions_of a d)
    ∧ sorted_by (λ x y, q_created_at x <=? q_created_at y) l
    ∧ (∀ q, q ∈ l → attempt_id q = a
            ∧ ∃ r, quiz_attempts d !! a = Some r ∧ owns uid r = true)
    ∧ ∀ w p, session w = uid → db w = d → next_fault w = None →
        (Results.fetchResults (Some a) (w, p)).2.2 = Results.mkState l false.
Proof.
  eexists. split; [reflexivity|]. split; [|split; [|split]].
  - rewrite order_by_perm. unfold questions_of.
    by rewrite list_filter_filter.
  - apply oldest_first_sorted.
  - intros q. rewrite order_by_perm, list_elem_of_filter.
    intros [[Ho Ha] _]. split; [done|]. unfold owns_attempt in Ho.
    rewrite Ha in Ho. destruct (quiz_attempts d !! a) as [r|]; [|done].
    by exists r.
  - intros w p <- <- Hf.
    destruct (fetchResults_lists w p (Some a) _ Hf eq_refl) as (w' & ->). done.
Qed.

End ListingProofs.

(** ** The performance page when a request fails *)

Section HistoryFailureProofs.
Import Store Client Performance Schema Scenario.
Local Open Scope eff_scope.

(** X14. [fetchAttempts] always completes with [loading] off; it
    shows no toast, navigates nowhere and leaves the store as it was.
    When its request fails the page keeps the attempts it held and
    holds the message of the error (or "Failed to load quiz history"
    for an empty message); when the request reaches the store the page
    holds the listed attempts and no error. *)
Theorem fetchAttempts_always_completes w p :
  ∃ w' p',
    fetchAttempts (w, p) = (Normal (), (w', p'))
    ∧ loading p' = false
    ∧ db w' = db w ∧ toasts w' = toasts w ∧ navigations w' = navigations w
    ∧ match next_fault w with
      | Some e =>
          attempts p' = attempts p
          ∧ error p' = Some (message_or e "Failed to load quiz history")
          ∧ console w' = console w ++ ["Supabase error:"; "Error fetching attempts:"]
      | None =>
          (select_attempts (session w) (db w)).1 = inr (attempts p')
          ∧ error p' = None
          ∧ console w' = console w
      end.
Proof.
  destruct (request_cases select_attempts w (mkState (attempts p) (loading p) None))
    as (r & w1 & Hreq & (Hs & _ & Ht & Hc & Hn) & _ & Hdb).
  unfold fetchAttempts, finally, try_catch, bind at 1, setError, modify_page.
  cbn [fst snd]. unfold bind at 1. rewrite Hreq.
  destruct (next_fault w) as [e|].
  - destruct Hdb as [-> Hdb]. eexists _, _. split; [reflexivity|]. simpl.
    rewrite Hc, <- app_assoc. done.
  - unfold select_attempts in Hdb. injection Hdb as -> Hdb.
    eexists _, _. split; [reflexivity|]. simpl. done.
Qed.

Lemma delete_attempts_nothing u uid d :
  (∀ r, deleted_by u uid d r = false) → (delete_attempts u uid d).2 = d.
Proof.
  intros Hno. unfold delete_attempts. cbn [snd].
  rewrite (map_filter_id (λ x, deleted_by u uid d x.2 = false)) by done.
  rewrite filter_all.
  - by destruct d.
  - intros q _. apply map_lookup_filter_None_2. right. intros r _. cbn.
    by rewrite Hno.
Qed.

(** X15. [clearHistory] always completes, navigates nowhere and shows
    exactly one toast. Without a signed-in user it is "You must be
    logged in to clear history" and no request is sent; when the
    request fails it is "Failed to clear history"; in both cases the
    store and the attempts held by the page stay as they were. When
    the request reaches the store the toast reports success and the
    page holds no attempt. *)
Theorem clearHistory_reports_once w p :
  ∃ w' p' t,
    clearHistory (w, p) = (Normal (), (w', p'))
    ∧ toasts w' = toasts w ++ [t]
    ∧ navigations w' = navigations w
    ∧ match session w with
      | None =>
          t = ToastError "You must be logged in to clear history"
          ∧ p' = p ∧ db w' = db w ∧ faults w' = faults w
      | Some u =>
          match next_fault w with
          | Some e =>
              t = ToastError "Failed to clear history"
              ∧ p' = p ∧ db w' = db w
          | None =>
              t = ToastSuccess "Performance history cleared successfully"
              ∧ attempts p' = []
              ∧ db w' = (delete_attempts u (Some u) (db w)).2
          end
      end.
Proof.
  unfold clearHistory, try_catch, bind at 1, getSession. cbn [fst snd].
  destruct (session w) as [u|] eqn:Hsession.
  - destruct (request_cases (delete_attempts u) w p)
      as (r & w1 & Hreq & (Hs & _ & Ht & _ & Hn) & _ & Hdb).
    unfold bind at 1. rewrite Hreq.
    destruct (next_fault w) as [e|].
    + destruct Hdb as [-> Hdb]. eexists _, _, _. split; [reflexivity|].
      simpl. by rewrite Ht, Hn.
    + rewrite Hsession in Hdb. unfold delete_attempts in Hdb at 1.
      injection Hdb as -> Hdb.
      eexists _, _, _. split; [reflexivity|]. simpl. by rewrite Ht, Hn.
  - eexists _, _, _. split; [reflexivity|]. done.
Qed.

(** X16. The migration declares no DELETE policy on [quiz_attempts].
    In a store without one, [clearHistory] of a signed-in user whose
    request reaches the store reports success and empties the list of
    the page, but the store is exactly what it was: the next
    [fetchAttempts] shows every attempt again. *)
Theorem clearHistory_without_delete_policy w p u :
  session w = Some u → next_fault w = None →
  attempts_delete_own (policies (db w)) = false →
  ∃ w' p',
    clearHistory (w, p) = (Normal (), (w', p'))
    ∧ attempts p' = []
    ∧ toasts w'
      = toasts w ++ [ToastSuccess "Performance history cleared successfully"]
    ∧ db w' = db w
    ∧ ∀ w2 p2, db w2 = db w' → session w2 = Some u → next_fault w2 = None →
        (select_attempts (Some u) (db w)).1
        = inr (attempts (fetchAttempts (w2, p2)).2.2).
Proof.
  intros Hsession Hfault Hpol.
  unfold clearHistory, try_catch, bind at 1, getSession. cbn [fst snd].
  rewrite Hsession.
  destruct (request_cases (delete_attempts u) w p)
    as (r & w1 & Hreq & (Hs & _ & Ht & _ & Hn) & _ & Hdb).
  unfold bind at 1. rewrite Hreq. rewrite Hfault, Hsession in Hdb.
  pose proof (f_equal fst Hdb) as Hr. apply (f_equal snd) in Hdb.
  cbn [fst snd] in Hr, Hdb. change (r = inr ()) in Hr. subst r.
  rewrite delete_attempts_nothing in Hdb.
  2: { intros r. unfold deleted_by. by rewrite Hpol, andb_false_r. }
  eexists _, _. split; [reflexivity|]. simpl. rewrite Ht.
  repeat (split; [done|]).
  intros w2 p2 Hdb2 Hs2 Hf2.
  destruct (fetchAttempts_lists w2 p2 _ Hf2 eq_refl) as (w3 & ->). cbn.
  by rewrite Hs2, Hdb2, Hdb.
Qed.

Lemma clearHistory_without_delete_policy_witness :
  attempts_delete_own
    (policies (mkDB migration_policies {[alice]}
                    (<[0 := attempt_of alice 1 2 0]> ∅) [] 1)) = false
  ∧ ∃ w' p',
      clearHistory
        (world_of (mkDB migration_policies {[alice]}
                        (<[0 := attempt_of alice 1 2 0]> ∅) [] 1)
                  (Some alice) [] no_generator,
         mkState [(0, attempt_of alice 1 2 0)] false None)
      = (Normal (), (w', p'))
      ∧ attempts p' = []
      ∧ attempts (fetchAttempts (w', p')).2.2 = [(0, attempt_of alice 1 2 0)].
Proof.
  split; [reflexivity|].
  destruct (clearHistory_without_delete_policy
              (world_of (mkDB migration_policies {[alice]}
                              (<[0 := attempt_of alice 1 2 0]> ∅) [] 1)
                        (Some alice) [] no_generator)
              (mkState [(0, attempt_of alice 1 2 0)] false None) alice
              eq_refl eq_refl eq_refl)
    as (w' & p' & Hrun & Hp & _ & Hdb & Hagain).
  exists w', p'. split; [exact Hrun|]. split; [exact Hp|].
  injection Hrun as <- <-. reflexivity.
Defined.

End HistoryFailureProofs.

(** ** Percentages and their bands *)

Section ReviewProofs.
Import JsNumber Store Summary Review Scenario.
Local Open Scope Z_scope.

Lemma band_table : forallb band_ok (upto 100) = true.
Proof. vm_compute. reflexivity. Qed.

Lemma band_checked r :
  0 ≤ r ≤ 100 →
  ge (of_Z r) (of_Z 80) = (80 <=? r)
  ∧ ge (of_Z r) (of_Z 60) = (60 <=? r)
  ∧ ge (of_Z r) (of_Z 40) = (40 <=? r).
Proof.
  intros Hr. pose proof (forallb_upto band_ok 100 r band_table Hr) as H.
  unfold band_ok in H.
  apply andb_true_iff in H as [H H3]. apply andb_true_iff in H as [H1 H2].
  apply bool_decide_eq_true in H1, H2, H3. done.
Qed.

Lemma nearest_monotone r r' s s' t :
  1 ≤ t → s < s' → nearest r (100 * s) t → nearest r' (100 * s') t → r ≤ r'.
Proof.
  unfold nearest. intros Ht Hs Hr Hr'.
  destruct (Z_le_gt_dec r r') as [|Hgt]; [done|exfalso].
  assert (t * r' + t ≤ t * r) by nia. lia.
Qed.

(** X17. The percentage shown for [s] right answers out of [t]
    (at most 300 questions) is an integer between 0 and 100 that grows
    with [s]: it is 0 for no right answer and 100 for [t] of them; and
    for fewer than 200 questions 100 is shown only for a score without
    a mistake and 0 only for a score of 0. The results page and the
    history compute it by the same expression. *)
Theorem percentage_grows_with_score s s' t :
  0 ≤ s ≤ s' → s' ≤ t → 1 ≤ t ≤ bound →
  Review.percentage (of_Z s) (of_Z t) = of_Z (percent_of s t)
  ∧ Review.percentage (of_Z s) (of_Z t) = Performance.percentage (of_Z s) (of_Z t)
  ∧ 0 ≤ percent_of s t ≤ percent_of s' t
  ∧ percent_of s' t ≤ 100
  ∧ percent_of 0 t = 0
  ∧ percent_of t t = 100
  ∧ (t < 200 → (percent_of s t = 100 ↔ s = t) ∧ (percent_of s t = 0 ↔ s = 0)).
Proof.
  intros Hs Hs' Ht.
  destruct (percentage_integer s t) as (Hp & Hr & Hn & _); [lia..|].
  destruct (percentage_integer s' t) as (_ & Hr' & Hn' & _); [lia..|].
  destruct (percentage_integer 0 t) as (_ & Hr0 & Hn0 & _); [lia..|].
  destruct (percentage_integer t t) as (_ & Hrt & Hnt & _); [lia..|].
  assert (percent_of 0 t = 0) as H0 by (unfold nearest in Hn0; nia).
  assert (percent_of t t = 100) as H100 by (unfold nearest in Hnt; nia).
  split; [exact Hp|]. split; [reflexivity|]. split; [split; [lia|]|].
  - destruct (Z.eq_dec s s') as [->|Hne]; [lia|].
    eapply (nearest_monotone _ _ s s' t); [lia|lia|done..].
  - split; [lia|]. split; [done|]. split; [done|]. intros Hsmall. split.
    + split; [|by intros ->]. intros Heq. rewrite Heq in Hn.
      unfold nearest in Hn. lia.
    + split; [|by intros ->]. intros Heq. rewrite Heq in Hn.
      unfold nearest in Hn. lia.
Qed.

Lemma percentage_grows_with_score_witness :
  percent_of 3 5 ≤ percent_of 4 5
  ∧ Review.percentage (of_Z 3) (of_Z 5) = of_Z 60
  ∧ percent_of 0 5 = 0 ∧ percent_of 5 5 = 100.
Proof.
  destruct (percentage_grows_with_score 3 4 5) as (Hp & _ & Hm & _ & H0 & H1 & _);
    [lia | lia | unfold bound; lia |].
  split; [lia|]. split; [reflexivity|]. split; [exact H0 | exact H1].
Defined.

(** X18. The message of the results page goes by the rounded
    percentage, so its thresholds are half a point below 80, 60 and
    40: for [s] right answers out of [t] (fewer than 200 questions)
    it is "Excellent work!" exactly when s/t ≥ 79.5%, "Good job!"
    from 59.5%, "Keep practicing!" from 39.5% and "Don't give up!"
    below; the colour of the results page and the colour of the
    attempt in the history change at the same thresholds. Without
    questions the percentage is not a number and the message is
    "Don't give up!". *)
Theorem message_thresholds s t :
  0 ≤ s ≤ t → 1 ≤ t < 200 →
  let p := Review.percentage (of_Z s) (of_Z t) in
  (getPerformanceMessage p = "Excellent work!" ↔ 159 * t ≤ 200 * s)
  ∧ (getPerformanceMessage p = "Good job!" ↔ 119 * t ≤ 200 * s < 159 * t)
  ∧ (getPerformanceMessage p = "Keep practicing!" ↔ 79 * t ≤ 200 * s < 119 * t)
  ∧ (getPerformanceMessage p = "Don't give up!" ↔ 200 * s < 79 * t)
  ∧ (getPerformanceColor p = "text-green-600" ↔ performanceColor p = "bg-green-500")
  ∧ (getPerformanceColor p = "text-blue-600" ↔ performanceColor p = "bg-blue-500")
  ∧ (getPerformanceColor p = "text-yellow-600" ↔ performanceColor p = "bg-yellow-500")
  ∧ (getPerformanceColor p = "text-green-600" ↔ getPerformanceMessage p = "Excellent work!")
  ∧ getPerformanceMessage (Review.percentage (of_Z 0) (of_Z 0)) = "Don't give up!".
Proof.
  intros Hs Ht p.
  destruct (percentage_integer s t) as (Hp & Hr & Hn & _); [lia | unfold bound; lia |].
  change (Performance.percentage (of_Z s) (of_Z t)) with p in Hp.
  destruct (band_checked (percent_of s t) Hr) as (H80 & H60 & H40).
  unfold getPerformanceMessage, getPerformanceColor, performanceColor.
  rewrite Hp, H80, H60, H40. unfold nearest in Hn.
  assert (80 ≤ percent_of s t ↔ 159 * t ≤ 200 * s) as B80 by (split; nia).
  assert (60 ≤ percent_of s t ↔ 119 * t ≤ 200 * s) as B60 by (split; nia).
  assert (40 ≤ percent_of s t ↔ 79 * t ≤ 200 * s) as B40 by (split; nia).
  destruct (Z.leb_spec 80 (percent_of s t));
    destruct (Z.leb_spec 60 (percent_of s t));
    destruct (Z.leb_spec 40 (percent_of s t));
    repeat split; intros; try discriminate; try reflexivity; try lia;
    exfalso; lia.
Qed.

Lemma message_thresholds_witness :
  getPerformanceMessage (Review.percentage (of_Z 4) (of_Z 5)) = "Excellent work!"
  ∧ getPerformanceMessage (Review.percentage (of_Z 3) (of_Z 5)) = "Good job!".
Proof.
  split.
  - destruct (message_thresholds 4 5) as (H & _); [lia | lia |]. apply H. lia.
  - destruct (message_thresholds 3 5) as (_ & H & _); [lia | lia |]. apply H. lia.
Defined.

End ReviewProofs.

(** ** The dashboard *)

Section DashboardProofs.
Import Store Client Dashboard Scenario.
Local Open Scope eff_scope.

Lemma toggle_in subject prev :
  subject ∈ prev → toggle subject prev = filter (λ s, s ≠ subject) prev.
Proof. intros Hin. unfold toggle. by rewrite bool_decide_true. Qed.

Lemma toggle_out subject prev :
  subject ∉ prev → toggle subject prev = prev ++ [subject].
Proof. intros Hin. unfold toggle. by rewrite bool_decide_false. Qed.

Lemma toggle_self subject prev : subject ∈ toggle subject prev ↔ subject ∉ prev.
Proof.
  destruct (decide (subject ∈ prev)) as [Hin|Hin].
  - rewrite toggle_in, list_elem_of_filter by done. tauto.
  - rewrite toggle_out, elem_of_app, list_elem_of_singleton by done. tauto.
Qed.

Lemma toggle_other subject prev s :
  s ≠ subject → s ∈ toggle subject prev ↔ s ∈ prev.
Proof.
  intros Hs. destruct (decide (subject ∈ prev)) as [Hin|Hin].
  - rewrite toggle_in, list_elem_of_filter by done. tauto.
  - rewrite toggle_out, elem_of_app, list_elem_of_singleton by done. tauto.
Qed.

Lemma toggle_nodup subject prev : NoDup prev → NoDup (toggle subject prev).
Proof.
  intros Hnd. destruct (decide (subject ∈ prev)) as [Hin|Hin].
  - rewrite toggle_in by done. by apply NoDup_filter.
  - rewrite toggle_out by done. apply NoDup_app. split; [done|].
    split; [|apply NoDup_singleton].
    intros s Hs ->%list_elem_of_singleton. done.
Qed.

(** X19. A click on a subject flips that subject and no other: it is
    selected afterwards exactly when it was not before, every other
    subject stays as it was, no subject is ever selected twice, and a
    second click on the same subject gives back the same selection (in
    the same order when the subject was not selected at first). *)
Theorem toggle_flips_one_subject subject prev :
  (subject ∈ toggle subject prev ↔ subject ∉ prev)
  ∧ (∀ s, s ≠ subject → s ∈ toggle subject prev ↔ s ∈ prev)
  ∧ (NoDup prev → NoDup (toggle subject prev))
  ∧ (NoDup prev → toggle subject (toggle subject prev) ≡ₚ prev)
  ∧ (subject ∉ prev → toggle subject (toggle subject prev) = prev).
Proof.
  split; [apply toggle_self|]. split; [intros s; apply toggle_other|].
  split; [apply toggle_nodup|]. split.
  - intros Hnd. apply NoDup_Permutation; [by do 2 apply toggle_nodup|done|].
    intros s. destruct (decide (s = subject)) as [->|Hne].
    + rewrite !toggle_self. destruct (decide (subject ∈ prev)); tauto.
    + by rewrite !toggle_other.
  - intros Hin. rewrite (toggle_out _ _ Hin), toggle_in
      by (apply elem_of_app; right; by left).
    rewrite filter_app, filter_cons, decide_False, app_nil_r by (by intros ?).
    apply filter_all. by intros s Hs ->.
Qed.

Lemma dashboard_run_cons e es s :
  Dashboard.run (e :: es) s = Dashboard.run es (Dashboard.handle e s).2.
Proof. reflexivity. Qed.

(** The selections reachable with the buttons of the page. *)
Lemma offered_selections es w p :
  Forall offered es →
  (selectedSkill p = "" ∨ selectedSkill p ∈ skillLevels) →
  NoDup (selectedSubjects p) → selectedSubjects p ⊆ Dashboard.subjects →
  (selectedCount p = 0%Z ∨ selectedCount p ∈ questionCounts) →
  ∃ p', Dashboard.run es (w, p) = (w, p')
    ∧ (selectedSkill p' = "" ∨ selectedSkill p' ∈ skillLevels)
    ∧ NoDup (selectedSubjects p') ∧ selectedSubjects p' ⊆ Dashboard.subjects
    ∧ (selectedCount p' = 0%Z ∨ selectedCount p' ∈ questionCounts).
Proof.
  intros Hall. revert p. induction Hall as [|e es He Hes IH]; intros p Hk Hn Hs Hc.
  - by exists p.
  - rewrite dashboard_run_cons. destruct e as [level|subject|count]; cbn in He |- *.
    + apply IH; cbn; [by right|done..].
    + apply IH; cbn; [done| | |done].
      * by apply toggle_nodup.
      * intros s Hin. destruct (decide (s = subject)) as [->|Hne]; [done|].
        apply Hs. by eapply toggle_other.
    + apply IH; cbn; [done..|by right].
Qed.

(** X20. Whatever buttons of the dashboard were clicked, Start either
    stays on the page with exactly one error toast, naming the first
    selection that is missing, or hands the quiz page a selection that
    is well formed and shows nothing: a skill level the store accepts,
    a question count among 5, 10, 20 and 30, and a non-empty list of
    offered subjects without repetition; the quiz page then does not
    turn back but generates the quiz for that selection. *)
Theorem start_hands_over_a_well_formed_selection es w :
  Forall offered es →
  let s := Dashboard.run es (w, Dashboard.initial) in
  s.1 = w
  ∧ ((∃ msg, handleStartQuiz s = (Normal None, (add_toast (ToastError msg) w, s.2))
        ∧ ((selectedSkill s.2 = "" ∧ msg = "Please select a skill level")
           ∨ (selectedSkill s.2 ≠ "" ∧ selectedSubjects s.2 = []
              ∧ msg = "Please select at least one subject")
           ∨ (selectedSkill s.2 ≠ "" ∧ selectedSubjects s.2 ≠ []
              ∧ selectedCount s.2 = 0%Z
              ∧ msg = "Please select number of questions")))
     ∨ ∃ sel, handleStartQuiz s = (Normal (Some sel), s)
         ∧ sel = mkQuizSelection (selectedSkill s.2) (selectedSubjects s.2)
                                 (selectedCount s.2)
         ∧ skill_level_ok (skillLevel sel) = true
         ∧ questionCount sel ∈ questionCounts
         ∧ int4_ok (questionCount sel) = true
         ∧ qs_subjects sel ≠ []
         ∧ NoDup (qs_subjects sel)
         ∧ qs_subjects sel ⊆ Dashboard.subjects
         ∧ Quiz.mount (Some (skillLevel sel)) (Some (qs_subjects sel))
                      (Some (questionCount sel))
           = Quiz.generateQuiz (skillLevel sel) (qs_subjects sel)
                               (questionCount sel)).
Proof.
  intros Hall s.
  destruct (offered_selections es w Dashboard.initial Hall)
    as (p & Hrun & Hk & Hn & Hs & Hc);
    [by left | apply NoDup_nil_2 | by intros x Hx%elem_of_nil | by left |].
  subst s. rewrite Hrun. cbn [fst snd]. split; [done|].
  unfold handleStartQuiz, bind, get_page, toast_error, modify_world, ret.
  cbn [fst snd].
  destruct (decide (selectedSkill p = "")) as [Hskill|Hskill].
  { rewrite bool_decide_true by done.
    left. eexists. split; [reflexivity|]. by left. }
  rewrite bool_decide_false by done.
  destruct (selectedSubjects p) as [|x l] eqn:Hsub.
  { left. eexists. split; [reflexivity|]. right. left. done. }
  cbn [length Nat.eqb].
  destruct (decide (selectedCount p = 0%Z)) as [Hcount|Hcount].
  { rewrite bool_decide_true by done.
    left. eexists. split; [reflexivity|]. right. right. done. }
  rewrite bool_decide_false by done.
  destruct Hk as [?|Hk]; [done|]. destruct Hc as [?|Hc]; [done|].
  right. eexists. split; [reflexivity|]. split; [done|]. cbn.
  assert (skill_level_ok (selectedSkill p) = true) as Hok.
  { by apply bool_decide_eq_true. }
  assert (int4_ok (selectedCount p) = true ∧ selectedCount p ≠ 0%Z) as [Hint Hnz].
  { unfold questionCounts in Hc.
    repeat (apply elem_of_cons in Hc as [->|Hc]; [done|]).
    by apply elem_of_nil in Hc. }
  repeat (split; [done|]).
  unfold Quiz.mount. by rewrite !bool_decide_false.
Qed.

Lemma start_hands_over_a_well_formed_selection_witness :
  Forall offered [SelectSkill "Beginner"; ToggleSubject "Java";
                  ToggleSubject "DBMS"; ToggleSubject "Java"; SelectCount 10]
  ∧ handleStartQuiz
      (Dashboard.run [SelectSkill "Beginner"; ToggleSubject "Java";
                      ToggleSubject "DBMS"; ToggleSubject "Java"; SelectCount 10]
                     (world_of empty_db (Some alice) [] no_generator,
                      Dashboard.initial))
    = (Normal (Some (mkQuizSelection "Beginner" ["DBMS"] 10)),
       (world_of empty_db (Some alice) [] no_generator,
        Dashboard.mkState "Beginner" ["DBMS"] 10)).
Proof.
  assert (Forall offered [SelectSkill "Beginner"; ToggleSubject "Java";
                          ToggleSubject "DBMS"; ToggleSubject "Java";
                          SelectCount 10]) as H.
  { repeat constructor; apply list_elem_of_In; simpl; tauto. }
  split; [exact H|].
  destruct (start_hands_over_a_well_formed_selection _
              (world_of empty_db (Some alice) [] no_generator) H)
    as [_ [(msg & Hmsg & _) | (sel & Hsel & _)]].
  - vm_compute in Hmsg. discriminate Hmsg.
  - vm_compute. reflexivity.
Defined.

End DashboardProofs.

(** ** The [generate-quiz] function, continued *)

Section GeneratorMoreProofs.
Import Store Client Json GenerateQuiz Scenario.
Local Open Scope Z_scope.

Variable JSON_parse : string → Err + Json.

(** Membership in a list of literals. *)
Ltac in_list := apply list_elem_of_In; simpl; tauto.

(** X21. Whatever the request, the key and the gateway, the function
    answers with status 200, 402, 429 or 500 and calls the gateway at
    most once. It answers OPTIONS with 200 and an empty body; a body
    it cannot read with 500; in these two cases and without a key the
    gateway is not called at all, in every other case exactly once. A
    200 that is not the answer to OPTIONS carries [questions]. *)
Theorem serve_statuses key fetch req :
  let r := serve JSON_parse key fetch req in
  status r.1 ∈ [200; 402; 429; 500]
  ∧ (length r.2 ≤ 1)%nat
  ∧ (method req = "OPTIONS" → r = (mkResponse 200 None, []))
  ∧ (method req ≠ "OPTIONS" → body req = None → status r.1 = 500 ∧ r.2 = [])
  ∧ (r.2 = [] ↔ method req = "OPTIONS" ∨ body req = None
                 ∨ key = None ∨ key = Some "")
  ∧ (status r.1 = 200 → method req ≠ "OPTIONS" →
     ∃ v, payload r.1 = Some (JObject [("questions", v)])).
Proof.
  intros r. subst r. unfold serve.
  destruct (decide (method req = "OPTIONS")) as [Hm|Hm].
  { rewrite bool_decide_true by done. cbn.
    split; [in_list|]. split; [lia|]. split; [done|]. split; [done|].
    split; [split; [by left|done]|done]. }
  rewrite bool_decide_false by done. unfold generate.
  destruct (body req) as [b|].
  2: { cbn. split; [in_list|]. split; [lia|]. split; [done|]. split; [done|].
       split; [split; [by right; left|done]|]. intros; discriminate. }
  destruct (key_cases key) as [[-> | ->] | (k & -> & Hk)].
  1, 2: cbn; (split; [in_list|]); (split; [lia|]); (split; [done|]);
        (split; [done|]); split; [split; [tauto|done]|intros; discriminate].
  assert (∀ x : Response * list FetchRequest,
            x.2 = [gateway_request k b] →
            status x.1 ∈ [200; 402; 429; 500] →
            (status x.1 = 200 → ∃ v, payload x.1 = Some (JObject [("questions", v)])) →
            status x.1 ∈ [200; 402; 429; 500]
            ∧ (length x.2 ≤ 1)%nat
            ∧ (method req = "OPTIONS" → x = (mkResponse 200 None, []))
            ∧ (method req ≠ "OPTIONS" → Some b = None →
               status x.1 = 500 ∧ x.2 = [])
            ∧ (x.2 = [] ↔ method req = "OPTIONS" ∨ Some b = None
                           ∨ Some k = None ∨ Some k = Some "")
            ∧ (status x.1 = 200 → method req ≠ "OPTIONS" →
               ∃ v, payload x.1 = Some (JObject [("questions", v)]))) as Hcase.
  { intros x Hcalls Hst H200. rewrite Hcalls. split; [done|].
    split; [simpl; lia|]. split; [done|]. split; [done|].
    split; [|by intros ? _; apply H200].
    split; [done|]. intros [?|[?|[?|?]]]; try done. congruence. }
  destruct k as [|c k']; [done|].
  destruct (fetch _) as [e | st json].
  { apply Hcase; cbn; [done|in_list|intros; discriminate]. }
  destruct (negb (ok st)).
  { repeat case_bool_decide; apply Hcase; cbn;
      first [done | in_list | intros; discriminate]. }
  unfold mbind, err_bind.
  destruct json as [e|data];
    [apply Hcase; simpl; first [done | in_list | intros; discriminate]|].
  destruct (generated_text data) as [e|text];
    [apply Hcase; simpl; first [done | in_list | intros; discriminate]|].
  destruct (JSON_parse (clean text)) as [e|v];
    [apply Hcase; simpl; first [done | in_list | intros; discriminate]|].
  apply Hcase; simpl; [done|in_list|]. intros _. by exists v.
Qed.

End GeneratorMoreProofs.

(** ** Cleaning the generated text *)

Section CleanProofs.
Import Store Client Json GenerateQuiz Fences Scenario.

Lemma append_empty_r s : s +:+ "" = s.
Proof.
  induction s as [|c r IH]; [done|].
  change (String c r +:+ "") with (String c (r +:+ "")). by rewrite IH.
Qed.

Lemma remove_fences_plain f s rest :
  plain s →
  remove_fences (String backtick f) 0 false (s +:+ rest)
  = s +:+ remove_fences (String backtick f) 0 false rest.
Proof.
  induction s as [|c r IH]; intros Hs; [done|]. destruct Hs as [Hc Hr].
  change (String c r +:+ rest) with (String c (r +:+ rest)).
  cbn [remove_fences andb String.prefix].
  destruct (ascii_dec backtick c) as [Heq|_]; [by destruct Hc|].
  by rewrite IH.
Qed.

Lemma trim_end_newline s : trim_end (s +:+ nl) = trim_end s.
Proof.
  induction s as [|c r IH]; [done|].
  change (String c r +:+ nl) with (String c (r +:+ nl)).
  cbn [trim_end]. by rewrite IH.
Qed.

Lemma trim_newline s : trim (s +:+ nl) = trim s.
Proof.
  unfold trim. induction s as [|c r IH]; [done|].
  change (String c r +:+ nl) with (String c (r +:+ nl)).
  cbn [trim_start]. destruct (js_space c); [done|].
  change (String c (r +:+ nl)) with (String c r +:+ nl).
  apply trim_end_newline.
Qed.

(** X22. What the clean-up does to the shapes of answer the prompt
    leads to. A text without any backtick is only trimmed; and a text
    without backtick wrapped in a code fence, with or without the
    [json] tag, each fence on a line of its own, is unwrapped and
    trimmed: all three are cleaned to the same text. *)
Theorem clean_unwraps_a_fenced_text text :
  plain text →
  clean text = trim text
  ∧ clean (fence +:+ "json" +:+ nl +:+ text +:+ nl +:+ fence) = trim text
  ∧ clean (fence +:+ nl +:+ text +:+ nl +:+ fence) = trim text.
Proof.
  intros Hplain.
  assert (∀ f rest,
            remove_fences (String backtick f) 0 false (text +:+ rest)
            = text +:+ remove_fences (String backtick f) 0 false rest) as Hskip.
  { intros. by apply remove_fences_plain. }
  assert (∀ f, remove_fences (String backtick f) 0 false (text +:+ nl +:+ fence)
               = text +:+ remove_fences (String backtick f) 0 false (nl +:+ fence))
    as Hline by (intros; apply Hskip).
  assert (∀ f, remove_fences (String backtick f) 0 false text = text) as Hid.
  { intros f. rewrite <- (append_empty_r text) at 1.
    rewrite Hskip. apply append_empty_r. }
  unfold clean. split; [|split].
  - f_equal. etrans; [|apply (Hid "``")]. f_equal. apply (Hid "``json").
  - transitivity (trim (text +:+ nl)); [|apply trim_newline]. f_equal.
    transitivity (remove_fences fence 0 false (text +:+ nl +:+ fence)).
    + f_equal. etrans; [|apply (Hline "``json")]. reflexivity.
    + etrans; [apply (Hline "``")|]. reflexivity.
  - transitivity (trim (text +:+ nl)); [|apply trim_newline]. f_equal.
    transitivity (remove_fences fence 0 false
                    (fence +:+ nl +:+ text +:+ nl +:+ fence)).
    + f_equal.
      transitivity (fence +:+ nl
                      +:+ remove_fences (fence +:+ "json") 0 false
                            (text +:+ nl +:+ fence)); [reflexivity|].
      do 2 f_equal. etrans; [apply (Hline "``json")|]. reflexivity.
    + transitivity (remove_fences fence 0 false (text +:+ nl +:+ fence));
        [reflexivity|].
      etrans; [apply (Hline "``")|]. reflexivity.
Qed.

Lemma clean_unwraps_a_fenced_text_witness :
  plain "  [1, 2] "
  ∧ clean (fence +:+ "json" +:+ nl +:+ "  [1, 2] " +:+ nl +:+ fence) = "[1, 2]".
Proof.
  assert (plain "  [1, 2] ") as H by (repeat split; discriminate).
  split; [exact H|].
  exact (proj1 (proj2 (clean_unwraps_a_fenced_text _ H))).
Defined.

End CleanProofs.
